(** * Hazel: OpenGL shader pipeline and vertex-array binder

    A shallow embedding of

    - [Platform/OpenGL/OpenGLShader.cpp]: [ShaderTypeFromString], the two
      constructors, [ReadFile], [PreProcess], [Compile], [Bind] and the
      [UploadUniform*] family;
    - [Platform/OpenGL/OpenGLVertexArray.cpp]:
      [ShaderDataTypeToOpenGLBaseType] and [AddVertexBuffer].

    [size_t] values are integers modulo [2^64] with the wrap-around written
    out; [std::string] is a list of characters; [std::unordered_map] is a
    [gmap]; calls into the graphics driver and the logger are recorded as
    events, and what the driver and the file system answer comes from a
    [Platform] record.  [HZ_PROFILE_FUNCTION()] only times a call and is
    left out. *)

From Stdlib Require Import ZArith Ascii String Lia.
From stdpp Require Import gmap list.

Open Scope Z_scope.

(** ** Outcomes of a call *)

Inductive exception := out_of_range.

Inductive halt :=
| AssertionFailed (msg : string)   (* a tripped HZ_CORE_ASSERT: the process stops *)
| Throws (e : exception)           (* a C++ exception leaves the function *)
| Undefined                        (* a store outside a fixed-size array *)
| OutOfFuel.                       (* artefact of the loop bound, shown unreachable *)

Inductive outcome (A : Type) :=
| Returns (a : A)
| Halts (h : halt).
Arguments Returns {A} a.
Arguments Halts {A} h.

#[global] Instance outcome_ret : MRet outcome := fun A a => Returns a.
#[global] Instance outcome_bind : MBind outcome := fun A B f x =>
  match x with
  | Returns a => f a
  | Halts h => Halts h
  end.

Definition returned {A} (x : outcome A) : bool :=
  match x with Returns _ => true | Halts _ => false end.

(** [HZ_CORE_ASSERT(x, msg)].  The macro comes from the engine's core
    header; whether assertions are compiled in is a parameter.  When they
    are, a false condition stops the process (what the macro prints on the
    way is not recorded); when they are not, the macro expands to nothing
    and the code after it runs. *)
Definition HZ_CORE_ASSERT (HZ_ENABLE_ASSERTS : bool) (x : bool) (msg : string)
  : outcome unit :=
  if x then Returns tt
  else if HZ_ENABLE_ASSERTS then Halts (AssertionFailed msg)
  else Returns tt.

(** ** [std::string] and [size_t] *)

Abbreviation std_string := (list ascii).

(** A literal. *)
Definition lit (s : string) : std_string := list_ascii_of_string s.

Definition LF : ascii := "010"%char.
Definition CR : ascii := "013"%char.

Module str.

(** [std::string::npos], i.e. [size_t(-1)]. *)
Definition npos : Z := 2 ^ 64 - 1.

(** [size_t] arithmetic. *)
Definition add (a b : Z) : Z := (a + b) mod 2 ^ 64.
Definition sub (a b : Z) : Z := (a - b) mod 2 ^ 64.

Definition size (s : std_string) : Z := Z.of_nat (length s).

(** A string that exists has fewer than [npos] characters. *)
Definition fits (s : std_string) : Prop := size s < npos.

Fixpoint starts_with (tok s : std_string) : bool :=
  match tok, s with
  | [], _ => true
  | _ :: _, [] => false
  | a :: tok', b :: s' => Ascii.eqb a b && starts_with tok' s'
  end.

Definition is_one_of (chars : std_string) (c : ascii) : bool :=
  existsb (Ascii.eqb c) chars.

Definition head_in (chars : std_string) (s : std_string) : bool :=
  match s with
  | [] => false
  | c :: _ => is_one_of chars c
  end.

Definition head_not_in (chars : std_string) (s : std_string) : bool :=
  match s with
  | [] => false
  | c :: _ => negb (is_one_of chars c)
  end.

(** Offset of the first suffix of [s] that satisfies [P]. *)
Fixpoint first_where (P : std_string -> bool) (s : std_string) : option nat :=
  if P s then Some 0%nat
  else match s with
       | [] => None
       | _ :: s' => S <$> first_where P s'
       end.

(** Offset of the last character of [s] that satisfies [P]. *)
Fixpoint last_where (P : ascii -> bool) (s : std_string) : option nat :=
  match s with
  | [] => None
  | c :: s' =>
      match last_where P s' with
      | Some k => Some (S k)
      | None => if P c then Some 0%nat else None
      end
  end.

(** Searching forward from [pos]: the index found, or [npos]. *)
Definition search_from (P : std_string -> bool) (pos : Z) (s : std_string) : Z :=
  if size s <? pos then npos
  else match first_where P (drop (Z.to_nat pos) s) with
       | Some k => pos + Z.of_nat k
       | None => npos
       end.

(** [s.find(tok, pos)] *)
Definition find (tok : std_string) (pos : Z) (s : std_string) : Z :=
  search_from (starts_with tok) pos s.

(** [s.find_first_of(chars, pos)] *)
Definition find_first_of (chars : std_string) (pos : Z) (s : std_string) : Z :=
  search_from (head_in chars) pos s.

(** [s.find_first_not_of(chars, pos)] *)
Definition find_first_not_of (chars : std_string) (pos : Z) (s : std_string) : Z :=
  search_from (head_not_in chars) pos s.

(** [s.find_last_of(chars)] *)
Definition find_last_of (chars : std_string) (s : std_string) : Z :=
  match last_where (is_one_of chars) s with
  | Some k => Z.of_nat k
  | None => npos
  end.

(** [s.rfind(c)] *)
Definition rfind (c : ascii) (s : std_string) : Z :=
  match last_where (Ascii.eqb c) s with
  | Some k => Z.of_nat k
  | None => npos
  end.

(** [s.substr(pos, count)]: throws when [pos > size()], and otherwise
    yields [min(count, size() - pos)] characters from [pos] on. *)
Definition substr (s : std_string) (pos count : Z) : outcome std_string :=
  if size s <? pos then Halts (Throws out_of_range)
  else Returns (take (Z.to_nat (Z.min count (size s - pos)))
                     (drop (Z.to_nat pos) s)).

End str.

(** ** OpenGL types and constants (glad.h) *)

Abbreviation GLenum := Z (only parsing).
Abbreviation GLuint := Z (only parsing).
Abbreviation GLint := Z (only parsing).

Definition GL_FALSE : GLint := 0.
Definition GL_TRUE : GLint := 1.
Definition GL_VERTEX_SHADER : GLenum := 0x8B31.
Definition GL_FRAGMENT_SHADER : GLenum := 0x8B30.
Definition GL_COMPILE_STATUS : GLenum := 0x8B81.
Definition GL_LINK_STATUS : GLenum := 0x8B82.
Definition GL_INFO_LOG_LENGTH : GLenum := 0x8B84.
Definition GL_FLOAT : GLenum := 0x1406.
Definition GL_INT : GLenum := 0x1404.
Definition GL_BOOL : GLenum := 0x8B56.

(** ** OpenGLShader.cpp: the source splitter *)

Definition std_string_eqb (a b : std_string) : bool :=
  bool_decide (a = b).

(** [static GLenum ShaderTypeFromString(const std::string& type)] *)
Definition ShaderTypeFromString (asserts : bool) (type : std_string) : outcome GLenum :=
  if std_string_eqb type (lit "vertex") then
    Returns GL_VERTEX_SHADER
  else if std_string_eqb type (lit "fragment") || std_string_eqb type (lit "pixel") then
    Returns GL_FRAGMENT_SHADER
  else
    HZ_CORE_ASSERT asserts false "Unknown shader type!";;
    Returns 0.

Definition typeToken : std_string := lit "#type".
Definition typeTokenLength : Z := str.size typeToken.
Definition line_breaks : std_string := [CR; LF].

(** One turn of the [while] loop of [PreProcess], entered with
    [pos != npos]; it yields the next [pos] and the updated map.  In
    [shaderSources[ShaderTypeFromString(type)] = source.substr(...)] the
    right operand is evaluated first (C++17, which the structured bindings
    of [Compile] require). *)
Definition PreProcess_step (asserts : bool) (source : std_string)
    (pos : Z) (shaderSources : gmap Z std_string)
  : outcome (Z * gmap Z std_string) :=
  let eol := str.find_first_of line_breaks pos source in
  HZ_CORE_ASSERT asserts (negb (eol =? str.npos)) "Sytax error";;
  let begin := str.add (str.add pos typeTokenLength) 1 in
  type ← str.substr source begin (str.sub eol begin);
  let nextLinePos := str.find_first_not_of line_breaks eol source in
  let pos' := str.find typeToken nextLinePos source in
  text ← str.substr source nextLinePos
            (str.sub pos' (if nextLinePos =? str.npos
                           then str.sub (str.size source) 1
                           else nextLinePos));
  key ← ShaderTypeFromString asserts type;
  Returns (pos', <[key := text]> shaderSources).

Fixpoint PreProcess_loop (fuel : nat) (asserts : bool) (source : std_string)
    (pos : Z) (shaderSources : gmap Z std_string)
  : outcome (gmap Z std_string) :=
  if pos =? str.npos then Returns shaderSources
  else match fuel with
       | O => Halts OutOfFuel
       | S fuel' =>
           r ← PreProcess_step asserts source pos shaderSources;
           PreProcess_loop fuel' asserts source (fst r) (snd r)
       end.

(** [std::unordered_map<GLenum, std::string>
     OpenGLShader::PreProcess(const std::string& source)] *)
Definition PreProcess (asserts : bool) (source : std_string)
  : outcome (gmap Z std_string) :=
  PreProcess_loop (S (length source)) asserts source
    (str.find typeToken 0 source) ∅.

(** ** Calls that leave the program

    Every call into the OpenGL driver and every [HZ_CORE_ERROR] line is an
    event, recorded with its arguments and, where it has one, its result.
    A [float] is carried as its bit pattern: the code only passes floats on. *)

Abbreviation GLfloat := Z (only parsing).

Inductive event :=
| glCreateProgram (ret : GLuint)
| glCreateShader (type : GLenum) (ret : GLuint)
| glShaderSource (shader : GLuint) (text : std_string)
| glCompileShader (shader : GLuint)
| glGetShaderiv (shader : GLuint) (pname : GLenum) (ret : GLint)
| glGetShaderInfoLog (shader : GLuint) (maxLength : GLint) (ret : std_string)
| glDeleteShader (shader : GLuint)
| glAttachShader (program shader : GLuint)
| glLinkProgram (program : GLuint)
| glGetProgramiv (program : GLuint) (pname : GLenum) (ret : GLint)
| glGetProgramInfoLog (program : GLuint) (maxLength : GLint) (ret : std_string)
| glDeleteProgram (program : GLuint)
| glDetachShader (program shader : GLuint)
| glUseProgram (program : GLuint)
| glGetUniformLocation (program : GLuint) (name : std_string) (ret : GLint)
| glUniformMatrix4fv (location : GLint) (count : Z) (transpose : Z) (value : list GLfloat)
| glUniformMatrix3fv (location : GLint) (count : Z) (transpose : Z) (value : list GLfloat)
| glUniform4f (location : GLint) (v0 v1 v2 v3 : GLfloat)
| glUniform3f (location : GLint) (v0 v1 v2 : GLfloat)
| glUniform2f (location : GLint) (v0 v1 : GLfloat)
| glUniform1f (location : GLint) (v0 : GLfloat)
| glUniform4i (location : GLint) (v0 v1 v2 v3 : GLint)
| glUniform3i (location : GLint) (v0 v1 v2 : GLint)
| glUniform2i (location : GLint) (v0 v1 : GLint)
| glUniform1i (location : GLint) (v0 : GLint)
| glBindVertexArray (array : GLuint)
| glEnableVertexAttribArray (index : GLuint)
| glVertexAttribPointer (index : GLuint) (size : GLint) (type : GLenum)
    (normalized : Z) (stride : Z) (pointer : Z)
| VertexBuffer_Bind (buffer : GLuint)
| HZ_CORE_ERROR (msg : std_string).

(** What the surroundings answer.  The compiler's verdict on a stage depends
    on the stage kind and its text, the linker's on the stages attached (in
    the order they were attached); the names the driver hands out may depend
    on every call made so far. *)
Record Platform := {
  HZ_ENABLE_ASSERTS : bool;
  (** [std::ifstream in(filepath, in | binary)]: the bytes, if it opens *)
  file_contents : std_string -> option std_string;
  gen_name : list event -> GLuint;
  glGetShaderiv_ret : GLenum -> std_string -> GLenum -> GLint;
  glGetShaderInfoLog_ret : GLenum -> std_string -> std_string;
  glGetProgramiv_ret : list (GLenum * std_string) -> GLenum -> GLint;
  glGetProgramInfoLog_ret : list (GLenum * std_string) -> std_string;
  glGetUniformLocation_ret : GLuint -> std_string -> GLint;
  (** the order in which a range-[for] visits the [unordered_map] *)
  iteration_order : gmap Z std_string -> list (Z * std_string);
  (** what the two slots of a fresh [std::array<GLenum, 2>] happen to hold *)
  indeterminate : GLenum * GLenum;
}.

(** ** Member functions: state is the object and the events so far *)

Definition M (O A : Type) : Type :=
  O -> list event -> outcome A * O * list event.

#[global] Instance M_ret {O} : MRet (M O) := fun A a self tr => (Returns a, self, tr).
#[global] Instance M_bind {O} : MBind (M O) := fun A B f m self tr =>
  match m self tr with
  | (Returns a, self', tr') => f a self' tr'
  | (Halts h, self', tr') => (Halts h, self', tr')
  end.

Definition emit {O} (e : event) : M O unit :=
  fun self tr => (Returns tt, self, tr ++ [e]).
Definition history {O} : M O (list event) :=
  fun self tr => (Returns tr, self, tr).
Definition this {O} : M O O :=
  fun self tr => (Returns self, self, tr).
Definition store {O} (self' : O) : M O unit :=
  fun _ tr => (Returns tt, self', tr).
Definition lift {O A} (x : outcome A) : M O A :=
  fun self tr => (x, self, tr).

Definition result_of {A O} (r : outcome A * O * list event) : outcome A := r.1.1.
Definition object_of {A O} (r : outcome A * O * list event) : O := r.1.2.
Definition events_of {A O} (r : outcome A * O * list event) : list event := r.2.

(** ** OpenGLShader.cpp: the shader object *)

Record Shader := {
  m_RendererID : GLuint;
  m_Name : std_string;
}.

(** [std::string OpenGLShader::ReadFile(const std::string& filepath)] *)
Definition ReadFile (pf : Platform) (filepath : std_string) : M Shader std_string :=
  match file_contents pf filepath with
  | Some bytes => mret bytes
  | None =>
      emit (HZ_CORE_ERROR (lit "Could not open file '" ++ filepath ++ lit "'"));;
      mret []
  end.

(** [void OpenGLShader::Bind() const] *)
Definition Bind : M Shader unit :=
  self ← this;
  emit (glUseProgram (m_RendererID self)).

(** [void OpenGLShader::Unbind() const] *)
Definition Unbind : M Shader unit :=
  emit (glUseProgram 0).

(** [glShaderIDs[i] = v] on the [std::array<GLenum, 2>] *)
Definition array2_store (a : GLenum * GLenum) (i : Z) (v : GLenum)
  : outcome (GLenum * GLenum) :=
  if i =? 0 then Returns (v, a.2)
  else if i =? 1 then Returns (a.1, v)
  else Halts Undefined.

(** The [for (auto& [shaderType, source] : shaderSources)] loop of
    [Compile]; [attached] lists the stages attached to [program] so far.
    It ends at the end of the map or at [break]. *)
Fixpoint Compile_stages (pf : Platform) (program : GLuint)
    (entries : list (GLenum * std_string))
    (attached : list (GLenum * std_string))
    (glShaderIDs : GLenum * GLenum) (glShaderIDIndex : Z)
  : M Shader (list (GLenum * std_string) * (GLenum * GLenum)) :=
  match entries with
  | [] => mret (attached, glShaderIDs)
  | (shaderType, source) :: rest =>
      tr ← history;
      let shaderID := gen_name pf tr in
      emit (glCreateShader shaderType shaderID);;
      emit (glShaderSource shaderID source);;
      emit (glCompileShader shaderID);;
      let isCompiled := glGetShaderiv_ret pf shaderType source GL_COMPILE_STATUS in
      emit (glGetShaderiv shaderID GL_COMPILE_STATUS isCompiled);;
      if isCompiled =? GL_FALSE then
        let maxLength := glGetShaderiv_ret pf shaderType source GL_INFO_LOG_LENGTH in
        emit (glGetShaderiv shaderID GL_INFO_LOG_LENGTH maxLength);;
        let infoLog := glGetShaderInfoLog_ret pf shaderType source in
        emit (glGetShaderInfoLog shaderID maxLength infoLog);;
        emit (glDeleteShader shaderID);;
        emit (HZ_CORE_ERROR infoLog);;
        lift (HZ_CORE_ASSERT (HZ_ENABLE_ASSERTS pf) false "Shader compilation failure!");;
        mret (attached, glShaderIDs) (* break *)
      else
        emit (glAttachShader program shaderID);;
        glShaderIDs' ← lift (array2_store glShaderIDs glShaderIDIndex shaderID);
        Compile_stages pf program rest (attached ++ [(shaderType, source)])
          glShaderIDs' (glShaderIDIndex + 1)
  end.

(** [void OpenGLShader::Compile(
       const std::unordered_map<GLenum, std::string>& shaderSources)] *)
Definition Compile (pf : Platform) (shaderSources : gmap Z std_string) : M Shader unit :=
  tr ← history;
  let program := gen_name pf tr in
  emit (glCreateProgram program);;
  lift (HZ_CORE_ASSERT (HZ_ENABLE_ASSERTS pf) (Z.of_nat (size shaderSources) <=? 2)
          "We only support 2 shaders for the moment");;
  r ← Compile_stages pf program (iteration_order pf shaderSources) []
        (indeterminate pf) 0;
  let attached := r.1 in
  let glShaderIDs := r.2 in
  emit (glLinkProgram program);;
  let isLinked := glGetProgramiv_ret pf attached GL_LINK_STATUS in
  emit (glGetProgramiv program GL_LINK_STATUS isLinked);;
  if isLinked =? GL_FALSE then
    let maxLength := glGetProgramiv_ret pf attached GL_INFO_LOG_LENGTH in
    emit (glGetProgramiv program GL_INFO_LOG_LENGTH maxLength);;
    let infoLog := glGetProgramInfoLog_ret pf attached in
    emit (glGetProgramInfoLog program maxLength infoLog);;
    emit (glDeleteProgram program);;
    emit (glDeleteShader glShaderIDs.1);;
    emit (glDeleteShader glShaderIDs.2);;
    emit (HZ_CORE_ERROR infoLog);;
    lift (HZ_CORE_ASSERT (HZ_ENABLE_ASSERTS pf) false "Program linking failure!");;
    mret tt (* return *)
  else
    emit (glDetachShader program glShaderIDs.1);;
    emit (glDetachShader program glShaderIDs.2);;
    (* only set the ID if all shaders succeeded *)
    self ← this;
    store {| m_RendererID := program; m_Name := m_Name self |};;
    Bind.

(** Lines 28-33 of the constructor: the name taken from the file path. *)
Definition name_of_filepath (filepath : std_string) : outcome std_string :=
  let lastSlash := str.find_last_of (lit "/\") filepath in
  let lastSlash := if lastSlash =? str.npos then 0 else str.add lastSlash 1 in
  let lastDot := str.rfind "."%char filepath in
  let count := if lastDot =? str.npos
               then str.sub (str.size filepath) lastSlash
               else str.sub lastDot lastSlash in
  str.substr filepath lastSlash count.

(** [OpenGLShader::OpenGLShader(const std::string& filepath)] *)
Definition OpenGLShader_filepath (pf : Platform) (filepath : std_string) : M Shader unit :=
  source ← ReadFile pf filepath;
  shaderSources ← lift (PreProcess (HZ_ENABLE_ASSERTS pf) source);
  Compile pf shaderSources;;
  name ← lift (name_of_filepath filepath);
  self ← this;
  store {| m_RendererID := m_RendererID self; m_Name := name |}.

(** [OpenGLShader::OpenGLShader(const std::string& name,
       const std::string& vertexSrc, const std::string& fragmentSrc)] *)
Definition OpenGLShader_sources (pf : Platform) (name vertexSrc fragmentSrc : std_string)
  : M Shader unit :=
  self ← this;
  store {| m_RendererID := m_RendererID self; m_Name := name |};;
  let sources : gmap Z std_string := ∅ in
  let sources := <[GL_VERTEX_SHADER := vertexSrc]> sources in
  let sources := <[GL_FRAGMENT_SHADER := fragmentSrc]> sources in
  Compile pf sources.

(** *** Uniform upload *)

Record vec2 := { x2 : GLfloat; y2 : GLfloat }.
Record vec3 := { x3 : GLfloat; y3 : GLfloat; z3 : GLfloat }.
Record vec4 := { x4 : GLfloat; y4 : GLfloat; z4 : GLfloat; w4 : GLfloat }.
Record ivec2 := { ix2 : GLint; iy2 : GLint }.
Record ivec3 := { ix3 : GLint; iy3 : GLint; iz3 : GLint }.
Record ivec4 := { ix4 : GLint; iy4 : GLint; iz4 : GLint; iw4 : GLint }.
(** [glm::value_ptr(matrix)]: the entries, column after column *)
Record mat3 := { value_ptr3 : list GLfloat }.
Record mat4 := { value_ptr4 : list GLfloat }.

(** [GLint location = glGetUniformLocation(m_RendererID, name.c_str());] *)
Definition get_location (pf : Platform) (name : std_string) : M Shader GLint :=
  self ← this;
  let location := glGetUniformLocation_ret pf (m_RendererID self) name in
  emit (glGetUniformLocation (m_RendererID self) name location);;
  mret location.

Definition UploadUniformMat4 (pf : Platform) (name : std_string) (matrix : mat4)
  : M Shader unit :=
  location ← get_location pf name;
  emit (glUniformMatrix4fv location 1 GL_FALSE (value_ptr4 matrix)).

Definition UploadUniformMat3 (pf : Platform) (name : std_string) (matrix : mat3)
  : M Shader unit :=
  location ← get_location pf name;
  emit (glUniformMatrix3fv location 1 GL_FALSE (value_ptr3 matrix)).

Definition UploadUniformFloat4 (pf : Platform) (name : std_string) (vector : vec4)
  : M Shader unit :=
  location ← get_location pf name;
  emit (glUniform4f location (x4 vector) (y4 vector) (z4 vector) (w4 vector)).

Definition UploadUniformFloat3 (pf : Platform) (name : std_string) (vector : vec3)
  : M Shader unit :=
  location ← get_location pf name;
  emit (glUniform3f location (x3 vector) (y3 vector) (z3 vector)).

Definition UploadUniformFloat2 (pf : Platform) (name : std_string) (vector : vec2)
  : M Shader unit :=
  location ← get_location pf name;
  emit (glUniform2f location (x2 vector) (y2 vector)).

Definition UploadUniformFloat (pf : Platform) (name : std_string) (value : GLfloat)
  : M Shader unit :=
  location ← get_location pf name;
  emit (glUniform1f location value).

Definition UploadUniformInt4 (pf : Platform) (name : std_string) (vector : ivec4)
  : M Shader unit :=
  location ← get_location pf name;
  emit (glUniform4i location (ix4 vector) (iy4 vector) (iz4 vector) (iw4 vector)).

Definition UploadUniformInt3 (pf : Platform) (name : std_string) (vector : ivec3)
  : M Shader unit :=
  location ← get_location pf name;
  emit (glUniform3i location (ix3 vector) (iy3 vector) (iz3 vector)).

Definition UploadUniformInt2 (pf : Platform) (name : std_string) (vector : ivec2)
  : M Shader unit :=
  location ← get_location pf name;
  emit (glUniform2i location (ix2 vector) (iy2 vector)).

Definition UploadUniformInt (pf : Platform) (name : std_string) (value : GLint)
  : M Shader unit :=
  location ← get_location pf name;
  emit (glUniform1i location value).

Definition UploadUniformBool (pf : Platform) (name : std_string) (value : bool)
  : M Shader unit :=
  location ← get_location pf name;
  emit (glUniform1i location (if value then 1 else 0)).

Definition SetMat4 := UploadUniformMat4.
Definition SetFloat4 := UploadUniformFloat4.
Definition SetFloat3 := UploadUniformFloat3.
Definition SetFloat := UploadUniformFloat.
Definition SetInt := UploadUniformInt.

(** Every typed setter of the class, with its value. *)
Inductive upload :=
| CallSetMat4 (value : mat4)
| CallSetFloat4 (value : vec4)
| CallSetFloat3 (value : vec3)
| CallSetFloat (value : GLfloat)
| CallSetInt (value : GLint)
| CallUploadUniformMat4 (matrix : mat4)
| CallUploadUniformMat3 (matrix : mat3)
| CallUploadUniformFloat4 (vector : vec4)
| CallUploadUniformFloat3 (vector : vec3)
| CallUploadUniformFloat2 (vector : vec2)
| CallUploadUniformFloat (value : GLfloat)
| CallUploadUniformInt4 (vector : ivec4)
| CallUploadUniformInt3 (vector : ivec3)
| CallUploadUniformInt2 (vector : ivec2)
| CallUploadUniformInt (value : GLint)
| CallUploadUniformBool (value : bool).

Definition call_upload (pf : Platform) (name : std_string) (u : upload) : M Shader unit :=
  match u with
  | CallSetMat4 v => SetMat4 pf name v
  | CallSetFloat4 v => SetFloat4 pf name v
  | CallSetFloat3 v => SetFloat3 pf name v
  | CallSetFloat v => SetFloat pf name v
  | CallSetInt v => SetInt pf name v
  | CallUploadUniformMat4 v => UploadUniformMat4 pf name v
  | CallUploadUniformMat3 v => UploadUniformMat3 pf name v
  | CallUploadUniformFloat4 v => UploadUniformFloat4 pf name v
  | CallUploadUniformFloat3 v => UploadUniformFloat3 pf name v
  | CallUploadUniformFloat2 v => UploadUniformFloat2 pf name v
  | CallUploadUniformFloat v => UploadUniformFloat pf name v
  | CallUploadUniformInt4 v => UploadUniformInt4 pf name v
  | CallUploadUniformInt3 v => UploadUniformInt3 pf name v
  | CallUploadUniformInt2 v => UploadUniformInt2 pf name v
  | CallUploadUniformInt v => UploadUniformInt pf name v
  | CallUploadUniformBool v => UploadUniformBool pf name v
  end.

(** The location each [glUniform*] call was given. *)
Definition uniform_push_location (e : event) : option GLint :=
  match e with
  | glUniformMatrix4fv l _ _ _ | glUniformMatrix3fv l _ _ _
  | glUniform4f l _ _ _ _ | glUniform3f l _ _ _ | glUniform2f l _ _ | glUniform1f l _
  | glUniform4i l _ _ _ _ | glUniform3i l _ _ _ | glUniform2i l _ _ | glUniform1i l _ =>
      Some l
  | _ => None
  end.

Definition is_diagnostic (e : event) : bool :=
  match e with HZ_CORE_ERROR _ => true | _ => false end.

(** ** OpenGLVertexArray.cpp *)

(** The enumeration is declared in Buffer.h; [None_] stands for a value the
    [switch] below has no case for. *)
Inductive ShaderDataType :=
| None_ | Float | Float2 | Float3 | Float4 | Mat3 | Mat4
| Int | Int2 | Int3 | Int4 | Bool.

(** [static GLenum ShaderDataTypeToOpenGLBaseType(ShaderDataType type)] *)
Definition ShaderDataTypeToOpenGLBaseType (asserts : bool) (type : ShaderDataType)
  : outcome GLenum :=
  match type with
  | Float => Returns GL_FLOAT
  | Float2 => Returns GL_FLOAT
  | Float3 => Returns GL_FLOAT
  | Float4 => Returns GL_FLOAT
  | Mat3 => Returns GL_FLOAT
  | Mat4 => Returns GL_FLOAT
  | Int => Returns GL_INT
  | Int2 => Returns GL_INT
  | Int3 => Returns GL_INT
  | Int4 => Returns GL_INT
  | Bool => Returns GL_BOOL
  | None_ =>
      HZ_CORE_ASSERT asserts false "Unknown ShaderDataType!";;
      Returns 0
  end.

(** A layout element as [AddVertexBuffer] reads it; [GetComponentCount] is
    a member function of Buffer.h, carried here as the value it returns. *)
Record BufferElement := {
  Type_ : ShaderDataType;
  Normalized : bool;
  Offset : Z;
  GetComponentCount : Z;
}.

Record BufferLayout := {
  GetElements : list BufferElement;
  GetStride : Z;
}.

(** A vertex buffer: the buffer object its [Bind()] binds, and its layout. *)
Record VertexBuffer := {
  vb_RendererID : GLuint;
  GetLayout : BufferLayout;
}.

(** The members of [OpenGLVertexArray] that [AddVertexBuffer] uses;
    [va_RendererID] is its [m_RendererID], and [m_VertexBufferIndex] is an
    unsigned 32-bit counter, as the attribute index it is passed for. *)
Record VertexArray := {
  va_RendererID : GLuint;
  m_VertexBufferIndex : Z;
  m_VertexBuffers : list VertexBuffer;
}.

Definition uint32 (z : Z) : Z := z mod 2 ^ 32.

(** The body of [for (const auto& element : layout)]. *)
Definition AddVertexBuffer_element (pf : Platform) (layout : BufferLayout)
    (element : BufferElement) : M VertexArray unit :=
  self ← this;
  emit (glEnableVertexAttribArray (m_VertexBufferIndex self));;
  type ← lift (ShaderDataTypeToOpenGLBaseType (HZ_ENABLE_ASSERTS pf) (Type_ element));
  emit (glVertexAttribPointer (m_VertexBufferIndex self)
          (GetComponentCount element) type
          (if Normalized element then GL_TRUE else GL_FALSE)
          (GetStride layout) (Offset element));;
  store {| va_RendererID := va_RendererID self;
           m_VertexBufferIndex := uint32 (m_VertexBufferIndex self + 1);
           m_VertexBuffers := m_VertexBuffers self |}.

Fixpoint AddVertexBuffer_elements (pf : Platform) (layout : BufferLayout)
    (elements : list BufferElement) : M VertexArray unit :=
  match elements with
  | [] => mret tt
  | element :: rest =>
      AddVertexBuffer_element pf layout element;;
      AddVertexBuffer_elements pf layout rest
  end.

(** [void OpenGLVertexArray::AddVertexBuffer(const Ref<VertexBuffer>& vertexBuffer)] *)
Definition AddVertexBuffer (pf : Platform) (vertexBuffer : VertexBuffer)
  : M VertexArray unit :=
  lift (HZ_CORE_ASSERT (HZ_ENABLE_ASSERTS pf)
          (negb (Z.of_nat (length (GetElements (GetLayout vertexBuffer))) =? 0))
          "Vertex Buffer has not layout!");;
  self ← this;
  emit (glBindVertexArray (va_RendererID self));;
  emit (VertexBuffer_Bind (vb_RendererID vertexBuffer));;
  let layout := GetLayout vertexBuffer in
  AddVertexBuffer_elements pf layout (GetElements layout);;
  self ← this;
  store {| va_RendererID := va_RendererID self;
           m_VertexBufferIndex := m_VertexBufferIndex self;
           m_VertexBuffers := m_VertexBuffers self ++ [vertexBuffer] |}.

(** A sequence of [AddVertexBuffer] calls on one array. *)
Fixpoint AddVertexBuffers (pf : Platform) (buffers : list VertexBuffer)
  : M VertexArray unit :=
  match buffers with
  | [] => mret tt
  | vb :: rest => AddVertexBuffer pf vb;; AddVertexBuffers pf rest
  end.

(** The attribute slots bound by a run of events: one per
    [glVertexAttribPointer]. *)
Definition slot_of (e : event) : option Z :=
  match e with
  | glVertexAttribPointer index _ _ _ _ _ => Some index
  | _ => None
  end.
Definition slots (tr : list event) : list Z := omap slot_of tr.

(** The slots bound by each call of a sequence of [AddVertexBuffer] calls,
    read off the events each call adds. *)
Fixpoint slots_per_call (pf : Platform) (buffers : list VertexBuffer)
    (self : VertexArray) (tr : list event) : list (list Z) :=
  match buffers with
  | [] => []
  | vb :: rest =>
      let r := AddVertexBuffer pf vb self tr in
      slots (drop (length tr) (events_of r))
        :: slots_per_call pf rest (object_of r) (events_of r)
  end.

Definition layout_size (vb : VertexBuffer) : Z :=
  Z.of_nat (length (GetElements (GetLayout vb))).

(** A layout [AddVertexBuffer] accepts: it has an element, and every element
    has a type the [switch] of [ShaderDataTypeToOpenGLBaseType] knows. *)
Definition layout_ok (vb : VertexBuffer) : Prop :=
  GetElements (GetLayout vb) <> [] /\
  Forall (fun e => Type_ e <> None_) (GetElements (GetLayout vb)).

(** Consecutive ranges of [k1], [k2], ... slots from [c] on. *)
Fixpoint fresh_ranges (c : Z) (ks : list Z) : list (list Z) :=
  match ks with
  | [] => []
  | k :: ks' => seqZ c k :: fresh_ranges (c + k) ks'
  end.

Definition sumZ (ks : list Z) : Z := foldr Z.add 0 ks.

(** ** A platform to run examples on *)

(** Names are handed out in the order of the calls; the compiler rejects
    the texts listed in [rejected]; the linker answers [links]; the map is
    visited in the order of [map_to_list]. *)
Definition example_platform (asserts : bool)
    (files : std_string -> option std_string)
    (rejected : list std_string) (links : bool)
    (location : std_string -> GLint) : Platform :=
  {| HZ_ENABLE_ASSERTS := asserts;
     file_contents := files;
     gen_name := fun tr => Z.of_nat (length tr) + 1;
     glGetShaderiv_ret := fun _ text pname =>
       if pname =? GL_COMPILE_STATUS
       then (if bool_decide (text ∈ rejected) then GL_FALSE else GL_TRUE)
       else 6;
     glGetShaderInfoLog_ret := fun _ _ => lit "error";
     glGetProgramiv_ret := fun _ pname =>
       if pname =? GL_LINK_STATUS
       then (if links then GL_TRUE else GL_FALSE)
       else 6;
     glGetProgramInfoLog_ret := fun _ => lit "error";
     glGetUniformLocation_ret := fun _ name => location name;
     iteration_order := map_to_list;
     indeterminate := (0, 0) |}.


(** ** Conditions on the platform and on a compile attempt *)

(** The map is visited entry by entry, each once, in some order. *)
Definition visits_each_entry_once (pf : Platform) : Prop :=
  forall m : gmap Z std_string, iteration_order pf m ≡ₚ map_to_list m.

(** Every stage of the map passes the compiler. *)
Definition all_stages_compile (pf : Platform) (m : gmap Z std_string) : Prop :=
  forall ty text, m !! ty = Some text ->
    glGetShaderiv_ret pf ty text GL_COMPILE_STATUS <> GL_FALSE.

(** The events the stage loop issues for a stage that compiles. *)
Definition is_stage_setup (e : event) : bool :=
  match e with
  | glCreateShader _ _ | glShaderSource _ _ | glCompileShader _
  | glGetShaderiv _ _ _ | glAttachShader _ _ => true
  | _ => false
  end.

(** ** The name of a shader file, said in words *)

(** Where the name starts: after the last separator, or at the beginning. *)
Definition after_last_separator (filepath : std_string) : nat :=
  match str.last_where (str.is_one_of (lit "/\")) filepath with
  | Some k => S k
  | None => 0%nat
  end.

(** The characters strictly between the last separator and the last ['.'],
    from the beginning without a separator, to the end without a ['.']. *)
Definition name_between (filepath : std_string) : std_string :=
  let start := after_last_separator filepath in
  let stop := match str.last_where (Ascii.eqb ".") filepath with
              | Some d => d
              | None => length filepath
              end in
  take (stop - start) (drop start filepath).

(** The same, except that a last ['.'] that comes before the last separator
    does not count: the name then runs to the end of the path. *)
Definition file_stem (filepath : std_string) : std_string :=
  let start := after_last_separator filepath in
  let stop := match str.last_where (Ascii.eqb ".") filepath with
              | Some d => if (start <=? d)%nat then d else length filepath
              | None => length filepath
              end in
  take (stop - start) (drop start filepath).

(** ** Example inputs *)

(** A shader file with a vertex and a fragment stage. *)
Definition example_source : std_string :=
  lit "#type vertex" ++ [LF] ++ lit "void main(){}" ++ [LF] ++
  lit "#type fragment" ++ [CR; LF] ++ lit "#version 330 core" ++ [LF].

(** A file system that holds [example_source] under every name in [paths]. *)
Definition example_files (paths : list std_string) (filepath : std_string)
  : option std_string :=
  if bool_decide (filepath ∈ paths) then Some example_source else None.

Definition fresh_shader : Shader := {| m_RendererID := 0; m_Name := [] |}.

(** ** Well-formed shader files *)

Definition is_line_break (c : ascii) : bool := str.is_one_of line_breaks c.

(** The marker token occurs nowhere in [s]. *)
Definition marker_free (s : std_string) : Prop :=
  forall i : nat, str.starts_with typeToken (drop i s) = false.

Definition recognized (name : std_string) : Prop :=
  name = lit "vertex" \/ name = lit "fragment" \/ name = lit "pixel".

(** The stage kind a recognized name stands for. *)
Definition stage_kind (name : std_string) : GLenum :=
  if bool_decide (name = lit "vertex") then GL_VERTEX_SHADER else GL_FRAGMENT_SHADER.

(** A stage block: the marker line [#type <name>], the line breaks that end
    it, and the stage text up to the next marker or the end of the input. *)
Record block := {
  stage_name : std_string;
  breaks : std_string;
  text : std_string;
}.

Definition marker_line (name : std_string) : std_string :=
  typeToken ++ lit " " ++ name.

Definition block_source (b : block) : std_string :=
  marker_line (stage_name b) ++ breaks b ++ text b.

Definition block_ok (b : block) : Prop :=
  recognized (stage_name b) /\
  breaks b <> [] /\
  Forall (fun c => is_line_break c = true) (breaks b) /\
  str.head_in line_breaks (text b) = false /\
  marker_free (text b).

(** A file of two stage blocks of different kinds, after a preamble without
    marker; the last block has text. *)
Definition two_stage_source (pre : std_string) (b1 b2 : block) : std_string :=
  pre ++ block_source b1 ++ block_source b2.

Definition well_formed_two_stage (pre : std_string) (b1 b2 : block) : Prop :=
  marker_free pre /\
  block_ok b1 /\ block_ok b2 /\
  text b2 <> [] /\
  stage_kind (stage_name b1) <> stage_kind (stage_name b2) /\
  str.fits (two_stage_source pre b1 b2).

(** The ways in which the code itself stops: a tripped assertion or an
    exception. *)
Definition is_failure (h : halt) : bool :=
  match h with
  | AssertionFailed _ | Throws _ => true
  | Undefined | OutOfFuel => false
  end.

(** A file whose last content is a marker line: [pre], then the marker
    token and the rest [line] of its line, then nothing but the line breaks
    [lbs] (possibly none). *)
Definition marker_line_last (pre line lbs : std_string) : std_string :=
  pre ++ (typeToken ++ line) ++ lbs.

Definition marker_line_last_ok (line lbs : std_string) : Prop :=
  Forall (fun c => is_line_break c = false) line /\
  Forall (fun c => is_line_break c = true) lbs.

(** ** Markers and their stage-name arguments *)

(** The marker token stands at offset [p]. *)
Definition marker_at (source : std_string) (p : nat) : Prop :=
  str.starts_with typeToken (drop p source) = true.

(** The characters of [s] up to its first line break. *)
Fixpoint line_of (s : std_string) : std_string :=
  match s with
  | [] => []
  | c :: s' => if is_line_break c then [] else c :: line_of s'
  end.

(** What stands on the line of the marker at [p] after the token. *)
Definition rest_of_marker_line (source : std_string) (p : nat) : std_string :=
  line_of (drop (p + 5) source).

(** The stage-name argument of the marker at [p]: the rest of its line
    without the one character that separates it from the token. *)
Definition stage_name_argument (source : std_string) (p : nat) : std_string :=
  drop 1 (rest_of_marker_line source p).

(** The marker at [p] names a recognized stage, or its line ends right
    after the token. *)
Definition marker_ok (source : std_string) (p : nat) : Prop :=
  rest_of_marker_line source p = [] \/ recognized (stage_name_argument source p).

(** The two blocks of [example_source]. *)
Definition example_vertex_block : block :=
  {| stage_name := lit "vertex"; breaks := [LF];
     text := lit "void main(){}" ++ [LF] |}.
Definition example_fragment_block : block :=
  {| stage_name := lit "fragment"; breaks := [CR; LF];
     text := lit "#version 330 core" ++ [LF] |}.
(** A fragment block that is its marker line alone. *)
Definition example_marker_only_block : block :=
  {| stage_name := lit "fragment"; breaks := [LF]; text := [] |}.

(** Two vertex buffers, with layouts of two and of three elements. *)
Definition example_element (type : ShaderDataType) (count offset : Z) : BufferElement :=
  {| Type_ := type; Normalized := false; Offset := offset; GetComponentCount := count |}.
Definition example_buffer_2 : VertexBuffer :=
  {| vb_RendererID := 1;
     GetLayout := {| GetElements := [example_element Float3 3 0;
                                     example_element Float4 4 12];
                     GetStride := 28 |} |}.
Definition example_buffer_3 : VertexBuffer :=
  {| vb_RendererID := 2;
     GetLayout := {| GetElements := [example_element Float2 2 0;
                                     example_element Int 1 8;
                                     example_element Mat4 16 12];
                     GetStride := 76 |} |}.
Definition fresh_vertex_array : VertexArray :=
  {| va_RendererID := 1; m_VertexBufferIndex := 0; m_VertexBuffers := [] |}.

(** A stage map whose fragment stage the example compiler rejects. *)
Definition example_bad_fragment : gmap Z std_string :=
  <[GL_FRAGMENT_SHADER := lit "bad"]> (<[GL_VERTEX_SHADER := lit "ok"]> ∅).
Definition example_two_stages : gmap Z std_string :=
  <[GL_FRAGMENT_SHADER := lit "frag"]> (<[GL_VERTEX_SHADER := lit "vert"]> ∅).

(** Some stage of the map is rejected by the compiler. *)
Definition some_stage_fails (pf : Platform) (m : gmap Z std_string) : Prop :=
  exists ty text, m !! ty = Some text /\
    glGetShaderiv_ret pf ty text GL_COMPILE_STATUS = GL_FALSE.

(** Calls that concern the program object rather than a stage. *)
Definition is_program_call (e : event) : bool :=
  match e with
  | glLinkProgram _ | glGetProgramiv _ _ _ | glGetProgramInfoLog _ _ _
  | glDeleteProgram _ | glDetachShader _ _ | glUseProgram _ => true
  | _ => false
  end.

(** ** Files of any number of stage blocks *)

Definition blocks_source (bs : list block) : std_string :=
  concat (block_source <$> bs).

(** The blocks entered into a map one after the other: a later block
    replaces an earlier one of the same stage kind. *)
Definition blocks_map (bs : list block) (m : gmap Z std_string) : gmap Z std_string :=
  foldl (fun m b => <[stage_kind (stage_name b) := text b]> m) m bs.

Definition last_block_has_text (bs : list block) : Prop :=
  forall b, last bs = Some b -> text b <> [].

(** [s] is a contiguous piece of [source]. *)
Definition piece_of (s source : std_string) : Prop :=
  exists a b, source = a ++ s ++ b.

(** ** The rest of the shader object *)

(** [OpenGLShader::~OpenGLShader()] *)
Definition OpenGLShader_destructor : M Shader unit :=
  self ← this;
  emit (glDeleteProgram (m_RendererID self)).

(** More than two stages. *)
Definition example_three_stages : gmap Z std_string :=
  <[0 := lit "geom"]> example_two_stages.

(** The program the driver has active after a run of events: the one named
    by the last [glUseProgram]. *)
Definition active_program (tr : list event) : option GLuint :=
  foldl (fun cur e => match e with glUseProgram p => Some p | _ => cur end) None tr.

(** The map the constructor from sources hands to [Compile]. *)
Definition two_sources (vertexSrc fragmentSrc : std_string) : gmap Z std_string :=
  <[GL_FRAGMENT_SHADER := fragmentSrc]> (<[GL_VERTEX_SHADER := vertexSrc]> ∅).

(** The driver was handed [text] as the source of a new shader of kind
    [ty], compiled it and attached it to [program]. *)
Definition stage_built (program : GLuint) (ty : GLenum) (text : std_string)
    (tr : list event) : Prop :=
  exists id, glCreateShader ty id ∈ tr /\ glShaderSource id text ∈ tr /\
             glCompileShader id ∈ tr /\ glAttachShader program id ∈ tr.

(** ** The rest of the vertex-array binder *)

(** The two calls the element loop makes. *)
Definition is_attribute_call (e : event) : bool :=
  match e with
  | glEnableVertexAttribArray _ | glVertexAttribPointer _ _ _ _ _ _ => true
  | _ => false
  end.

(** An element the loop gets past: assertions are compiled out, or its type
    is one the [switch] knows. *)
Definition passes (asserts : bool) (e : BufferElement) : Prop :=
  asserts = false \/ Type_ e <> None_.

(** A vertex array whose counter stands at the last 32-bit value. *)
Definition example_full_vertex_array : VertexArray :=
  {| va_RendererID := 1; m_VertexBufferIndex := 2 ^ 32 - 1; m_VertexBuffers := [] |}.

(** A buffer without layout, and one whose second element has a type the
    [switch] does not know. *)
Definition example_buffer_0 : VertexBuffer :=
  {| vb_RendererID := 3; GetLayout := {| GetElements := []; GetStride := 0 |} |}.
Definition example_buffer_unknown : VertexBuffer :=
  {| vb_RendererID := 4;
     GetLayout := {| GetElements := [example_element Float3 3 0;
                                     example_element None_ 0 12;
                                     example_element Float2 2 12];
                     GetStride := 20 |} |}.

(** ** Paths *)

Definition is_separator (c : ascii) : bool := str.is_one_of (lit "/\") c.
Definition is_dot (c : ascii) : bool := Ascii.eqb "." c.

(** ** More example inputs *)

(** A second vertex block, for a file that gives the vertex stage twice. *)
Definition example_vertex_block_2 : block :=
  {| stage_name := lit "vertex"; breaks := [LF]; text := lit "// later" |}.

Definition example_blocks : list block :=
  [example_vertex_block; example_fragment_block; example_vertex_block_2].

(** The example driver: it compiles and links everything but the sources
    in [rejected]. *)
Definition example_driver (asserts : bool) (rejected : list std_string) : Platform :=
  example_platform asserts (example_files [lit "assets/Texture.glsl"]) rejected true
    (fun _ => 7).

(** ** Proof support *)

Create HintDb hazel discriminated.

#[local] Hint Unfold mbind mret M_bind M_ret emit history this store lift
  result_of object_of events_of : hazel.
#[local] Hint Unfold SetMat4 SetFloat4 SetFloat3 SetFloat SetInt
  UploadUniformMat4 UploadUniformMat3 UploadUniformFloat4 UploadUniformFloat3
  UploadUniformFloat2 UploadUniformFloat UploadUniformInt4 UploadUniformInt3
  UploadUniformInt2 UploadUniformInt UploadUniformBool get_location : hazel.

Create HintDb monad discriminated.
#[local] Hint Unfold mbind mret M_bind M_ret emit history this store lift
  result_of object_of events_of : monad.

(** Unfold the monad operations only. *)
Ltac step :=
  repeat autounfold with monad;
  cbn -[Z.opp Z.eqb Z.leb Z.pow Z.modulo PreProcess Compile name_of_filepath].

(** Unfold the monad and compute. *)
Ltac run := repeat autounfold with hazel; cbn -[Z.opp Z.eqb Z.leb Z.pow Z.modulo].


(** Reduce a bind of the outcome monad whose first part is known. *)
Ltac obind := unfold mbind; cbn [outcome_bind].
Tactic Notation "obind_in" hyp(H) := unfold mbind in H; cbn [outcome_bind] in H.

(** Membership in an explicit list of events: case analysis on a
    hypothesis, search for a goal. *)
Ltac split_in H :=
  repeat first
    [ apply elem_of_app in H as [H|H]
    | apply elem_of_cons in H as [H|H]
    | apply elem_of_nil in H; destruct H ].

Ltac find_in :=
  solve [ repeat first
            [ apply list_elem_of_here
            | apply list_elem_of_further
            | apply elem_of_app; right ] ].

(** ** [size_t] arithmetic *)

Lemma npos_value : str.npos = 18446744073709551615.
Proof. reflexivity. Qed.

Lemma add_small a b : 0 <= a + b < 2 ^ 64 -> str.add a b = a + b.
Proof. intros H. unfold str.add. apply Z.mod_small. exact H. Qed.

Lemma sub_small a b : 0 <= a - b < 2 ^ 64 -> str.sub a b = a - b.
Proof. intros H. unfold str.sub. apply Z.mod_small. exact H. Qed.

(** Subtracting the larger from the smaller wraps around. *)
Lemma sub_wrap a b : - 2 ^ 64 <= a - b < 0 -> str.sub a b = 2 ^ 64 + a - b.
Proof.
  intros H. unfold str.sub.
  rewrite <- (Z.mod_add (a - b) 1 (2 ^ 64)) by lia.
  rewrite Z.mod_small; lia.
Qed.

Lemma fits_lt s : str.fits s -> Z.of_nat (length s) < 18446744073709551615.
Proof. intros H. exact H. Qed.

Ltac size_t_simpl :=
  repeat first
    [ rewrite add_small by lia
    | rewrite sub_small by lia
    | rewrite sub_wrap by lia ].

(** ** Searching in strings *)

Section Search.
Implicit Types (P : std_string -> bool) (s a b : std_string) (c : ascii).

Lemma size_app a b : str.size (a ++ b) = str.size a + str.size b.
Proof. unfold str.size. rewrite length_app. lia. Qed.

Lemma size_nonneg s : 0 <= str.size s.
Proof. unfold str.size. lia. Qed.

Lemma first_where_here P s : P s = true -> str.first_where P s = Some 0%nat.
Proof. intros H. destruct s; cbn; rewrite H; reflexivity. Qed.

Lemma first_where_next P c s :
  P (c :: s) = false ->
  str.first_where P (c :: s) = S <$> str.first_where P s.
Proof. intros H. cbn. rewrite H. reflexivity. Qed.

(** What [first_where] finds: the first suffix that satisfies [P]. *)
Lemma first_where_Some P s k :
  str.first_where P s = Some k ->
  (k <= length s)%nat /\ P (drop k s) = true /\
  forall j, (j < k)%nat -> P (drop j s) = false.
Proof.
  revert k. induction s as [|c s IH]; intros k.
  - cbn. destruct (P []) eqn:E; [|discriminate]. intros [= <-].
    split; [reflexivity|]. split; [exact E|]. intros j Hj. lia.
  - destruct (P (c :: s)) eqn:E.
    + rewrite first_where_here by exact E. intros [= <-].
      split; [cbn; lia|]. split; [exact E|]. intros j Hj. lia.
    + rewrite first_where_next by exact E.
      destruct (str.first_where P s) as [k'|]; [|discriminate].
      intros [= <-]. destruct (IH k' eq_refl) as (Hle & Hk & Hlt).
      split; [cbn; lia|]. split; [exact Hk|].
      intros [|j] Hj; [exact E|]. cbn. apply Hlt. lia.
Qed.

Lemma first_where_None P s :
  str.first_where P s = None ->
  forall j, (j <= length s)%nat -> P (drop j s) = false.
Proof.
  induction s as [|c s IH].
  - cbn. destruct (P []) eqn:E; [discriminate|]. intros _ j Hj.
    rewrite drop_nil. exact E.
  - destruct (P (c :: s)) eqn:E.
    + rewrite first_where_here by exact E. discriminate.
    + rewrite first_where_next by exact E.
      destruct (str.first_where P s) as [k'|] eqn:E'; [discriminate|].
      intros _ [|j] Hj; [exact E|]. cbn. apply IH; [reflexivity|]. cbn in Hj. lia.
Qed.

(** Skipping a prefix in which no suffix satisfies [P]. *)
Lemma first_where_skip P a b :
  (forall j, (j < length a)%nat -> P (drop j (a ++ b)) = false) ->
  str.first_where P (a ++ b) =
    (fun k => (length a + k)%nat) <$> str.first_where P b.
Proof.
  induction a as [|c a IH]; intros H.
  - cbn. destruct (str.first_where P b); reflexivity.
  - cbn [app]. rewrite first_where_next by (apply (H 0%nat); cbn; lia).
    rewrite IH.
    + destruct (str.first_where P b); reflexivity.
    + intros j Hj. apply (H (S j)). cbn. lia.
Qed.

Lemma search_from_at P a b :
  str.search_from P (str.size a) (a ++ b) =
    match str.first_where P b with
    | Some k => str.size a + Z.of_nat k
    | None => str.npos
    end.
Proof.
  unfold str.search_from. rewrite size_app.
  pose proof (size_nonneg b).
  destruct (Z.ltb_spec (str.size a + str.size b) (str.size a)); [lia|].
  unfold str.size at 1. rewrite Nat2Z.id, drop_app_length. reflexivity.
Qed.

Lemma search_from_npos P s :
  str.fits s -> str.search_from P str.npos s = str.npos.
Proof.
  intros H. unfold str.search_from.
  destruct (Z.ltb_spec (str.size s) str.npos); [reflexivity|].
  unfold str.fits in H. lia.
Qed.

Lemma substr_at a b n :
  str.substr (a ++ b) (str.size a) n =
    Returns (take (Z.to_nat (Z.min n (str.size b))) b).
Proof.
  unfold str.substr. rewrite size_app.
  pose proof (size_nonneg b).
  destruct (Z.ltb_spec (str.size a + str.size b) (str.size a)); [lia|].
  unfold str.size at 4. rewrite Nat2Z.id, drop_app_length.
  do 3 f_equal. lia.
Qed.

Lemma head_in_skip chars a b :
  Forall (fun c => str.is_one_of chars c = false) a ->
  str.first_where (str.head_in chars) (a ++ b) =
    (fun k => (length a + k)%nat) <$> str.first_where (str.head_in chars) b.
Proof.
  intros H. apply first_where_skip. intros j Hj.
  rewrite drop_app_le by lia.
  destruct (drop j a) as [|c d] eqn:E.
  - apply (f_equal length) in E. rewrite length_drop in E. cbn in E. lia.
  - cbn. rewrite Forall_forall in H. apply H.
    rewrite <- (take_drop j a), E. apply elem_of_app. right.
    apply list_elem_of_here.
Qed.

Lemma head_not_in_skip chars a b :
  Forall (fun c => str.is_one_of chars c = true) a ->
  str.first_where (str.head_not_in chars) (a ++ b) =
    (fun k => (length a + k)%nat) <$> str.first_where (str.head_not_in chars) b.
Proof.
  intros H. apply first_where_skip. intros j Hj.
  rewrite drop_app_le by lia.
  destruct (drop j a) as [|c d] eqn:E.
  - apply (f_equal length) in E. rewrite length_drop in E. cbn in E. lia.
  - cbn. rewrite Forall_forall in H. rewrite H; [reflexivity|].
    rewrite <- (take_drop j a), E. apply elem_of_app. right.
    apply list_elem_of_here.
Qed.
End Search.

Section SearchFrom.
Implicit Types (P : std_string -> bool) (s : std_string).

(** A search that finds something finds the first suffix at or after
    [pos] that satisfies [P]. *)
Lemma search_from_found P pos s :
  str.fits s -> 0 <= pos ->
  str.search_from P pos s <> str.npos ->
  let r := str.search_from P pos s in
  pos <= r <= str.size s /\
  P (drop (Z.to_nat r) s) = true /\
  forall j, pos <= j < r -> P (drop (Z.to_nat j) s) = false.
Proof.
  intros Hfits Hpos Hfound r. subst r. revert Hfound.
  unfold str.search_from.
  destruct (Z.ltb_spec (str.size s) pos) as [|Hle]; [congruence|].
  destruct (str.first_where P (drop (Z.to_nat pos) s)) as [k|] eqn:E; [|congruence].
  intros _. apply first_where_Some in E as (Hk & HP & Hmin).
  rewrite length_drop in Hk. unfold str.size in *.
  rewrite drop_drop in HP.
  replace (Z.to_nat (pos + Z.of_nat k)) with (Z.to_nat pos + k)%nat by lia.
  split; [lia|]. split; [exact HP|].
  intros j Hj. specialize (Hmin (Z.to_nat j - Z.to_nat pos)%nat).
  rewrite drop_drop in Hmin.
  replace (Z.to_nat pos + (Z.to_nat j - Z.to_nat pos))%nat with (Z.to_nat j) in Hmin by lia.
  apply Hmin. lia.
Qed.

(** A search that finds nothing: no suffix from [pos] on satisfies [P]. *)
Lemma search_from_missing P pos s :
  0 <= pos <= str.size s ->
  str.search_from P pos s = str.npos ->
  str.fits s ->
  forall j, pos <= j <= str.size s -> P (drop (Z.to_nat j) s) = false.
Proof.
  intros Hpos. unfold str.search_from.
  destruct (Z.ltb_spec (str.size s) pos) as [|Hle]; [lia|].
  destruct (str.first_where P (drop (Z.to_nat pos) s)) as [k|] eqn:E.
  - intros H Hfits. apply first_where_Some in E as (Hk & _).
    rewrite length_drop in Hk. unfold str.fits, str.size in *. lia.
  - intros _ _ j Hj.
    pose proof (first_where_None _ _ E (Z.to_nat j - Z.to_nat pos)%nat) as H.
    rewrite length_drop, drop_drop in H.
    replace (Z.to_nat pos + (Z.to_nat j - Z.to_nat pos))%nat with (Z.to_nat j) in H
      by lia.
    apply H. unfold str.size in *. lia.
Qed.

Lemma head_in_not_in chars s :
  str.head_in chars s = true -> str.head_not_in chars s = true -> False.
Proof. destruct s; cbn; [discriminate|]. intros ->. discriminate. Qed.

Lemma substr_npos s n :
  str.fits s -> str.substr s str.npos n = Halts (Throws out_of_range).
Proof.
  intros H. unfold str.substr.
  destruct (Z.ltb_spec (str.size s) str.npos); [reflexivity|].
  unfold str.fits in H. lia.
Qed.
End SearchFrom.

(** ** The source splitter *)

Section Splitter.
Implicit Types (s a : std_string) (c : ascii) (b : block).

(** An occurrence of the marker that starts in [a] and reaches into what
    follows lies within [a], when what follows is empty or begins with a
    marker itself. *)
Lemma marker_not_astride d rest :
  d <> [] ->
  str.starts_with typeToken (d ++ typeToken ++ rest) = true ->
  str.starts_with typeToken d = true.
Proof.
  intros Hd H.
  destruct d as [|c1 [|c2 [|c3 [|c4 [|c5 d]]]]]; try congruence;
    cbn in H |- *; rewrite ?andb_false_r in H; try discriminate; exact H.
Qed.

Lemma marker_not_at_end d :
  str.starts_with typeToken (d ++ []) = true ->
  str.starts_with typeToken d = true.
Proof. rewrite app_nil_r. auto. Qed.

Lemma marker_free_before a after :
  marker_free a ->
  after = [] \/ (exists rest, after = typeToken ++ rest) ->
  forall j, (j < length a)%nat ->
    str.starts_with typeToken (drop j (a ++ after)) = false.
Proof.
  intros Hfree Hafter j Hj. rewrite drop_app_le by lia.
  destruct (str.starts_with typeToken (drop j a ++ after)) eqn:E; [|reflexivity].
  rewrite <- (Hfree j). symmetry.
  destruct Hafter as [->|[rest ->]].
  - apply marker_not_at_end, E.
  - apply marker_not_astride with rest; [|exact E].
    intros Hnil. apply (f_equal length) in Hnil.
    rewrite length_drop in Hnil. cbn in Hnil. lia.
Qed.

Lemma find_marker_after a after :
  marker_free a ->
  after = [] \/ (exists rest, after = typeToken ++ rest) ->
  str.first_where (str.starts_with typeToken) (a ++ after) =
    match after with [] => None | _ => Some (length a) end.
Proof.
  intros Hfree Hafter.
  rewrite first_where_skip by (apply marker_free_before; assumption).
  destruct Hafter as [->|[rest ->]]; [reflexivity|].
  cbn. rewrite Nat.add_0_r. reflexivity.
Qed.

Lemma recognized_kind asserts name :
  recognized name ->
  ShaderTypeFromString asserts name = Returns (stage_kind name).
Proof. intros [->|[->| ->]]; reflexivity. Qed.

Lemma recognized_no_line_break name :
  recognized name ->
  Forall (fun c => str.is_one_of line_breaks c = false) (marker_line name).
Proof. intros [->|[->| ->]]; repeat constructor. Qed.

Lemma recognized_size name : recognized name -> 0 < str.size name < 9.
Proof. intros [->|[->| ->]]; split; reflexivity. Qed.

Lemma marker_line_size name : str.size (marker_line name) = 6 + str.size name.
Proof.
  unfold marker_line. rewrite !size_app.
  change (str.size typeToken) with 5. change (str.size (lit " ")) with 1. lia.
Qed.

Lemma take_size_app a a' : take (Z.to_nat (str.size a)) (a ++ a') = a.
Proof. unfold str.size. rewrite Nat2Z.id. apply take_app_length. Qed.

(** One turn of the loop at the marker of a well-formed block [b] that is
    followed by the next marker or, if it has text, by the end of the
    input: the block's text is stored under its stage kind, and the loop
    goes on at the next marker or stops. *)
Lemma PreProcess_step_block asserts before b after m :
  block_ok b ->
  (after = [] /\ text b <> []) \/ (exists rest, after = typeToken ++ rest) ->
  str.fits (before ++ block_source b ++ after) ->
  PreProcess_step asserts (before ++ block_source b ++ after) (str.size before) m =
    Returns (match after with
             | [] => str.npos
             | _ => str.size (before ++ block_source b)
             end,
             <[stage_kind (stage_name b) := text b]> m).
Proof.
  intros (Hname & Hne & Hlbs & Hhead & Hfree) Hafter Hfits.
  destruct b as [name lbs body]. cbn [stage_name breaks text] in *.
  unfold block_source in *. cbn [stage_name breaks text] in *.
  remember (before ++ (marker_line name ++ lbs ++ body) ++ after) as src eqn:Esrc.
  assert (E0 : src = before ++ (marker_line name ++ lbs ++ body ++ after)).
  { rewrite Esrc, <- !app_assoc. reflexivity. }
  assert (E1 : src = (before ++ typeToken ++ lit " ") ++ (name ++ lbs ++ body ++ after)).
  { rewrite E0. unfold marker_line. rewrite <- !app_assoc. reflexivity. }
  assert (E2 : src = (before ++ marker_line name) ++ (lbs ++ body ++ after)).
  { rewrite E0, <- !app_assoc. reflexivity. }
  assert (E3 : src = (before ++ marker_line name ++ lbs) ++ (body ++ after)).
  { rewrite E0, <- !app_assoc. reflexivity. }
  pose proof (recognized_size name Hname) as Hnsize.
  pose proof (size_nonneg before) as Hb.
  pose proof (size_nonneg lbs) as Hl.
  pose proof (size_nonneg body) as Hbody.
  pose proof (size_nonneg after) as Hafter_size.
  assert (Hsize : str.size src =
                  str.size before + 6 + str.size name + str.size lbs
                  + str.size body + str.size after).
  { rewrite E0, !size_app, marker_line_size. lia. }
  apply fits_lt in Hfits. fold (str.size src) in Hfits.
  assert (Hlbs_pos : 0 < str.size lbs).
  { destruct lbs; [congruence | unfold str.size; cbn [length]; lia]. }
  (* end of the marker line *)
  assert (Heol : str.find_first_of line_breaks (str.size before) src =
                 str.size before + 6 + str.size name).
  { rewrite E0. unfold str.find_first_of. rewrite search_from_at.
    rewrite head_in_skip by (apply recognized_no_line_break, Hname).
    destruct lbs as [|c lbs']; [congruence|].
    rewrite first_where_here.
    - cbn [fmap option_fmap option_map]. fold (str.size (marker_line name)).
      rewrite Nat.add_0_r. fold (str.size (marker_line name)).
      rewrite marker_line_size. lia.
    - cbn. apply Forall_cons in Hlbs as [Hc _]. exact Hc. }
  (* the stage name *)
  assert (Htype : str.substr src (str.size before + 6) (str.size name) = Returns name).
  { rewrite E1. replace (str.size before + 6) with (str.size (before ++ typeToken ++ lit " "))
      by (rewrite !size_app; reflexivity).
    rewrite substr_at. f_equal.
    rewrite !size_app.
    replace (Z.min _ _) with (str.size name) by lia.
    apply take_size_app. }
  (* the first character of the stage text *)
  assert (Hstart : str.head_not_in line_breaks (body ++ after) = true).
  { destruct body as [|c body'].
    - destruct Hafter as [[_ Hbody']|[rest ->]]; [congruence | reflexivity].
    - cbn in Hhead |- *. fold (is_line_break c). unfold is_line_break.
      rewrite Hhead. reflexivity. }
  assert (Hnext : str.find_first_not_of line_breaks
                    (str.size before + 6 + str.size name) src =
                  str.size before + 6 + str.size name + str.size lbs).
  { rewrite E2.
    replace (str.size before + 6 + str.size name)
      with (str.size (before ++ marker_line name))
      by (rewrite size_app, marker_line_size; lia).
    unfold str.find_first_not_of. rewrite search_from_at.
    rewrite head_not_in_skip by exact Hlbs.
    rewrite first_where_here by exact Hstart.
    cbn [fmap option_fmap option_map]. rewrite Nat.add_0_r. reflexivity. }
  (* the next marker *)
  assert (Hpos : str.find typeToken
                    (str.size before + 6 + str.size name + str.size lbs) src =
                 match after with
                 | [] => str.npos
                 | _ => str.size before + 6 + str.size name + str.size lbs
                        + str.size body
                 end).
  { rewrite E3.
    replace (str.size before + 6 + str.size name + str.size lbs)
      with (str.size (before ++ marker_line name ++ lbs))
      by (rewrite !size_app, marker_line_size; lia).
    unfold str.find. rewrite search_from_at.
    rewrite find_marker_after; [|exact Hfree|].
    - destruct after; reflexivity.
    - destruct Hafter as [[-> _]|H]; [left; reflexivity | right; exact H]. }
  (* the stage text *)
  assert (Htext : forall n, str.size body <= n ->
                            (after = [] \/ n = str.size body) ->
            str.substr src (str.size before + 6 + str.size name + str.size lbs) n
            = Returns body).
  { intros n Hn Hcase. rewrite E3.
    replace (str.size before + 6 + str.size name + str.size lbs)
      with (str.size (before ++ marker_line name ++ lbs))
      by (rewrite !size_app, marker_line_size; lia).
    rewrite substr_at. f_equal. rewrite size_app.
    destruct Hcase as [-> | ->].
    - rewrite app_nil_r. apply firstn_all2. unfold str.size in *. cbn [length]. lia.
    - replace (Z.min _ _) with (str.size body) by lia. apply take_size_app. }
  unfold PreProcess_step.
  rewrite Heol.
  replace (str.size before + 6 + str.size name =? str.npos) with false
    by (symmetry; apply Z.eqb_neq; rewrite npos_value; lia).
  cbn [negb HZ_CORE_ASSERT]. unfold mbind at 1. cbn [outcome_bind].
  change typeTokenLength with 5.
  rewrite (add_small (str.size before) 5) by lia.
  rewrite (add_small (str.size before + 5) 1) by lia.
  replace (str.size before + 5 + 1) with (str.size before + 6) by lia.
  rewrite (sub_small (str.size before + 6 + str.size name)) by lia.
  replace (str.size before + 6 + str.size name - (str.size before + 6))
    with (str.size name) by lia.
  rewrite Htype. unfold mbind at 1. cbn [outcome_bind].
  rewrite Hnext, Hpos.
  replace (str.size before + 6 + str.size name + str.size lbs =? str.npos) with false
    by (symmetry; apply Z.eqb_neq; rewrite npos_value; lia).
  rewrite Htext.
  - unfold mbind at 1. cbn [outcome_bind].
    rewrite (recognized_kind asserts name Hname).
    unfold mbind. cbn [outcome_bind]. do 2 f_equal.
    destruct after; [reflexivity|].
    rewrite !size_app, marker_line_size. lia.
  - destruct after.
    + rewrite sub_small by (rewrite npos_value; lia). rewrite npos_value. 
      unfold str.size in Hsize at 6. cbn [length] in Hsize. lia.
    + rewrite sub_small by lia. lia.
  - destruct after; [left; reflexivity|right].
    rewrite sub_small by lia. lia.
Qed.

Lemma PreProcess_loop_done fuel asserts source m :
  PreProcess_loop fuel asserts source str.npos m = Returns m.
Proof. destruct fuel; reflexivity. Qed.

Lemma PreProcess_loop_turn fuel asserts source pos m :
  pos <> str.npos ->
  PreProcess_loop (S fuel) asserts source pos m =
    (r ← PreProcess_step asserts source pos m;
     PreProcess_loop fuel asserts source r.1 r.2).
Proof.
  intros H. cbn [PreProcess_loop].
  destruct (Z.eqb_spec pos str.npos); [contradiction | reflexivity].
Qed.

Lemma find_first_marker pre rest :
  marker_free pre ->
  str.find typeToken 0 (pre ++ typeToken ++ rest) = str.size pre.
Proof.
  intros Hfree. unfold str.find.
  change 0 with (str.size []).
  change (pre ++ typeToken ++ rest) with ([] ++ (pre ++ typeToken ++ rest)).
  rewrite search_from_at, find_marker_after; [reflexivity | exact Hfree |].
  right. exists rest. reflexivity.
Qed.

Lemma block_source_marker b :
  exists rest, block_source b = typeToken ++ rest.
Proof.
  unfold block_source, marker_line. rewrite <- !app_assoc. eexists. reflexivity.
Qed.

Lemma stage_kind_cases name :
  stage_kind name = GL_VERTEX_SHADER \/ stage_kind name = GL_FRAGMENT_SHADER.
Proof. unfold stage_kind. destruct (bool_decide _); auto. Qed.

(** X28: a well-formed file of two stage blocks of different kinds, the
    second of which has text, is split into exactly two entries, one for
    each stage kind; each entry holds the text of its block, that is the
    input from the first character after the line breaks that end the
    marker line up to the next marker or the end of the input. *)
Theorem PreProcess_two_stages asserts pre b1 b2 :
  well_formed_two_stage pre b1 b2 ->
  exists m : gmap Z std_string,
    PreProcess asserts (two_stage_source pre b1 b2) = Returns m /\
    m !! stage_kind (stage_name b1) = Some (text b1) /\
    m !! stage_kind (stage_name b2) = Some (text b2) /\
    size m = 2%nat /\
    dom m = {[GL_VERTEX_SHADER; GL_FRAGMENT_SHADER]}.
Proof.
  intros (Hpre & Hb1 & Hb2 & Htext & Hkinds & Hfits).
  exists (<[stage_kind (stage_name b2) := text b2]>
            (<[stage_kind (stage_name b1) := text b1]> ∅)).
  split; [|split; [|split; [|split]]].
  - unfold PreProcess, two_stage_source in *.
    destruct (block_source_marker b1) as [rest1 E1].
    destruct (block_source_marker b2) as [rest2 E2].
    pose proof (fits_lt _ Hfits) as Hlt.
    rewrite !length_app in Hlt.
    assert (Hlen2 : (0 < length (block_source b2))%nat).
    { rewrite E2, length_app. cbn. lia. }
    (* the first marker *)
    replace (str.find typeToken 0 (pre ++ block_source b1 ++ block_source b2))
      with (str.size pre)
      by (rewrite E1, <- app_assoc; symmetry; apply find_first_marker, Hpre).
    rewrite PreProcess_loop_turn
      by (rewrite npos_value; unfold str.size; lia).
    rewrite PreProcess_step_block;
      [| exact Hb1 | right; exact (block_source_marker b2) | exact Hfits ].
    unfold mbind at 1. cbn [outcome_bind fst snd].
    replace (match block_source b2 with
             | [] => str.npos
             | _ => str.size (pre ++ block_source b1)
             end) with (str.size (pre ++ block_source b1))
      by (rewrite E2; reflexivity).
    (* the second marker *)
    destruct (length (pre ++ block_source b1 ++ block_source b2)) as [|fuel] eqn:Efuel.
    { rewrite !length_app in Efuel. lia. }
    rewrite PreProcess_loop_turn
      by (rewrite npos_value; unfold str.size; rewrite length_app; lia).
    replace (pre ++ block_source b1 ++ block_source b2)
      with ((pre ++ block_source b1) ++ block_source b2 ++ [])
      by (rewrite app_nil_r, <- app_assoc; reflexivity).
    rewrite PreProcess_step_block; [| exact Hb2 | left; auto |].
    + unfold mbind. cbn [outcome_bind fst snd]. apply PreProcess_loop_done.
    + rewrite app_nil_r, <- app_assoc. exact Hfits.
  - rewrite lookup_insert_ne by auto. apply lookup_insert_eq.
  - apply lookup_insert_eq.
  - rewrite map_size_insert_None.
    + rewrite map_size_insert_None by apply lookup_empty. reflexivity.
    + rewrite lookup_insert_ne by auto. apply lookup_empty.
  - rewrite !dom_insert_L, dom_empty_L.
    destruct (stage_kind_cases (stage_name b1)) as [K1|K1],
             (stage_kind_cases (stage_name b2)) as [K2|K2];
      rewrite K1, K2 in *; try congruence; set_solver.
Qed.

(** *** The loop always comes to an end *)

Lemma substr_halts s pos n h :
  str.substr s pos n = Halts h -> is_failure h = true.
Proof.
  unfold str.substr. destruct (str.size s <? pos); [|discriminate].
  intros [= <-]. reflexivity.
Qed.

Lemma ShaderTypeFromString_halts asserts type h :
  ShaderTypeFromString asserts type = Halts h -> is_failure h = true.
Proof.
  unfold ShaderTypeFromString.
  destruct (std_string_eqb type (lit "vertex")); [discriminate|].
  destruct (_ || _); [discriminate|].
  destruct asserts; cbn; [|discriminate]. intros [= <-]. reflexivity.
Qed.

Lemma PreProcess_step_halts asserts source pos m h :
  PreProcess_step asserts source pos m = Halts h -> is_failure h = true.
Proof.
  unfold PreProcess_step.
  destruct (HZ_CORE_ASSERT asserts _ _) as [[]|h0] eqn:Ea; obind.
  - destruct (str.substr source (str.add _ _) _) as [type|h1] eqn:E1; obind;
      [|intros [= <-]; eapply substr_halts, E1].
    destruct (str.substr source (str.find_first_not_of _ _ _) _)
      as [text|h2] eqn:E2; obind;
      [|intros [= <-]; eapply substr_halts, E2].
    destruct (ShaderTypeFromString asserts type) as [key|h3] eqn:E3; obind;
      [discriminate|intros [= <-]; eapply ShaderTypeFromString_halts, E3].
  - intros [= <-]. revert Ea. unfold HZ_CORE_ASSERT.
    destruct (negb _); [discriminate|]. destruct asserts; [|discriminate].
    intros [= <-]. reflexivity.
Qed.

(** What a turn that completes has found: the end of the marker line, the
    first character after its line breaks, and the next marker. *)
Lemma PreProcess_step_returns asserts source pos m pos' m' :
  str.fits source -> 0 <= pos ->
  PreProcess_step asserts source pos m = Returns (pos', m') ->
  let eol := str.find_first_of line_breaks pos source in
  let nextLinePos := str.find_first_not_of line_breaks eol source in
  eol <> str.npos /\ nextLinePos <> str.npos /\
  pos <= eol /\ eol < nextLinePos /\ nextLinePos <= str.size source /\
  pos' = str.find typeToken nextLinePos source /\
  exists type,
    str.substr source (str.add (str.add pos typeTokenLength) 1)
      (str.sub eol (str.add (str.add pos typeTokenLength) 1)) = Returns type /\
    exists key, ShaderTypeFromString asserts type = Returns key.
Proof.
  intros Hfits Hpos H. cbv zeta. unfold PreProcess_step in H.
  set (eol := str.find_first_of line_breaks pos source) in *.
  set (nextLinePos := str.find_first_not_of line_breaks eol source) in *.
  destruct (HZ_CORE_ASSERT asserts _ _) as [[]|h0] eqn:Ea; [|discriminate].
  obind_in H.
  destruct (str.substr source (str.add _ _) _) as [type|h1] eqn:E1; [|discriminate].
  obind_in H.
  assert (Hnext : nextLinePos <> str.npos).
  { intros Hn. rewrite Hn in H. rewrite substr_npos in H by exact Hfits.
    discriminate. }
  assert (Heol : eol <> str.npos).
  { intros He. apply Hnext. subst nextLinePos. rewrite He.
    apply search_from_npos, Hfits. }
  destruct (search_from_found _ pos source Hfits Hpos Heol) as (Hrange & Hlb & _).
  fold (str.find_first_of line_breaks pos source) in Hrange, Hlb. fold eol in Hrange, Hlb.
  destruct (search_from_found _ eol source Hfits ltac:(lia) Hnext) as (Hrange' & Hnlb & _).
  fold (str.find_first_not_of line_breaks eol source) in Hrange', Hnlb.
  fold nextLinePos in Hrange', Hnlb.
  assert (eol <> nextLinePos).
  { intros Heq. rewrite <- Heq in Hnlb. eapply head_in_not_in; eassumption. }
  destruct (str.substr source nextLinePos _) as [text0|h2]; [|discriminate].
  obind_in H.
  destruct (ShaderTypeFromString asserts type) as [key|h3] eqn:E3; [|discriminate].
  obind_in H. injection H as <- <-.
  repeat split; try assumption; try lia.
  exists type. split; [reflexivity|]. exists key. exact E3.
Qed.

Lemma find_range source pos :
  str.fits source -> 0 <= pos ->
  let r := str.find typeToken pos source in
  r = str.npos \/ (pos <= r <= str.size source /\
                    str.starts_with typeToken (drop (Z.to_nat r) source) = true).
Proof.
  intros Hfits Hpos r.
  destruct (Z.eq_dec r str.npos) as [|Hr]; [left; assumption|right].
  destruct (search_from_found _ pos source Hfits Hpos Hr) as (? & ? & _). auto.
Qed.

Lemma PreProcess_loop_total asserts source :
  str.fits source ->
  forall fuel pos m,
    pos = str.npos \/ (0 <= pos <= str.size source) ->
    str.size source - pos < Z.of_nat fuel ->
    match PreProcess_loop fuel asserts source pos m with
    | Returns _ => True
    | Halts h => is_failure h = true
    end.
Proof.
  intros Hfits. induction fuel as [|fuel IH]; intros pos m Hpos Hfuel.
  - destruct Hpos as [->|Hpos]; [exact I | lia].
  - destruct (Z.eq_dec pos str.npos) as [->|Hne].
    { rewrite PreProcess_loop_done. exact I. }
    destruct Hpos as [|Hpos]; [contradiction|].
    rewrite PreProcess_loop_turn by exact Hne.
    destruct (PreProcess_step asserts source pos m) as [[pos' m']|h] eqn:E.
    + obind. cbn [fst snd].
      destruct (PreProcess_step_returns _ _ _ _ _ _ Hfits (proj1 Hpos) E)
        as (_ & _ & H1 & H2 & H3 & -> & _).
      apply IH.
      * destruct (find_range source
                    (str.find_first_not_of line_breaks
                       (str.find_first_of line_breaks pos source) source)
                    Hfits ltac:(lia)) as [->|[Hr _]]; [left; reflexivity | right; lia].
      * destruct (find_range source
                    (str.find_first_not_of line_breaks
                       (str.find_first_of line_breaks pos source) source)
                    Hfits ltac:(lia)) as [->|[Hr _]].
        -- rewrite npos_value. apply fits_lt in Hfits. unfold str.size in *. lia.
        -- lia.
    + obind. eapply PreProcess_step_halts, E.
Qed.

(** The splitter returns a map or stops on a failed assertion or an
    exception; the bound on the loop is never what ends it. *)
Lemma PreProcess_total asserts source :
  str.fits source ->
  match PreProcess asserts source with
  | Returns _ => True
  | Halts h => is_failure h = true
  end.
Proof.
  intros Hfits. unfold PreProcess. apply PreProcess_loop_total; [exact Hfits| |].
  - destruct (find_range source 0 Hfits ltac:(lia)) as [->|[Hr _]]; auto.
  - destruct (find_range source 0 Hfits ltac:(lia)) as [->|[Hr _]].
    + rewrite npos_value. apply fits_lt in Hfits. unfold str.size in *. lia.
    + unfold str.size in *. lia.
Qed.

(** *** A marker line at the end of the input *)

Lemma head_in_drop chars s j :
  str.head_in chars (drop j s) = from_option (str.is_one_of chars) false (s !! j).
Proof.
  revert j. induction s as [|c s IH]; intros [|j]; cbn; try reflexivity. apply IH.
Qed.

Lemma head_not_in_drop chars s j :
  str.head_not_in chars (drop j s) =
    from_option (fun c => negb (str.is_one_of chars c)) false (s !! j).
Proof.
  revert j. induction s as [|c s IH]; intros [|j]; cbn; try reflexivity. apply IH.
Qed.

Section MarkerLast.
Variables (asserts : bool) (pre line lbs : std_string).
Hypothesis Hok : marker_line_last_ok line lbs.
Local Abbreviation source := (marker_line_last pre line lbs).
Hypothesis Hfits : str.fits source.

(** From the marker to the end of its line there is no line break. *)
Lemma marker_line_no_break j :
  (length pre <= j < length pre + length (typeToken ++ line))%nat ->
  str.head_not_in line_breaks (drop j source) = true.
Proof.
  intros Hj. rewrite head_not_in_drop. unfold marker_line_last.
  rewrite lookup_app_r by lia. rewrite lookup_app_l by lia.
  destruct ((typeToken ++ line) !! (j - length pre)%nat) as [c|] eqn:E.
  - cbn. apply negb_true_iff.
    apply list_elem_of_lookup_2 in E. apply elem_of_app in E as [E|E].
    + revert c E. apply Forall_forall. repeat constructor.
    + destruct Hok as [Hline _]. rewrite Forall_forall in Hline. apply Hline, E.
  - apply lookup_ge_None in E. lia.
Qed.

(** After that line there are only line breaks. *)
Lemma after_marker_line_breaks j :
  (length pre + length (typeToken ++ line) <= j)%nat ->
  str.head_not_in line_breaks (drop j source) = false.
Proof.
  intros Hj. rewrite head_not_in_drop. unfold marker_line_last.
  rewrite lookup_app_r by lia. rewrite lookup_app_r by lia.
  destruct (lbs !! _) as [c|] eqn:E; [|reflexivity].
  cbn. apply negb_false_iff.
  apply list_elem_of_lookup_2 in E.
  destruct Hok as [_ Hlbs]. rewrite Forall_forall in Hlbs. apply Hlbs, E.
Qed.

Lemma marker_at_pre :
  str.starts_with typeToken (drop (length pre) source) = true.
Proof.
  unfold marker_line_last. rewrite drop_app_length.
  rewrite <- app_assoc. reflexivity.
Qed.

Lemma marker_at_size_pre :
  str.starts_with typeToken (drop (Z.to_nat (str.size pre)) source) = true.
Proof. unfold str.size. rewrite Nat2Z.id. apply marker_at_pre. Qed.

Lemma size_pre_le : str.size pre <= str.size source.
Proof.
  unfold marker_line_last, str.size. rewrite length_app. lia.
Qed.

(** A turn that starts at or before the last marker and completes
    leaves the loop at or before that marker. *)
Lemma step_before_last_marker pos m pos' m' :
  0 <= pos <= str.size pre ->
  PreProcess_step asserts source pos m = Returns (pos', m') ->
  0 <= pos' <= str.size pre.
Proof.
  intros Hpos Hstep.
  destruct (PreProcess_step_returns _ _ _ _ _ _ Hfits (proj1 Hpos) Hstep)
    as (Heol & Hnext & H1 & H2 & H3 & -> & _).
  set (eol := str.find_first_of line_breaks pos source) in *.
  set (nextLinePos := str.find_first_not_of line_breaks eol source) in *.
  destruct (search_from_found _ eol source Hfits ltac:(lia) Hnext)
    as (_ & Hnlb & Hmin).
  fold (str.find_first_not_of line_breaks eol source) in Hnlb, Hmin.
  fold nextLinePos in Hnlb, Hmin.
  assert (Hle : nextLinePos <= str.size pre).
  { destruct (Z_le_gt_dec nextLinePos (str.size pre)) as [|Hgt]; [assumption|].
    exfalso. unfold str.size in *.
    destruct (le_lt_dec (length pre + length (typeToken ++ line))
                (Z.to_nat nextLinePos)) as [Hge|Hlt].
    - rewrite after_marker_line_breaks in Hnlb by exact Hge. discriminate.
    - specialize (Hmin (nextLinePos - 1) ltac:(lia)).
      rewrite marker_line_no_break in Hmin by lia. discriminate. }
  pose proof marker_at_size_pre as Hmark.
  pose proof size_pre_le as Hsize.
  destruct (Z.eq_dec (str.find typeToken nextLinePos source) str.npos) as [Hnone|Hsome].
  - pose proof (search_from_missing _ nextLinePos source ltac:(lia) Hnone Hfits
                  (str.size pre) ltac:(lia)) as Hmiss.
    congruence.
  - destruct (search_from_found _ nextLinePos source Hfits ltac:(lia) Hsome)
      as (Hr & _ & Hfirst).
    fold (str.find typeToken nextLinePos source) in Hr, Hfirst.
    split; [lia|].
    destruct (Z_le_gt_dec (str.find typeToken nextLinePos source) (str.size pre))
      as [|Hgt]; [assumption|].
    specialize (Hfirst (str.size pre) ltac:(lia)). congruence.
Qed.

Lemma loop_before_last_marker fuel pos m :
  0 <= pos <= str.size pre ->
  returned (PreProcess_loop fuel asserts source pos m) = false.
Proof.
  revert pos m. induction fuel as [|fuel IH]; intros pos m Hpos.
  - cbn. destruct (Z.eqb_spec pos str.npos) as [E|]; [|reflexivity].
    apply fits_lt in Hfits. unfold marker_line_last, str.size in *.
    rewrite length_app in Hfits. rewrite npos_value in E. lia.
  - rewrite PreProcess_loop_turn.
    + destruct (PreProcess_step asserts source pos m) as [[pos' m']|h] eqn:E;
        obind; [|reflexivity].
      apply IH. eapply step_before_last_marker; eassumption.
    + apply fits_lt in Hfits. unfold marker_line_last, str.size in *.
      rewrite length_app in Hfits. rewrite npos_value. lia.
Qed.

(** X7: Whatever precedes it, a marker line that is the last content of the
    input makes the splitter stop on an exception or a failed
    assertion: no map is returned, and so no empty stage text. *)
Lemma PreProcess_marker_line_last_fails :
  exists h, PreProcess asserts source = Halts h /\ is_failure h = true.
Proof.
  pose proof (PreProcess_total asserts source Hfits) as Htotal.
  assert (Hnot : returned (PreProcess asserts source) = false).
  { unfold PreProcess. apply loop_before_last_marker.
    destruct (find_range source 0 Hfits ltac:(lia)) as [Hnone|[Hr _]].
    - pose proof (size_nonneg pre). pose proof size_pre_le.
      pose proof (search_from_missing _ 0 source ltac:(lia)
                    Hnone Hfits (str.size pre) ltac:(lia)) as Hmiss.
      pose proof marker_at_size_pre. congruence.
    - split; [lia|].
      destruct (Z.eq_dec (str.find typeToken 0 source) str.npos) as [Hnone|Hsome].
      { apply fits_lt in Hfits. rewrite Hnone, npos_value in Hr.
        unfold str.size in Hr. lia. }
      destruct (search_from_found _ 0 source Hfits ltac:(lia) Hsome)
        as (_ & _ & Hfirst).
      fold (str.find typeToken 0 source) in Hfirst.
      destruct (Z_le_gt_dec (str.find typeToken 0 source) (str.size pre))
        as [|Hgt]; [assumption|].
      pose proof (size_nonneg pre).
      specialize (Hfirst (str.size pre) ltac:(lia)).
      pose proof marker_at_size_pre. congruence. }
  destruct (PreProcess asserts source) as [m|h]; [discriminate|].
  exists h. auto.
Qed.
End MarkerLast.
End Splitter.

Lemma marker_free_by_search s :
  str.first_where (str.starts_with typeToken) s = None -> marker_free s.
Proof.
  intros H i. destruct (le_lt_dec i (length s)) as [Hle|Hgt].
  - apply (first_where_None _ _ H), Hle.
  - rewrite drop_ge by lia. reflexivity.
Qed.

Lemma PreProcess_two_stages_witness :
  exists m : gmap Z std_string,
    PreProcess true (two_stage_source [] example_vertex_block example_fragment_block)
      = Returns m /\
    m !! stage_kind (lit "vertex") = Some (lit "void main(){}" ++ [LF]) /\
    m !! stage_kind (lit "fragment") = Some (lit "#version 330 core" ++ [LF]) /\
    size m = 2%nat /\
    dom m = {[GL_VERTEX_SHADER; GL_FRAGMENT_SHADER]}.
Proof.
  apply (PreProcess_two_stages true [] example_vertex_block example_fragment_block).
  split; [apply marker_free_by_search; reflexivity|].
  split.
  { split; [left; reflexivity|]. split; [discriminate|].
    split; [repeat constructor|]. split; [reflexivity|].
    apply marker_free_by_search; reflexivity. }
  split.
  { split; [right; left; reflexivity|]. split; [discriminate|].
    split; [repeat constructor|]. split; [reflexivity|].
    apply marker_free_by_search; reflexivity. }
  split; [discriminate|].
  split; [discriminate|].
  reflexivity.
Defined.

Example example_source_is_two_stage :
  two_stage_source [] example_vertex_block example_fragment_block = example_source.
Proof. reflexivity. Qed.

(** C1, at the file that is one marker line: no map with an empty stage
    text is returned; [substr] throws [std::out_of_range], whether or not
    assertions are compiled in.  Without the final line break the assertion
    on [eol] fails, or the same exception is thrown. *)
Theorem PreProcess_marker_line_then_end :
  PreProcess true (lit "#type vertex" ++ [LF]) = Halts (Throws out_of_range) /\
  PreProcess false (lit "#type vertex" ++ [LF]) = Halts (Throws out_of_range) /\
  PreProcess true (lit "#type vertex") = Halts (AssertionFailed "Sytax error") /\
  PreProcess false (lit "#type vertex") = Halts (Throws out_of_range).
Proof. repeat split; vm_compute; reflexivity. Qed.

(** The same at the end of a file of two stages. *)
Example PreProcess_second_marker_line_then_end :
  PreProcess true (lit "#type vertex" ++ [LF] ++ lit "void main(){}" ++ [LF]
                   ++ lit "#type fragment" ++ [LF])
  = Halts (Throws out_of_range).
Proof. vm_compute. reflexivity. Qed.

(** C2, at a file of a vertex block with text and a fragment block that
    is its marker line alone: the file has two stage blocks, each with a
    recognized name, of different kinds, and is well formed in every
    other respect, so that its fragment text is the empty text between
    the marker line and the end of the input; yet the splitter returns no
    map of two entries: as for a single marker line, [nextLinePos] is
    [npos] and [substr] throws [std::out_of_range], in either build. *)
Theorem PreProcess_two_stages_second_empty :
  let b1 := example_vertex_block in
  let b2 := example_marker_only_block in
  let source := two_stage_source [] b1 b2 in
  source = lit "#type vertex" ++ [LF] ++ lit "void main(){}" ++ [LF]
           ++ lit "#type fragment" ++ [LF] /\
  block_ok b1 /\ block_ok b2 /\
  stage_kind (stage_name b1) <> stage_kind (stage_name b2) /\
  str.fits source /\
  text b2 = [] /\
  PreProcess true source = Halts (Throws out_of_range) /\
  PreProcess false source = Halts (Throws out_of_range) /\
  (forall asserts m, PreProcess asserts source <> Returns m).
Proof.
  intros b1 b2 source.
  split; [reflexivity|]. split.
  { split; [left; reflexivity|]. split; [discriminate|].
    split; [repeat constructor|]. split; [reflexivity|].
    apply marker_free_by_search; reflexivity. }
  split.
  { split; [right; left; reflexivity|]. split; [discriminate|].
    split; [repeat constructor|]. split; [reflexivity|].
    apply marker_free_by_search; reflexivity. }
  split; [discriminate|].
  split; [vm_compute; reflexivity|].
  split; [reflexivity|].
  assert (Hon : PreProcess true source = Halts (Throws out_of_range))
    by (vm_compute; reflexivity).
  assert (Hoff : PreProcess false source = Halts (Throws out_of_range))
    by (vm_compute; reflexivity).
  split; [exact Hon|]. split; [exact Hoff|].
  intros [|] m H; [rewrite Hon in H | rewrite Hoff in H]; discriminate H.
Qed.

(** A marker that is directly followed by the next marker does give an
    empty stage text. *)
Example PreProcess_empty_block_before_marker :
  PreProcess true (lit "#type vertex" ++ [LF] ++ lit "#type fragment" ++ [LF]
                   ++ lit "void main(){}")
  = Returns (<[GL_FRAGMENT_SHADER := lit "void main(){}"]>
               (<[GL_VERTEX_SHADER := []]> ∅)).
Proof. vm_compute. reflexivity. Qed.

Lemma PreProcess_marker_line_last_fails_example :
  exists h, PreProcess true (marker_line_last (lit "// shader" ++ [LF])
                               (lit " vertex") [CR; LF]) = Halts h /\
            is_failure h = true.
Proof.
  apply (PreProcess_marker_line_last_fails true (lit "// shader" ++ [LF])
           (lit " vertex") [CR; LF]).
  - split; repeat constructor.
  - reflexivity.
Defined.

(** ** Unrecognized stage names *)

Section StageNames.
Implicit Types (s : std_string) (p q k : nat).

Lemma starts_with_split tok s :
  str.starts_with tok s = true -> s = tok ++ drop (length tok) s.
Proof.
  revert s. induction tok as [|a tok IH]; intros s H; [reflexivity|].
  destruct s as [|c s]; [discriminate|]. cbn in H.
  apply andb_true_iff in H as [Hc H]. apply Ascii.eqb_eq in Hc as ->.
  cbn. f_equal. apply IH, H.
Qed.

Lemma marker_at_split s p :
  marker_at s p -> drop p s = typeToken ++ drop (p + 5) s.
Proof.
  intros H. apply starts_with_split in H. rewrite drop_drop in H. exact H.
Qed.

Lemma marker_at_length s p : marker_at s p -> (p + 5 <= length s)%nat.
Proof.
  intros H. apply marker_at_split in H. apply (f_equal length) in H.
  rewrite length_app, !length_drop in H. cbn in H. lia.
Qed.

(** The first line break of [s] ends its first line. *)
Lemma line_of_first_break s k :
  str.first_where (str.head_in line_breaks) s = Some k ->
  s = line_of s ++ drop k s /\ length (line_of s) = k /\
  str.head_in line_breaks (drop k s) = true.
Proof.
  revert k. induction s as [|c s IH]; intros k; [discriminate|].
  cbn [str.first_where]. destruct (str.head_in line_breaks (c :: s)) eqn:E.
  - intros [= <-]. cbn in E |- *. unfold is_line_break. rewrite E. auto.
  - destruct (str.first_where _ s) as [k'|]; [|discriminate].
    intros [= <-]. destruct (IH k' eq_refl) as (H1 & H2 & H3).
    cbn in E |- *. unfold is_line_break. rewrite E. cbn.
    split; [f_equal; exact H1|]. split; [f_equal; exact H2 | exact H3].
Qed.

Lemma break_is_no_marker s :
  str.head_not_in line_breaks s = false -> str.starts_with typeToken s = false.
Proof.
  destruct s as [|c s]; [reflexivity|]. cbn.
  intros H. apply negb_false_iff in H.
  apply orb_true_iff in H as [H|H].
  - apply Ascii.eqb_eq in H as ->. reflexivity.
  - apply orb_true_iff in H as [H|H]; [|discriminate].
    apply Ascii.eqb_eq in H as ->. reflexivity.
Qed.

Lemma ShaderTypeFromString_returns type key :
  ShaderTypeFromString true type = Returns key -> recognized type.
Proof.
  unfold ShaderTypeFromString, std_string_eqb, recognized.
  repeat case_bool_decide; cbn; auto. discriminate.
Qed.

(** No marker starts inside the token, the separator or a recognized
    name. *)
Lemma no_marker_in_marker_line c0 name rest d :
  recognized name -> (0 < d < 6 + length name)%nat ->
  str.starts_with typeToken (drop d (typeToken ++ c0 :: name ++ rest)) = false.
Proof.
  intros [->|[->| ->]] Hd; cbn [length lit list_ascii_of_string] in Hd;
    do 15 (destruct d as [|d]; [first [lia | cbn; rewrite ?andb_false_r; reflexivity]|]);
    lia.
Qed.

Lemma no_marker_in_token rest d :
  (0 < d < 5)%nat ->
  str.starts_with typeToken (drop d (typeToken ++ rest)) = false.
Proof.
  intros Hd.
  do 5 (destruct d as [|d]; [first [lia | reflexivity]|]). lia.
Qed.

Lemma search_from_offset P p s :
  str.search_from P (Z.of_nat p) s <> str.npos ->
  exists k, str.first_where P (drop p s) = Some k /\
            str.search_from P (Z.of_nat p) s = Z.of_nat p + Z.of_nat k.
Proof.
  unfold str.search_from. destruct (_ <? _); [congruence|].
  rewrite Nat2Z.id. destruct (str.first_where P (drop p s)) as [k|]; [|congruence].
  intros _. exists k. auto.
Qed.

(** A turn at a marker that completes: the marker is in order, and the
    marker the loop goes on with is the next one in the input. *)
Lemma step_at_marker source p m pos' m' :
  str.fits source ->
  marker_at source p ->
  PreProcess_step true source (Z.of_nat p) m = Returns (pos', m') ->
  marker_ok source p /\
  forall q, (p < q)%nat -> marker_at source q ->
            pos' <> str.npos /\ pos' <= Z.of_nat q.
Proof.
  intros Hfits Hmark Hstep.
  destruct (PreProcess_step_returns _ _ _ _ _ _ Hfits (Nat2Z.is_nonneg p) Hstep)
    as (Heol & Hnext & H1 & H2 & H3 & -> & type & Htype & key & Hkey).
  apply ShaderTypeFromString_returns in Hkey.
  set (eol := str.find_first_of line_breaks (Z.of_nat p) source) in *.
  set (nextLinePos := str.find_first_not_of line_breaks eol source) in *.
  pose proof (marker_at_split _ _ Hmark) as Hsplit.
  pose proof (marker_at_length _ _ Hmark) as Hlen.
  (* where the marker line ends *)
  destruct (search_from_offset _ p source Heol) as (k & Hk & Heolk).
  fold (str.find_first_of line_breaks (Z.of_nat p) source) in Heolk. fold eol in Heolk.
  rewrite Hsplit in Hk.
  rewrite head_in_skip in Hk by (repeat constructor).
  destruct (str.first_where (str.head_in line_breaks) (drop (p + 5) source))
    as [k'|] eqn:Hk'; [|discriminate].
  injection Hk as <-. cbn [length typeToken lit list_ascii_of_string] in Heolk.
  destruct (line_of_first_break _ _ Hk') as (Hline & Hlen_line & Hbreak).
  fold (rest_of_marker_line source p) in Hline, Hlen_line.
  set (L := rest_of_marker_line source p) in *.
  assert (Hk'_lt : (k' < length (drop (p + 5) source))%nat).
  { destruct (le_lt_dec (length (drop (p + 5) source)) k') as [Hge|]; [|assumption].
    rewrite drop_ge in Hbreak by exact Hge. discriminate. }
  rewrite length_drop in Hk'_lt.
  (* the name that was read *)
  assert (Hname : (0 < k')%nat -> type = drop 1 L).
  { intros Hpos.
    rewrite (add_small (Z.of_nat p)) in Htype
      by (change typeTokenLength with 5; apply fits_lt in Hfits; lia).
    change typeTokenLength with 5 in Htype.
    rewrite add_small in Htype by (apply fits_lt in Hfits; lia).
    rewrite sub_small in Htype by (apply fits_lt in Hfits; lia).
    rewrite <- (take_drop (p + 6) source) in Htype at 1.
    replace (Z.of_nat p + 5 + 1) with (str.size (take (p + 6) source)) in Htype
      by (unfold str.size; rewrite length_take; lia).
    rewrite substr_at in Htype. injection Htype as <-.
    replace (Z.to_nat _) with (k' - 1)%nat
      by (unfold str.size; rewrite length_take, length_drop; lia).
    replace (p + 6)%nat with ((p + 5) + 1)%nat by lia.
    rewrite <- drop_drop, Hline.
    rewrite drop_app_le by lia. rewrite take_app_length'; [reflexivity|].
    rewrite length_drop. lia. }
  split.
  { unfold marker_ok. fold L. destruct k' as [|k'].
    - left. destruct L; [reflexivity | discriminate].
    - right. unfold stage_name_argument. fold L. rewrite <- Hname by lia. exact Hkey. }
  intros q Hq Hmq.
  pose proof (marker_at_length _ _ Hmq) as Hqlen.
  (* the later marker does not start before the stage text *)
  assert (Hnotbefore : nextLinePos <= Z.of_nat q).
  { destruct (Z_le_gt_dec nextLinePos (Z.of_nat q)) as [|Hgt]; [assumption|exfalso].
    unfold marker_at in Hmq.
    destruct (le_lt_dec (p + 5 + k') q) as [Hafter|Hbefore].
    - destruct (search_from_found _ eol source Hfits ltac:(lia) Hnext)
        as (_ & _ & Hmin).
      fold (str.find_first_not_of line_breaks eol source) in Hmin.
      fold nextLinePos in Hmin.
      specialize (Hmin (Z.of_nat q) ltac:(lia)). rewrite Nat2Z.id in Hmin.
      apply break_is_no_marker in Hmin. congruence.
    - replace q with (p + (q - p))%nat in Hmq by lia.
      rewrite <- drop_drop, Hsplit in Hmq.
      destruct (le_lt_dec 5 (q - p)) as [Hin|Hin].
      + destruct k' as [|k']; [lia|].
        rewrite Hline in Hmq.
        destruct L as [|c0 name] eqn:EL; [discriminate|].
        specialize (Hname ltac:(lia)). cbn in Hname. subst type.
        cbn [length] in Hlen_line.
        cbn [app] in Hmq.
        rewrite no_marker_in_marker_line in Hmq; [discriminate | exact Hkey | lia].
      + rewrite no_marker_in_token in Hmq; [discriminate | lia]. }
  destruct (Z.eq_dec (str.find typeToken nextLinePos source) str.npos) as [Hnone|Hsome].
  - pose proof (search_from_missing _ nextLinePos source ltac:(lia) Hnone Hfits
                  (Z.of_nat q) ltac:(unfold str.size; lia)) as Hmiss.
    rewrite Nat2Z.id in Hmiss. unfold marker_at in Hmq. congruence.
  - split; [exact Hsome|].
    destruct (search_from_found _ nextLinePos source Hfits ltac:(lia) Hsome)
      as (_ & _ & Hfirst).
    fold (str.find typeToken nextLinePos source) in Hfirst.
    destruct (Z_le_gt_dec (str.find typeToken nextLinePos source) (Z.of_nat q))
      as [|Hgt]; [assumption|].
    specialize (Hfirst (Z.of_nat q) ltac:(lia)). rewrite Nat2Z.id in Hfirst.
    unfold marker_at in Hmq. congruence.
Qed.

Lemma find_marker source pos :
  str.fits source -> 0 <= pos ->
  let r := str.find typeToken pos source in
  r = str.npos \/ exists p, r = Z.of_nat p /\ marker_at source p.
Proof.
  intros Hfits Hpos r.
  destruct (find_range source pos Hfits Hpos) as [|[Hr Hm]]; [left; assumption|right].
  exists (Z.to_nat r). split; [subst r; lia | exact Hm].
Qed.

Lemma loop_markers_ok source :
  str.fits source ->
  forall fuel pos m result,
    (pos = str.npos \/ exists p, pos = Z.of_nat p /\ marker_at source p) ->
    (forall q, marker_at source q -> (pos <> str.npos -> Z.of_nat q < pos) ->
               marker_ok source q) ->
    PreProcess_loop fuel true source pos m = Returns result ->
    forall q, marker_at source q -> marker_ok source q.
Proof.
  intros Hfits. induction fuel as [|fuel IH]; intros pos m result Hpos Hbefore Hloop.
  - cbn in Hloop. destruct (Z.eqb_spec pos str.npos) as [->|]; [|discriminate].
    intros q Hq. apply Hbefore; [exact Hq | congruence].
  - destruct Hpos as [->|(p & -> & Hp)].
    { intros q Hq. apply Hbefore; [exact Hq | congruence]. }
    assert (Hne : Z.of_nat p <> str.npos).
    { apply marker_at_length in Hp. apply fits_lt in Hfits.
      rewrite npos_value. lia. }
    rewrite PreProcess_loop_turn in Hloop by exact Hne.
    destruct (PreProcess_step true source (Z.of_nat p) m) as [[pos' m']|h] eqn:E;
      [|discriminate].
    obind_in Hloop. cbn [fst snd] in Hloop.
    destruct (step_at_marker _ _ _ _ _ Hfits Hp E) as (Hok & Hlater).
    destruct (PreProcess_step_returns _ _ _ _ _ _ Hfits (Nat2Z.is_nonneg p) E)
      as (_ & _ & H1 & H2 & _ & Hpos' & _).
    eapply IH; [| |exact Hloop].
    + rewrite Hpos'. apply find_marker; [exact Hfits | lia].
    + intros q Hq Hlt.
      destruct (lt_eq_lt_dec q p) as [[Hqp| ->]|Hqp].
      * apply Hbefore; [exact Hq | lia].
      * exact Hok.
      * destruct (Hlater q Hqp Hq) as [Hsome Hle]. specialize (Hlt Hsome). lia.
Qed.

(** When the splitter returns a map, every marker of the input names a
    recognized stage, unless its line ends right after the token. *)
Lemma PreProcess_returns_markers_ok source m :
  str.fits source ->
  PreProcess true source = Returns m ->
  forall q, marker_at source q -> marker_ok source q.
Proof.
  intros Hfits Hret. unfold PreProcess in Hret.
  eapply loop_markers_ok; [exact Hfits | | | exact Hret].
  - apply find_marker; [exact Hfits | lia].
  - intros q Hq Hlt. exfalso.
    pose proof (marker_at_length _ _ Hq) as Hlen.
    destruct (Z.eq_dec (str.find typeToken 0 source) str.npos) as [Hnone|Hsome].
    + pose proof (search_from_missing _ 0 source
                    ltac:(pose proof (size_nonneg source); lia) Hnone Hfits
                    (Z.of_nat q) ltac:(unfold str.size; lia)) as Hmiss.
      rewrite Nat2Z.id in Hmiss. unfold marker_at in Hq. congruence.
    + destruct (search_from_found _ 0 source Hfits ltac:(lia) Hsome)
        as (_ & _ & Hfirst).
      fold (str.find typeToken 0 source) in Hfirst.
      specialize (Hfirst (Z.of_nat q) ltac:(specialize (Hlt Hsome); lia)).
      rewrite Nat2Z.id in Hfirst. unfold marker_at in Hq. congruence.
Qed.

(** With assertions compiled in, a marker that is followed on its line
    by a separator and a name that is not recognized makes the splitter
    stop on a failed assertion or an exception. *)
Lemma PreProcess_unrecognized_name_fails source p :
  str.fits source ->
  marker_at source p ->
  rest_of_marker_line source p <> [] ->
  ~ recognized (stage_name_argument source p) ->
  exists h, PreProcess true source = Halts h /\ is_failure h = true.
Proof.
  intros Hfits Hp Hrest Hname.
  pose proof (PreProcess_total true source Hfits) as Htotal.
  destruct (PreProcess true source) as [m|h] eqn:E.
  - destruct (PreProcess_returns_markers_ok source m Hfits E p Hp); contradiction.
  - exists h. auto.
Qed.

(** X8: with assertions compiled in, a file with a marker that is followed
  on its line by a separator and a name that is not recognized stops the
  constructor before [Compile] is entered: it issues no call to the
  driver at all, and the object is as it was. *)
Lemma OpenGLShader_filepath_unrecognized_name pf filepath source p self tr :
  HZ_ENABLE_ASSERTS pf = true ->
  file_contents pf filepath = Some source ->
  str.fits source ->
  marker_at source p ->
  rest_of_marker_line source p <> [] ->
  ~ recognized (stage_name_argument source p) ->
  exists h,
    OpenGLShader_filepath pf filepath self tr = (Halts h, self, tr) /\
    is_failure h = true.
Proof.
  intros Hasserts Hfile Hfits Hp Hrest Hname.
  destruct (PreProcess_unrecognized_name_fails source p Hfits Hp Hrest Hname)
    as (h & Hpre & Hh).
  exists h. split; [|exact Hh].
  unfold OpenGLShader_filepath, ReadFile. rewrite Hfile, Hasserts. step.
  rewrite Hpre. reflexivity.
Qed.
End StageNames.

(** C4, at the file ["#type"], line break, ["vertex"]: the marker names no
    stage, yet the splitter reads the text after the line break as the
    name ([eol - begin] wraps around), returns a map, and the constructor
    goes on to create and compile a vertex shader. *)
Theorem OpenGLShader_filepath_marker_without_name :
  let source := lit "#type" ++ [LF] ++ lit "vertex" in
  let pf := example_platform true (fun _ => Some source) [] true (fun _ => 0) in
  let r := OpenGLShader_filepath pf (lit "a.glsl") fresh_shader [] in
  marker_at source 0 /\
  stage_name_argument source 0 = [] /\
  PreProcess true source = Returns {[ GL_VERTEX_SHADER := lit "vertex" ]} /\
  result_of r = Returns tt /\
  events_of r =
    [glCreateProgram 1; glCreateShader GL_VERTEX_SHADER 2;
     glShaderSource 2 (lit "vertex"); glCompileShader 2;
     glGetShaderiv 2 GL_COMPILE_STATUS GL_TRUE; glAttachShader 1 2;
     glLinkProgram 1; glGetProgramiv 1 GL_LINK_STATUS GL_TRUE;
     glDetachShader 1 2; glDetachShader 1 0; glUseProgram 1].
Proof. repeat split; vm_compute; reflexivity. Qed.

Lemma OpenGLShader_filepath_unrecognized_name_example :
  let source := lit "#type geometry" ++ [LF] ++ lit "void main(){}" in
  let pf := example_platform true (fun _ => Some source) [] true (fun _ => 0) in
  exists h,
    OpenGLShader_filepath pf (lit "a.glsl") fresh_shader [] = (Halts h, fresh_shader, []) /\
    is_failure h = true.
Proof.
  intros source pf.
  apply (OpenGLShader_filepath_unrecognized_name pf (lit "a.glsl") source 0%nat).
  - reflexivity.
  - reflexivity.
  - reflexivity.
  - reflexivity.
  - discriminate.
  - intros [H|[H|H]]; discriminate H.
Defined.

(** ** Compiling and linking *)

#[local] Hint Unfold Compile Bind HZ_CORE_ASSERT array2_store : hazel.

Section CompileLink.
Variable pf : Platform.
Hypothesis Horder : visits_each_entry_once pf.

Lemma iteration_order_length (m : gmap Z std_string) :
  length (iteration_order pf m) = size m.
Proof. rewrite (Horder m). apply length_map_to_list. Qed.

Lemma iteration_order_lookup (m : gmap Z std_string) ty text :
  (ty, text) ∈ iteration_order pf m <-> m !! ty = Some text.
Proof. rewrite (Horder m). apply elem_of_map_to_list. Qed.

Lemma iteration_order_empty : iteration_order pf ∅ = [].
Proof.
  apply Permutation_nil_r. rewrite (Horder ∅), map_to_list_empty. reflexivity.
Qed.

Lemma all_stages_compile_order m :
  all_stages_compile pf m ->
  Forall (fun e => (glGetShaderiv_ret pf e.1 e.2 GL_COMPILE_STATUS =? GL_FALSE) = false)
    (iteration_order pf m).
Proof.
  intros H. apply Forall_forall. intros [ty text] Hin. cbn.
  apply Z.eqb_neq, H, iteration_order_lookup, Hin.
Qed.

(** The stage loop when every stage compiles: every stage is attached,
    each shader created is kept in [glShaderIDs], and nothing is
    released. *)
Lemma Compile_stages_ok program entries self tr :
  (length entries <= 2)%nat ->
  Forall (fun e => (glGetShaderiv_ret pf e.1 e.2 GL_COMPILE_STATUS =? GL_FALSE) = false)
    entries ->
  exists new ids,
    Compile_stages pf program entries [] (indeterminate pf) 0 self tr =
      (Returns (entries, ids), self, tr ++ new) /\
    (forall ty id, glCreateShader ty id ∈ new -> id = ids.1 \/ id = ids.2) /\
    Forall (fun e => is_stage_setup e = true) new.
Proof.
  intros Hlen Hall.
  destruct entries as [|[ty1 s1] [|[ty2 s2] [|]]]; cbn [length] in Hlen; [| | |lia].
  - exists [], (indeterminate pf). cbn. rewrite app_nil_r.
    split; [reflexivity|]. split; [|constructor].
    intros ty id H. split_in H.
  - apply Forall_cons in Hall as [H1 _]. cbn in H1.
    eexists _, _. split; [|split].
    + run. rewrite H1. run. rewrite <- !app_assoc. cbn [app]. reflexivity.
    + intros ty id H. split_in H; inversion H; subst. left. reflexivity.
    + repeat constructor.
  - apply Forall_cons in Hall as [H1 Hall]. apply Forall_cons in Hall as [H2 _].
    cbn in H1, H2.
    eexists _, _. split; [|split].
    + run. rewrite H1. run. rewrite H2. run. rewrite <- !app_assoc. cbn [app]. reflexivity.
    + intros ty id H. split_in H; inversion H; subst; [left|right]; reflexivity.
    + repeat constructor.
Qed.

(** The stage loop when every stage compiles, stage by stage: every
    entry of the map gets a shader of its kind that is given the entry's
    text, compiled, attached to the program and kept in [glShaderIDs];
    no other shader is created. *)
Lemma Compile_stages_detail program entries self tr :
  (length entries <= 2)%nat ->
  Forall (fun e => (glGetShaderiv_ret pf e.1 e.2 GL_COMPILE_STATUS =? GL_FALSE) = false)
    entries ->
  exists new ids,
    Compile_stages pf program entries [] (indeterminate pf) 0 self tr =
      (Returns (entries, ids), self, tr ++ new) /\
    (forall ty text, (ty, text) ∈ entries ->
       exists id, glCreateShader ty id ∈ new /\ glShaderSource id text ∈ new /\
                  glCompileShader id ∈ new /\ glAttachShader program id ∈ new /\
                  (id = ids.1 \/ id = ids.2)) /\
    (forall ty id, glCreateShader ty id ∈ new ->
       (id = ids.1 \/ id = ids.2) /\
       exists text, (ty, text) ∈ entries /\ glShaderSource id text ∈ new) /\
    Forall (fun e => is_stage_setup e = true) new.
Proof.
  intros Hlen Hall.
  destruct entries as [|[ty1 s1] [|[ty2 s2] [|]]]; cbn [length] in Hlen; [| | |lia].
  - exists [], (indeterminate pf). cbn. rewrite app_nil_r.
    split; [reflexivity|]. split; [|split; [|constructor]].
    + intros ty text H. split_in H.
    + intros ty id H. split_in H.
  - apply Forall_cons in Hall as [H1 _]. cbn in H1.
    eexists _, _. split; [|split; [|split]].
    + run. rewrite H1. run. rewrite <- !app_assoc. cbn [app]. reflexivity.
    + intros ty text H. split_in H. inversion H; subst.
      eexists. repeat split; try find_in. left. reflexivity.
    + intros ty id H. split_in H; inversion H; subst.
      split; [left; reflexivity|]. eexists. split; find_in.
    + repeat constructor.
  - apply Forall_cons in Hall as [H1 Hall]. apply Forall_cons in Hall as [H2 _].
    cbn in H1, H2.
    eexists _, _. split; [|split; [|split]].
    + run. rewrite H1. run. rewrite H2. run. rewrite <- !app_assoc. cbn [app]. reflexivity.
    + intros ty text H. split_in H; inversion H; subst.
      * eexists. repeat split; try find_in. left. reflexivity.
      * eexists. repeat split; try find_in. right. reflexivity.
    + intros ty id H. split_in H; inversion H; subst.
      * split; [left; reflexivity|]. eexists. split; find_in.
      * split; [right; reflexivity|]. eexists. split; find_in.
    + repeat constructor.
Qed.

Lemma not_stage_setup e st :
  Forall (fun e => is_stage_setup e = true) st ->
  is_stage_setup e = false -> e ∉ st.
Proof.
  intros Hst He Hin. rewrite Forall_forall in Hst.
  specialize (Hst e Hin). congruence.
Qed.

(** C6: when every stage compiles and the link succeeds, [Compile]
    creates the program, then for every stage of the map a shader of its
    kind, which is given the stage's text, compiled and attached to the
    program, and no other shader; it links that program, detaches the
    shaders kept in [glShaderIDs], among them every shader it created,
    deletes no shader and no program, stores the linked program as the
    shader's handle, and ends by making it the active program. *)
Theorem Compile_link_success (shaderSources : gmap Z std_string)
    (self : Shader) (tr : list event) :
  (size shaderSources <= 2)%nat ->
  all_stages_compile pf shaderSources ->
  glGetProgramiv_ret pf (iteration_order pf shaderSources) GL_LINK_STATUS <> GL_FALSE ->
  let program := gen_name pf tr in
  let r := Compile pf shaderSources self tr in
  let new := drop (length tr) (events_of r) in
  result_of r = Returns tt /\
  object_of r = {| m_RendererID := program; m_Name := m_Name self |} /\
  events_of r = tr ++ new /\
  (forall ty id, glCreateShader ty id ∈ new -> glDetachShader program id ∈ new) /\
  (forall id, glDeleteShader id ∉ new) /\
  (forall p, glDeleteProgram p ∉ new) /\
  last new = Some (glUseProgram program) /\
  exists st ids,
    new = glCreateProgram program :: st ++
          [glLinkProgram program;
           glGetProgramiv program GL_LINK_STATUS
             (glGetProgramiv_ret pf (iteration_order pf shaderSources) GL_LINK_STATUS);
           glDetachShader program ids.1; glDetachShader program ids.2;
           glUseProgram program] /\
    Forall (fun e => is_stage_setup e = true) st /\
    (forall ty text, shaderSources !! ty = Some text ->
       exists id, glCreateShader ty id ∈ st /\ glShaderSource id text ∈ st /\
                  glCompileShader id ∈ st /\ glAttachShader program id ∈ st /\
                  (id = ids.1 \/ id = ids.2)) /\
    (forall ty id, glCreateShader ty id ∈ st ->
       exists text, shaderSources !! ty = Some text /\ glShaderSource id text ∈ st).
Proof.
  intros Hsize Hok Hlink program r new.
  pose proof (all_stages_compile_order _ Hok) as Hall.
  pose proof (iteration_order_length shaderSources) as Hlen.
  apply Z.eqb_neq in Hlink.
  assert (Hassert : (Z.of_nat (size shaderSources) <=? 2) = true) by (apply Z.leb_le; lia).
  destruct (Compile_stages_detail program (iteration_order pf shaderSources) self
              (tr ++ [glCreateProgram program]))
    as (st & ids & Hst & Hbuilt & Hids & Hquiet); [lia | exact Hall |].
  subst new r. unfold Compile. run. rewrite Hassert. fold program. rewrite Hst.
  run. rewrite Hlink. run.
  rewrite <- !app_assoc, drop_app_length. cbn [app].
  split; [reflexivity|]. split; [reflexivity|]. split; [reflexivity|].
  split; [|split; [|split; [|split]]].
  - intros ty id H. split_in H; try discriminate.
    destruct (Hids ty id H) as [[->| ->] _]; find_in.
  - intros id H. split_in H; try discriminate.
    revert H. apply not_stage_setup; [exact Hquiet | reflexivity].
  - intros p H. split_in H; try discriminate.
    revert H. apply not_stage_setup; [exact Hquiet | reflexivity].
  - rewrite app_comm_cons, last_app. reflexivity.
  - exists st, ids. split; [reflexivity|]. split; [exact Hquiet|]. split.
    + intros ty text Hin. apply Hbuilt, iteration_order_lookup, Hin.
    + intros ty id Hin. destruct (Hids ty id Hin) as (_ & text & Hentry & Hsrc).
      exists text. split; [apply iteration_order_lookup, Hentry | exact Hsrc].
Qed.

(** C5: when every stage compiles and the link fails, [Compile] deletes
    the program and every shader it created, writes the link log to the
    error log, stores no handle and makes no program active; it stops at
    the assertion, or returns where assertions are compiled out. *)
Theorem Compile_link_failure (shaderSources : gmap Z std_string)
    (self : Shader) (tr : list event) :
  (size shaderSources <= 2)%nat ->
  all_stages_compile pf shaderSources ->
  glGetProgramiv_ret pf (iteration_order pf shaderSources) GL_LINK_STATUS = GL_FALSE ->
  let program := gen_name pf tr in
  let r := Compile pf shaderSources self tr in
  let new := drop (length tr) (events_of r) in
  result_of r = (if HZ_ENABLE_ASSERTS pf
                 then Halts (AssertionFailed "Program linking failure!")
                 else Returns tt) /\
  object_of r = self /\
  events_of r = tr ++ new /\
  glDeleteProgram program ∈ new /\
  (forall ty id, glCreateShader ty id ∈ new -> glDeleteShader id ∈ new) /\
  HZ_CORE_ERROR (glGetProgramInfoLog_ret pf (iteration_order pf shaderSources)) ∈ new /\
  (forall p, glUseProgram p ∉ new).
Proof.
  intros Hsize Hok Hlink program r new.
  pose proof (all_stages_compile_order _ Hok) as Hall.
  pose proof (iteration_order_length shaderSources) as Hlen.
  assert (Hassert : (Z.of_nat (size shaderSources) <=? 2) = true) by (apply Z.leb_le; lia).
  destruct (Compile_stages_ok program (iteration_order pf shaderSources) self
              (tr ++ [glCreateProgram program]))
    as (st & ids & Hst & Hids & Hquiet); [lia | exact Hall |].
  subst new r. unfold Compile. run. rewrite Hassert. fold program. rewrite Hst.
  run. rewrite Hlink, Z.eqb_refl. run.
  destruct (HZ_ENABLE_ASSERTS pf); run;
    rewrite <- !app_assoc, drop_app_length; cbn [app];
    (repeat split;
     [ find_in
     | intros ty id H; split_in H; try discriminate;
       destruct (Hids ty id H) as [->| ->]; find_in
     | find_in
     | intros p H; split_in H; try discriminate;
       revert H; apply not_stage_setup; [exact Hquiet | reflexivity] ]).
Qed.

Lemma not_program_call e st :
  Forall (fun e => is_program_call e = false) st ->
  is_program_call e = true -> e ∉ st.
Proof.
  intros Hst He Hin. rewrite Forall_forall in Hst.
  specialize (Hst e Hin). congruence.
Qed.

(** The stage loop when some stage is rejected and assertions are
    compiled in: it stops at the first rejected stage, whose shader is the
    only one deleted and whose log is written, and touches the program
    only to attach the stages compiled before. *)
Lemma Compile_stages_fails program entries self tr :
  HZ_ENABLE_ASSERTS pf = true ->
  (length entries <= 2)%nat ->
  Exists (fun e => glGetShaderiv_ret pf e.1 e.2 GL_COMPILE_STATUS = GL_FALSE) entries ->
  exists new ty text id,
    Compile_stages pf program entries [] (indeterminate pf) 0 self tr =
      (Halts (AssertionFailed "Shader compilation failure!"), self, tr ++ new) /\
    (ty, text) ∈ entries /\
    glGetShaderiv_ret pf ty text GL_COMPILE_STATUS = GL_FALSE /\
    glCreateShader ty id ∈ new /\
    glDeleteShader id ∈ new /\
    HZ_CORE_ERROR (glGetShaderInfoLog_ret pf ty text) ∈ new /\
    (forall id', glDeleteShader id' ∈ new -> id' = id) /\
    Forall (fun e => is_program_call e = false) new.
Proof.
  intros Hasserts Hlen Hex.
  destruct entries as [|[ty1 s1] [|[ty2 s2] [|]]]; cbn [length] in Hlen; [| | |lia].
  - inversion Hex.
  - apply Exists_cons in Hex as [H1|Hex]; [|inversion Hex]. cbn in H1.
    eexists _, ty1, s1, _. split.
    { run. rewrite H1. change (GL_FALSE =? GL_FALSE) with true. rewrite Hasserts. run.
      rewrite <- !app_assoc. cbn [app]. reflexivity. }
    repeat split; try find_in; try assumption.
    + intros id' H. split_in H; try discriminate. congruence.
    + repeat constructor.
  - destruct (Z.eqb_spec (glGetShaderiv_ret pf ty1 s1 GL_COMPILE_STATUS) GL_FALSE)
      as [H1|H1].
    + eexists _, ty1, s1, _. split.
      { run. rewrite H1. change (GL_FALSE =? GL_FALSE) with true. rewrite Hasserts. run.
        rewrite <- !app_assoc. cbn [app]. reflexivity. }
      repeat split; try find_in; try assumption.
      * intros id' H. split_in H; try discriminate. congruence.
      * repeat constructor.
    + apply Exists_cons in Hex as [H1'|Hex]; [contradiction|].
      apply Exists_cons in Hex as [H2|Hex]; [|inversion Hex]. cbn in H2.
      apply Z.eqb_neq in H1.
      eexists _, ty2, s2, _. split.
      { run. rewrite H1. run. rewrite H2. change (GL_FALSE =? GL_FALSE) with true. rewrite Hasserts. run.
        rewrite <- !app_assoc. cbn [app]. reflexivity. }
      repeat split; try find_in; try assumption.
      * intros id' H. split_in H; try discriminate. congruence.
      * repeat constructor.
Qed.

(** X10: What [Compile] does when a stage is rejected, with assertions
    compiled in: the rejected stage's shader is deleted, its log written,
    the constructor stopped and no handle stored; no other shader and no
    program is deleted, and the program is not linked. *)
Lemma Compile_stage_failure (shaderSources : gmap Z std_string)
    (self : Shader) (tr : list event) :
  HZ_ENABLE_ASSERTS pf = true ->
  (size shaderSources <= 2)%nat ->
  some_stage_fails pf shaderSources ->
  let r := Compile pf shaderSources self tr in
  let new := drop (length tr) (events_of r) in
  result_of r = Halts (AssertionFailed "Shader compilation failure!") /\
  object_of r = self /\
  events_of r = tr ++ new /\
  (exists ty text id,
      shaderSources !! ty = Some text /\
      glGetShaderiv_ret pf ty text GL_COMPILE_STATUS = GL_FALSE /\
      glCreateShader ty id ∈ new /\
      glDeleteShader id ∈ new /\
      HZ_CORE_ERROR (glGetShaderInfoLog_ret pf ty text) ∈ new /\
      (forall id', glDeleteShader id' ∈ new -> id' = id)) /\
  (forall p, glDeleteProgram p ∉ new) /\
  (forall p, glLinkProgram p ∉ new) /\
  (forall p, glUseProgram p ∉ new).
Proof.
  intros Hasserts Hsize (ty0 & text0 & Hin0 & Hfail0) r new.
  pose proof (iteration_order_length shaderSources) as Hlen.
  assert (Hassert : (Z.of_nat (size shaderSources) <=? 2) = true) by (apply Z.leb_le; lia).
  destruct (Compile_stages_fails (gen_name pf tr) (iteration_order pf shaderSources) self
              (tr ++ [glCreateProgram (gen_name pf tr)]) Hasserts ltac:(lia))
    as (st & ty & text & id & Hst & Hin & Hfail & Hc & Hd & Hlog & Honly & Hquiet).
  { apply Exists_exists. exists (ty0, text0). split; [|exact Hfail0].
    apply iteration_order_lookup, Hin0. }
  subst new r. unfold Compile. run. rewrite Hassert, Hasserts. run. rewrite Hst. run.
  rewrite <- !app_assoc, drop_app_length. cbn [app].
  repeat split.
  - exists ty, text, id. apply iteration_order_lookup in Hin.
    repeat split; try assumption; try (apply list_elem_of_further; assumption).
    intros id' H. split_in H; [discriminate|]. apply Honly, H.
  - intros p H. split_in H; [discriminate|].
    revert H. apply not_program_call; [exact Hquiet | reflexivity].
  - intros p H. split_in H; [discriminate|].
    revert H. apply not_program_call; [exact Hquiet | reflexivity].
  - intros p H. split_in H; [discriminate|].
    revert H. apply not_program_call; [exact Hquiet | reflexivity].
Qed.
End CompileLink.

Lemma example_platform_order asserts files rejected links location :
  visits_each_entry_once (example_platform asserts files rejected links location).
Proof. intros m. reflexivity. Qed.

Lemma Compile_link_success_witness :
  let pf := example_platform true (example_files []) [] true (fun _ => 0) in
  let r := Compile pf example_two_stages fresh_shader [] in
  let new := drop 0 (events_of r) in
  result_of r = Returns tt /\
  object_of r = {| m_RendererID := 1; m_Name := [] |} /\
  events_of r = [] ++ new /\
  (forall ty id, glCreateShader ty id ∈ new -> glDetachShader 1 id ∈ new) /\
  (forall id, glDeleteShader id ∉ new) /\
  (forall p, glDeleteProgram p ∉ new) /\
  last new = Some (glUseProgram 1) /\
  exists st ids,
    new = glCreateProgram 1 :: st ++
          [glLinkProgram 1; glGetProgramiv 1 GL_LINK_STATUS GL_TRUE;
           glDetachShader 1 ids.1; glDetachShader 1 ids.2; glUseProgram 1] /\
    Forall (fun e => is_stage_setup e = true) st /\
    (forall ty text, example_two_stages !! ty = Some text ->
       exists id, glCreateShader ty id ∈ st /\ glShaderSource id text ∈ st /\
                  glCompileShader id ∈ st /\ glAttachShader 1 id ∈ st /\
                  (id = ids.1 \/ id = ids.2)) /\
    (forall ty id, glCreateShader ty id ∈ st ->
       exists text, example_two_stages !! ty = Some text /\ glShaderSource id text ∈ st).
Proof.
  intros pf.
  apply (Compile_link_success pf (example_platform_order _ _ _ _ _)
           example_two_stages fresh_shader []).
  - vm_compute. lia.
  - intros ty text _. cbn. discriminate.
  - cbn. discriminate.
Defined.

Lemma Compile_link_failure_witness :
  let pf := example_platform true (example_files []) [] false (fun _ => 0) in
  let r := Compile pf example_two_stages fresh_shader [] in
  let new := drop 0 (events_of r) in
  result_of r = Halts (AssertionFailed "Program linking failure!") /\
  object_of r = fresh_shader /\
  events_of r = [] ++ new /\
  glDeleteProgram 1 ∈ new /\
  (forall ty id, glCreateShader ty id ∈ new -> glDeleteShader id ∈ new) /\
  HZ_CORE_ERROR (lit "error") ∈ new /\
  (forall p, glUseProgram p ∉ new).
Proof.
  intros pf.
  apply (Compile_link_failure pf (example_platform_order _ _ _ _ _)
           example_two_stages fresh_shader []).
  - vm_compute. lia.
  - intros ty text _. cbn. discriminate.
  - reflexivity.
Defined.

(** C3, at a vertex stage that compiles followed by a fragment stage that
    does not: [Compile] deletes the fragment shader, writes its log and
    stops at the assertion with no handle stored, but the vertex shader
    compiled before and the program object are never deleted. *)
Theorem Compile_stage_failure_keeps_earlier_stage :
  let pf := example_platform true (example_files []) [lit "bad"] true (fun _ => 0) in
  let r := Compile pf example_bad_fragment fresh_shader [] in
  iteration_order pf example_bad_fragment =
    [(GL_VERTEX_SHADER, lit "ok"); (GL_FRAGMENT_SHADER, lit "bad")] /\
  result_of r = Halts (AssertionFailed "Shader compilation failure!") /\
  object_of r = fresh_shader /\
  events_of r =
    [glCreateProgram 1;
     glCreateShader GL_VERTEX_SHADER 2; glShaderSource 2 (lit "ok");
     glCompileShader 2; glGetShaderiv 2 GL_COMPILE_STATUS GL_TRUE;
     glAttachShader 1 2;
     glCreateShader GL_FRAGMENT_SHADER 7; glShaderSource 7 (lit "bad");
     glCompileShader 7; glGetShaderiv 7 GL_COMPILE_STATUS GL_FALSE;
     glGetShaderiv 7 GL_INFO_LOG_LENGTH 6; glGetShaderInfoLog 7 6 (lit "error");
     glDeleteShader 7; HZ_CORE_ERROR (lit "error")] /\
  (glDeleteShader 2 ∉ events_of r) /\
  (glDeleteProgram 1 ∉ events_of r).
Proof.
  intros pf r.
  assert (E : events_of r =
    [glCreateProgram 1;
     glCreateShader GL_VERTEX_SHADER 2; glShaderSource 2 (lit "ok");
     glCompileShader 2; glGetShaderiv 2 GL_COMPILE_STATUS GL_TRUE;
     glAttachShader 1 2;
     glCreateShader GL_FRAGMENT_SHADER 7; glShaderSource 7 (lit "bad");
     glCompileShader 7; glGetShaderiv 7 GL_COMPILE_STATUS GL_FALSE;
     glGetShaderiv 7 GL_INFO_LOG_LENGTH 6; glGetShaderInfoLog 7 6 (lit "error");
     glDeleteShader 7; HZ_CORE_ERROR (lit "error")]) by (vm_compute; reflexivity).
  split; [vm_compute; reflexivity|].
  split; [vm_compute; reflexivity|].
  split; [vm_compute; reflexivity|].
  split; [exact E|].
  rewrite E.
  split; intros H;
    repeat (apply elem_of_cons in H as [H|H]; [discriminate H|]);
    apply elem_of_nil in H; exact H.
Qed.

(** Where assertions are compiled out the loop is left by [break], the
    program is linked from the stages attached so far and, if the driver
    links it, stored as the handle. *)
Example Compile_stage_failure_without_assertions :
  let pf := example_platform false (example_files []) [lit "bad"] true (fun _ => 0) in
  let r := Compile pf example_bad_fragment fresh_shader [] in
  result_of r = Returns tt /\
  m_RendererID (object_of r) = 1 /\
  last (events_of r) = Some (glUseProgram 1).
Proof. repeat split; vm_compute; reflexivity. Qed.

(** ** The uniform uploader *)

Section Upload.
Variable pf : Platform.
Variable name : std_string.

Lemma get_location_run self tr :
  get_location pf name self tr =
    (Returns (glGetUniformLocation_ret pf (m_RendererID self) name), self,
     tr ++ [glGetUniformLocation (m_RendererID self) name
              (glGetUniformLocation_ret pf (m_RendererID self) name)]).
Proof. reflexivity. Qed.


(** C8: an upload whose name resolves to no slot (the lookup answers -1)
    returns normally, leaves the Shader object as it was, writes no
    diagnostic, and hands the driver nothing but the lookup and one
    [glUniform*] call at location -1. *)
Theorem upload_unresolved_name_is_silent (u : upload) (self : Shader) (tr : list event) :
  glGetUniformLocation_ret pf (m_RendererID self) name = -1 ->
  let r := call_upload pf name u self tr in
  result_of r = Returns tt /\
  object_of r = self /\
  (exists push,
      events_of r = tr ++ [glGetUniformLocation (m_RendererID self) name (-1); push] /\
      uniform_push_location push = Some (-1) /\
      is_diagnostic push = false).
Proof.
  intros Hloc.
  destruct u; cbn [call_upload]; run; rewrite Hloc;
    (split; [reflexivity | split; [reflexivity |]]);
    rewrite <- app_assoc; eexists; (split; [reflexivity | split; reflexivity]).
Qed.
End Upload.

Lemma upload_unresolved_name_is_silent_witness :
  let pf := example_platform true (fun _ => None) [] true (fun _ => -1) in
  let self := {| m_RendererID := 3; m_Name := lit "Texture" |} in
  let r := call_upload pf (lit "u_Color") (CallSetFloat4 (Build_vec4 0 0 0 0)) self [] in
  result_of r = Returns tt /\
  object_of r = self /\
  (exists push,
      events_of r = [] ++ [glGetUniformLocation 3 (lit "u_Color") (-1); push] /\
      uniform_push_location push = Some (-1) /\
      is_diagnostic push = false).
Proof.
  intros pf self.
  apply (upload_unresolved_name_is_silent pf (lit "u_Color")
           (CallSetFloat4 (Build_vec4 0 0 0 0)) self []).
  reflexivity.
Defined.

(** ** The vertex-array binder *)

#[local] Hint Unfold AddVertexBuffer_element AddVertexBuffer : hazel.

Section VertexArrayBinder.
Variable pf : Platform.

Lemma known_base_type asserts t :
  t <> None_ -> exists g, ShaderDataTypeToOpenGLBaseType asserts t = Returns g.
Proof. destruct t; intros H; try congruence; eexists; reflexivity. Qed.

Lemma uint32_small a : 0 <= a < 2 ^ 32 -> uint32 a = a.
Proof. intros H. unfold uint32. apply Z.mod_small. exact H. Qed.

Lemma slots_app a b : slots (a ++ b) = slots a ++ slots b.
Proof. unfold slots. apply omap_app. Qed.

Lemma AddVertexBuffer_element_run layout e self tr :
  Type_ e <> None_ ->
  exists ty,
    AddVertexBuffer_element pf layout e self tr =
      (Returns tt,
       {| va_RendererID := va_RendererID self;
          m_VertexBufferIndex := uint32 (m_VertexBufferIndex self + 1);
          m_VertexBuffers := m_VertexBuffers self |},
       tr ++ [glEnableVertexAttribArray (m_VertexBufferIndex self);
              glVertexAttribPointer (m_VertexBufferIndex self)
                (GetComponentCount e) ty
                (if Normalized e then GL_TRUE else GL_FALSE)
                (GetStride layout) (Offset e)]).
Proof.
  intros Hty.
  destruct (known_base_type (HZ_ENABLE_ASSERTS pf) _ Hty) as [ty Ety].
  exists ty. run. rewrite Ety. cbn. rewrite <- app_assoc. reflexivity.
Qed.

(** The element loop binds one slot per element, counting up from the
    array's counter. *)
Lemma AddVertexBuffer_elements_run layout elements :
  Forall (fun e => Type_ e <> None_) elements ->
  forall self tr,
    0 <= m_VertexBufferIndex self ->
    m_VertexBufferIndex self + Z.of_nat (length elements) <= 2 ^ 32 ->
    exists new,
      AddVertexBuffer_elements pf layout elements self tr =
        (Returns tt,
         {| va_RendererID := va_RendererID self;
            m_VertexBufferIndex :=
              if decide (elements = []) then m_VertexBufferIndex self
              else uint32 (m_VertexBufferIndex self + Z.of_nat (length elements));
            m_VertexBuffers := m_VertexBuffers self |},
         tr ++ new) /\
      slots new = seqZ (m_VertexBufferIndex self) (Z.of_nat (length elements)).
Proof.
  induction 1 as [|e rest He Hrest IH]; intros self tr Hlo Hhi.
  - exists []. split; [|reflexivity].
    cbn. rewrite app_nil_r. destruct self; reflexivity.
  - destruct (AddVertexBuffer_element_run layout e self tr He) as [ty Hstep].
    cbn [AddVertexBuffer_elements]. unfold mbind, M_bind. rewrite Hstep.
    rewrite decide_False by discriminate.
    cbn [length] in Hhi |- *.
    destruct rest as [|e' rest'].
    + eexists. split; [reflexivity|].
      cbn. rewrite seqZ_cons by lia. cbn. rewrite seqZ_nil by lia. reflexivity.
    + set (self1 := {| va_RendererID := va_RendererID self;
                       m_VertexBufferIndex := uint32 (m_VertexBufferIndex self + 1);
                       m_VertexBuffers := m_VertexBuffers self |}).
      cbn [length] in Hhi.
      assert (Hidx : m_VertexBufferIndex self1 = m_VertexBufferIndex self + 1).
      { cbn. apply uint32_small. lia. }
      destruct (IH self1 (tr ++ [glEnableVertexAttribArray (m_VertexBufferIndex self);
              glVertexAttribPointer (m_VertexBufferIndex self)
                (GetComponentCount e) ty
                (if Normalized e then GL_TRUE else GL_FALSE)
                (GetStride layout) (Offset e)]))
        as (new & Hrun & Hslots).
      { lia. }
      { rewrite Hidx. cbn [length]. lia. }
      rewrite Hrun. rewrite decide_False by discriminate.
      eexists. split.
      * rewrite <- app_assoc. rewrite Hidx. cbn [va_RendererID m_VertexBuffers self1].
        do 3 f_equal. f_equal. cbn [length]. lia.
      * rewrite slots_app, Hslots, Hidx.
        rewrite (seqZ_cons (m_VertexBufferIndex self)) by (cbn [length]; lia).
        cbn [slots omap slot_of app]. do 2 f_equal; cbn [length]; lia.
Qed.

Lemma AddVertexBuffer_run vb self tr :
  layout_ok vb ->
  0 <= m_VertexBufferIndex self ->
  m_VertexBufferIndex self + layout_size vb <= 2 ^ 32 ->
  exists new,
    AddVertexBuffer pf vb self tr =
      (Returns tt,
       {| va_RendererID := va_RendererID self;
          m_VertexBufferIndex := uint32 (m_VertexBufferIndex self + layout_size vb);
          m_VertexBuffers := m_VertexBuffers self ++ [vb] |},
       tr ++ new) /\
    slots new = seqZ (m_VertexBufferIndex self) (layout_size vb).
Proof.
  intros [Hne Hty] Hlo Hhi. unfold layout_size in *.
  destruct (AddVertexBuffer_elements_run (GetLayout vb) _ Hty self
              (tr ++ [glBindVertexArray (va_RendererID self);
                      VertexBuffer_Bind (vb_RendererID vb)]) Hlo Hhi)
    as (new & Hrun & Hslots).
  exists ([glBindVertexArray (va_RendererID self);
           VertexBuffer_Bind (vb_RendererID vb)] ++ new).
  split.
  - assert (Hassert : negb (Z.of_nat (length (GetElements (GetLayout vb))) =? 0) = true).
    { apply negb_true_iff, Z.eqb_neq.
      destruct (GetElements (GetLayout vb)); [congruence | cbn [length]; lia]. }
    unfold AddVertexBuffer, HZ_CORE_ASSERT. rewrite Hassert.
    run. rewrite <- app_assoc in Hrun. cbn [app] in Hrun.
    rewrite <- !app_assoc. cbn [app].
    rewrite Hrun. rewrite decide_False by assumption.
    cbn. reflexivity.
  - rewrite slots_app. cbn. exact Hslots.
Qed.

Lemma sumZ_nonneg ks : Forall (fun k => 0 <= k) ks -> 0 <= sumZ ks.
Proof.
  induction 1 as [|k ks Hk _ IH]; [reflexivity|].
  change (sumZ (k :: ks)) with (k + sumZ ks). lia.
Qed.

Lemma concat_fresh_ranges ks :
  Forall (fun k => 0 <= k) ks ->
  forall c, concat (fresh_ranges c ks) = seqZ c (sumZ ks).
Proof.
  induction 1 as [|k ks Hk Hks IH]; intros c; cbn.
  - reflexivity.
  - rewrite IH. symmetry. apply seqZ_app; [exact Hk|].
    apply sumZ_nonneg, Hks.
Qed.

Lemma layout_sizes_nonneg (buffers : list VertexBuffer) :
  Forall (fun k => 0 <= k) (layout_size <$> buffers).
Proof.
  apply Forall_fmap, Forall_forall. intros vb _. unfold layout_size. cbn.
  apply Nat2Z.is_nonneg.
Qed.


Lemma layout_ok_size vb : layout_ok vb -> 0 < layout_size vb.
Proof.
  intros [Hne _]. unfold layout_size.
  destruct (GetElements (GetLayout vb)); [congruence | cbn [length]; lia].
Qed.

Lemma AddVertexBuffers_run buffers :
  Forall layout_ok buffers ->
  forall self tr,
    0 <= m_VertexBufferIndex self ->
    m_VertexBufferIndex self + sumZ (layout_size <$> buffers) <= 2 ^ 32 ->
    exists new,
      AddVertexBuffers pf buffers self tr =
        (Returns tt,
         {| va_RendererID := va_RendererID self;
            m_VertexBufferIndex :=
              if decide (buffers = []) then m_VertexBufferIndex self
              else uint32 (m_VertexBufferIndex self + sumZ (layout_size <$> buffers));
            m_VertexBuffers := m_VertexBuffers self ++ buffers |},
         tr ++ new) /\
      slots new = seqZ (m_VertexBufferIndex self) (sumZ (layout_size <$> buffers)) /\
      slots_per_call pf buffers self tr =
        fresh_ranges (m_VertexBufferIndex self) (layout_size <$> buffers).
Proof.
  induction 1 as [|vb rest Hvb Hrest IH]; intros self tr Hlo Hhi.
  - exists []. cbn. rewrite !app_nil_r. destruct self; auto.
  - rewrite fmap_cons in Hhi |- *. cbn [sumZ foldr] in Hhi |- *.
    fold (sumZ (layout_size <$> rest)) in Hhi |- *.
    pose proof (sumZ_nonneg _ (layout_sizes_nonneg rest)) as Hsum.
    pose proof (layout_ok_size vb Hvb) as Hk.
    destruct (AddVertexBuffer_run vb self tr Hvb Hlo) as (new & Hrun & Hslots); [lia|].
    cbn [AddVertexBuffers slots_per_call fresh_ranges]. unfold mbind, M_bind.
    rewrite Hrun. cbn [events_of object_of snd fst].
    rewrite drop_app_length, Hslots, decide_False by discriminate.
    set (self1 := {| va_RendererID := va_RendererID self;
                     m_VertexBufferIndex :=
                       uint32 (m_VertexBufferIndex self + layout_size vb);
                     m_VertexBuffers := m_VertexBuffers self ++ [vb] |}).
    destruct rest as [|vb' rest'].
    + exists new. cbn. rewrite Z.add_0_r. auto.
    + assert (Hidx : m_VertexBufferIndex self1
                     = m_VertexBufferIndex self + layout_size vb).
      { cbn. apply uint32_small.
        apply Forall_cons in Hrest as [Hvb' _].
        pose proof (layout_ok_size vb' Hvb').
        pose proof (sumZ_nonneg _ (layout_sizes_nonneg rest')).
        rewrite fmap_cons in Hhi. cbn [sumZ foldr] in Hhi.
        fold (sumZ (layout_size <$> rest')) in Hhi. lia. }
      destruct (IH self1 (tr ++ new)) as (new' & Hrun' & Hslots' & Hper);
        [lia | rewrite Hidx; lia |].
      rewrite Hrun', Hper, decide_False by discriminate.
      exists (new ++ new'). rewrite Hidx in *. split; [|split].
      * cbn [va_RendererID m_VertexBuffers self1]. rewrite <- !app_assoc. cbn [app].
        do 3 f_equal. f_equal. lia.
      * rewrite slots_app, Hslots, Hslots'. symmetry. apply seqZ_app; lia.
      * reflexivity.
Qed.

(** C7: along any sequence of [AddVertexBuffer] calls with accepted
    layouts, the call for a layout of [k] elements binds exactly the [k]
    slots that follow the array's counter, the counter moves on by [k]
    and is never reset, so that the slots bound are all distinct. *)
Theorem AddVertexBuffers_fresh_slots (buffers : list VertexBuffer)
    (self : VertexArray) (tr : list event) :
  Forall layout_ok buffers ->
  0 <= m_VertexBufferIndex self < 2 ^ 32 ->
  m_VertexBufferIndex self + sumZ (layout_size <$> buffers) <= 2 ^ 32 ->
  let r := AddVertexBuffers pf buffers self tr in
  result_of r = Returns tt /\
  slots_per_call pf buffers self tr =
    fresh_ranges (m_VertexBufferIndex self) (layout_size <$> buffers) /\
  NoDup (concat (slots_per_call pf buffers self tr)) /\
  m_VertexBufferIndex (object_of r) =
    uint32 (m_VertexBufferIndex self + sumZ (layout_size <$> buffers)) /\
  m_VertexBuffers (object_of r) = m_VertexBuffers self ++ buffers.
Proof.
  intros Hok Hc Hhi r.
  destruct (AddVertexBuffers_run buffers Hok self tr) as (new & Hrun & Hslots & Hper);
    [lia | exact Hhi |].
  subst r. rewrite Hrun, Hper. cbn [result_of object_of fst snd m_VertexBufferIndex
                                    m_VertexBuffers].
  repeat split.
  - rewrite concat_fresh_ranges by apply layout_sizes_nonneg. apply NoDup_seqZ.
  - destruct buffers; [|reflexivity].
    cbn. rewrite Z.add_0_r. symmetry. apply uint32_small. exact Hc.
Qed.
End VertexArrayBinder.

Lemma AddVertexBuffers_fresh_slots_witness :
  let pf := example_platform true (example_files []) [] true (fun _ => 0) in
  let buffers := [example_buffer_2; example_buffer_3] in
  let r := AddVertexBuffers pf buffers fresh_vertex_array [] in
  result_of r = Returns tt /\
  slots_per_call pf buffers fresh_vertex_array [] = fresh_ranges 0 [2; 3] /\
  NoDup (concat (slots_per_call pf buffers fresh_vertex_array [])) /\
  m_VertexBufferIndex (object_of r) = uint32 (0 + 5) /\
  m_VertexBuffers (object_of r) = [] ++ buffers.
Proof.
  intros pf buffers.
  apply (AddVertexBuffers_fresh_slots pf buffers fresh_vertex_array []).
  - repeat constructor; discriminate.
  - split; [discriminate | reflexivity].
  - discriminate.
Defined.

(** Layouts of two and of three elements on a fresh array: slots 0-1 and
    2-4. *)
Example AddVertexBuffers_2_then_3 :
  let pf := example_platform true (example_files []) [] true (fun _ => 0) in
  slots_per_call pf [example_buffer_2; example_buffer_3] fresh_vertex_array []
  = [[0; 1]; [2; 3; 4]].
Proof. vm_compute. reflexivity. Qed.

(** ** The constructor from a file *)

Section FileName.

Lemma last_where_lt P s k : str.last_where P s = Some k -> (k < length s)%nat.
Proof.
  revert k. induction s as [|c s IH]; intros k; cbn; [discriminate|].
  destruct (str.last_where P s) as [j|].
  - intros [= <-]. specialize (IH j eq_refl). lia.
  - destruct (P c); [intros [= <-]; lia | discriminate].
Qed.

(** [last_where] finds a character that satisfies [P] and is followed by
    none that does. *)
Lemma last_where_Some P s k :
  str.last_where P s = Some k ->
  exists c, s !! k = Some c /\ P c = true /\
            Forall (fun c' => P c' = false) (drop (S k) s).
Proof.
  revert k. induction s as [|c s IH]; intros k; cbn; [discriminate|].
  destruct (str.last_where P s) as [j|] eqn:E.
  - intros [= <-]. destruct (IH j eq_refl) as (c' & ? & ? & ?). exists c'. auto.
  - destruct (P c) eqn:Pc; [|discriminate]. intros [= <-]. exists c.
    split; [reflexivity|]. split; [exact Pc|]. cbn. rewrite drop_0.
    clear -E. induction s as [|c' s IH]; [constructor|].
    cbn in E. destruct (str.last_where P s); [discriminate|].
    destruct (P c') eqn:Pc'; [discriminate|]. constructor; auto.
Qed.

Lemma last_where_None P s :
  str.last_where P s = None -> Forall (fun c => P c = false) s.
Proof.
  induction s as [|c s IH]; [constructor|].
  cbn. destruct (str.last_where P s); [discriminate|].
  destruct (P c) eqn:Pc; [discriminate|]. constructor; auto.
Qed.

(** The name the constructor extracts is the stem of the path. *)
Lemma name_of_filepath_stem filepath :
  str.fits filepath ->
  name_of_filepath filepath = Returns (file_stem filepath).
Proof.
  intros Hfits. apply fits_lt in Hfits.
  pose proof (eq_refl : 2 ^ 64 = 18446744073709551616) as Hpow.
  unfold name_of_filepath, file_stem, after_last_separator,
    str.find_last_of, str.rfind, str.substr, str.size.
  rewrite npos_value.
  destruct (str.last_where (str.is_one_of (lit "/\")) filepath) as [k|] eqn:Ek;
    destruct (str.last_where (Ascii.eqb ".") filepath) as [d|] eqn:Ed;
    try (apply last_where_lt in Ek); try (apply last_where_lt in Ed).
  all: repeat match goal with
         | |- context [Z.eqb ?a ?b] => destruct (Z.eqb_spec a b); try lia
         end.
  all: try destruct (Nat.leb_spec (S k) d).
  all: size_t_simpl.
  all: repeat match goal with
         | |- context [Z.ltb ?a ?b] => destruct (Z.ltb_spec a b); try lia
         end.
  all: rewrite ?Hpow; cbn [Nat.leb].
  all: f_equal; f_equal; first [lia | f_equal; lia].
Qed.

(** C10, amended: the stored name is the part of the path after the last
    separator (or from the beginning) up to the last ['.'], and up to the
    end of the path when there is no ['.'] or the last ['.'] comes before
    the last separator. *)
Theorem OpenGLShader_filepath_name pf filepath self tr :
  str.fits filepath ->
  name_of_filepath filepath = Returns (file_stem filepath) /\
  (let r := OpenGLShader_filepath pf filepath self tr in
   result_of r = Returns tt -> m_Name (object_of r) = file_stem filepath).
Proof.
  intros Hfits. pose proof (name_of_filepath_stem filepath Hfits) as Hname.
  split; [exact Hname|].
  unfold OpenGLShader_filepath, ReadFile. step.
  destruct (file_contents pf filepath) as [bytes|]; step.
  - destruct (PreProcess (HZ_ENABLE_ASSERTS pf) bytes) as [m|h]; [|discriminate].
    destruct (Compile pf m self tr) as [[[[]|h] self'] tr']; [|discriminate].
    rewrite Hname. reflexivity.
  - destruct (PreProcess (HZ_ENABLE_ASSERTS pf) []) as [m|h]; [|discriminate].
    destruct (Compile pf m self _) as [[[[]|h] self'] tr']; [|discriminate].
    rewrite Hname. reflexivity.
Qed.
End FileName.

(** C10 as first stated fails where the last ['.'] precedes the last
    separator: for ["./Texture"] the code stores ["Texture"], while nothing
    lies between the separator and the ['.']. *)
Lemma name_between_counterexample :
  let pf := example_platform true (example_files [lit "./Texture"]) [] true (fun _ => 0) in
  let r := OpenGLShader_filepath pf (lit "./Texture") fresh_shader [] in
  result_of r = Returns tt /\
  m_Name (object_of r) = lit "Texture" /\
  name_between (lit "./Texture") = [] /\
  name_of_filepath (lit "./Texture") <> Returns (name_between (lit "./Texture")).
Proof.
  intros pf r.
  split; [vm_compute; reflexivity|].
  split; [vm_compute; reflexivity|].
  split; [vm_compute; reflexivity|].
  intros H. vm_compute in H. discriminate H.
Qed.

Lemma OpenGLShader_filepath_name_witness :
  let pf := example_platform true (example_files [lit "assets/Texture.glsl"]) [] true
              (fun _ => 0) in
  let filepath := lit "assets/Texture.glsl" in
  name_of_filepath filepath = Returns (file_stem filepath) /\
  (let r := OpenGLShader_filepath pf filepath fresh_shader [] in
   result_of r = Returns tt -> m_Name (object_of r) = file_stem filepath).
Proof.
  intros pf filepath.
  apply (OpenGLShader_filepath_name pf filepath fresh_shader []).
  vm_compute. reflexivity.
Defined.

Example name_of_texture :
  file_stem (lit "assets/Texture.glsl") = lit "Texture".
Proof. reflexivity. Qed.

Section MissingFile.
Variable pf : Platform.
Hypothesis Horder : visits_each_entry_once pf.

Lemma PreProcess_empty asserts : PreProcess asserts [] = Returns ∅.
Proof. reflexivity. Qed.

Lemma iteration_order_nil : iteration_order pf ∅ = [].
Proof.
  apply Permutation_nil_r. rewrite (Horder ∅), map_to_list_empty. reflexivity.
Qed.

(** C9: for a file that does not open, [ReadFile] writes one error line
    and returns the empty string; the constructor does not stop there but
    goes on as for an empty file: the splitter returns the empty map,
    [Compile] is called on it and creates and links a program; the
    constructor completes with a program handle whenever the driver links
    that program. *)
Theorem OpenGLShader_filepath_missing_file filepath self tr :
  file_contents pf filepath = None ->
  let missing := HZ_CORE_ERROR (lit "Could not open file '" ++ filepath ++ lit "'") in
  ReadFile pf filepath self tr = (Returns [], self, tr ++ [missing]) /\
  PreProcess (HZ_ENABLE_ASSERTS pf) [] = Returns ∅ /\
  OpenGLShader_filepath pf filepath self tr =
    (Compile pf ∅;;
     name ← lift (name_of_filepath filepath);
     self ← this;
     store {| m_RendererID := m_RendererID self; m_Name := name |})
      self (tr ++ [missing]) /\
  (let program := gen_name pf (tr ++ [missing]) in
   exists rest,
     events_of (OpenGLShader_filepath pf filepath self tr) =
       tr ++ [missing; glCreateProgram program; glLinkProgram program;
              glGetProgramiv program GL_LINK_STATUS
                (glGetProgramiv_ret pf [] GL_LINK_STATUS)] ++ rest) /\
  (glGetProgramiv_ret pf [] GL_LINK_STATUS <> GL_FALSE ->
   str.fits filepath ->
   let r := OpenGLShader_filepath pf filepath self tr in
   let program := gen_name pf (tr ++ [missing]) in
   result_of r = Returns tt /\
   object_of r = {| m_RendererID := program; m_Name := file_stem filepath |} /\
   glCreateProgram program ∈ events_of r /\
   glLinkProgram program ∈ events_of r /\
   last (events_of r) = Some (glUseProgram program)).
Proof.
  intros Hmissing missing.
  assert (Hread : ReadFile pf filepath self tr = (Returns [], self, tr ++ [missing])).
  { unfold ReadFile. rewrite Hmissing. reflexivity. }
  assert (Hctor : OpenGLShader_filepath pf filepath self tr =
    (Compile pf ∅;;
     name ← lift (name_of_filepath filepath);
     self ← this;
     store {| m_RendererID := m_RendererID self; m_Name := name |})
      self (tr ++ [missing])).
  { unfold OpenGLShader_filepath. unfold mbind at 1, M_bind at 1.
    rewrite Hread. reflexivity. }
  split; [exact Hread|]. split; [reflexivity|]. split; [exact Hctor|].
  split.
  { intros program. rewrite Hctor.
    unfold Compile. run. rewrite map_size_empty, iteration_order_nil. run.
    fold missing. fold program.
    destruct (_ =? GL_FALSE); run.
    - destruct (HZ_ENABLE_ASSERTS pf); run;
        [|destruct (name_of_filepath filepath); run];
        eexists; rewrite <- !app_assoc; cbn [app]; reflexivity.
    - destruct (name_of_filepath filepath); run;
        eexists; rewrite <- !app_assoc; cbn [app]; reflexivity. }
  intros Hlink Hfits r program. subst r. rewrite Hctor.
  apply Z.eqb_neq in Hlink.
  unfold Compile. run. rewrite map_size_empty, iteration_order_nil.
  run. rewrite Hlink. run.
  rewrite (name_of_filepath_stem filepath Hfits).
  fold missing. fold program.
  repeat split.
  - rewrite <- !app_assoc. apply elem_of_app. right. cbn.
    apply list_elem_of_further, list_elem_of_here.
  - rewrite <- !app_assoc. apply elem_of_app. right. cbn.
    do 2 apply list_elem_of_further. apply list_elem_of_here.
  - apply last_snoc.
Qed.
End MissingFile.

Lemma OpenGLShader_filepath_missing_file_witness :
  let pf := example_platform true (example_files []) [] true (fun _ => 0) in
  let filepath := lit "assets/Missing.glsl" in
  let missing := HZ_CORE_ERROR (lit "Could not open file 'assets/Missing.glsl'") in
  let r := OpenGLShader_filepath pf filepath fresh_shader [] in
  result_of r = Returns tt /\
  object_of r = {| m_RendererID := 2; m_Name := lit "Missing" |} /\
  events_of r = [missing; glCreateProgram 2; glLinkProgram 2;
                 glGetProgramiv 2 GL_LINK_STATUS GL_TRUE;
                 glDetachShader 2 0; glDetachShader 2 0; glUseProgram 2].
Proof.
  intros pf filepath missing r.
  pose proof (OpenGLShader_filepath_missing_file pf
                (fun m => reflexivity (map_to_list m))
                filepath fresh_shader [] eq_refl) as (_ & _ & _ & _ & H).
  specialize (H ltac:(discriminate) ltac:(vm_compute; reflexivity)).
  destruct H as (H1 & H2 & _).
  split; [exact H1|]. split; [exact H2|].
  vm_compute. reflexivity.
Defined.

(** ** More on the source splitter *)

Set Warnings "-clear-no-such-hyp".

Section SplitterMore.
Implicit Types (s a : std_string) (b : block) (bs : list block).

Lemma marker_free_search s :
  marker_free s -> str.first_where (str.starts_with typeToken) s = None.
Proof.
  intros Hfree.
  destruct (str.first_where (str.starts_with typeToken) s) as [k|] eqn:E;
    [|reflexivity].
  apply first_where_Some in E as (_ & Hk & _). rewrite (Hfree k) in Hk.
  discriminate.
Qed.

(** X1: A file without marker, the empty file among them, is split into the
    empty map, in either build. *)
Theorem PreProcess_no_marker asserts s :
  marker_free s -> PreProcess asserts s = Returns ∅.
Proof.
  intros Hfree. unfold PreProcess.
  replace (str.find typeToken 0 s) with str.npos; [apply PreProcess_loop_done|].
  unfold str.find, str.search_from.
  destruct (Z.ltb_spec (str.size s) 0) as [|_]; [reflexivity|].
  cbn [Z.to_nat drop]. rewrite marker_free_search by exact Hfree. reflexivity.
Qed.

Lemma blocks_source_cons b bs :
  blocks_source (b :: bs) = block_source b ++ blocks_source bs.
Proof. reflexivity. Qed.

Lemma blocks_source_marker bs :
  blocks_source bs = [] \/ exists rest, blocks_source bs = typeToken ++ rest.
Proof.
  destruct bs as [|b bs]; [left; reflexivity|right].
  destruct (block_source_marker b) as [rest E].
  exists (rest ++ blocks_source bs).
  rewrite blocks_source_cons, E, <- app_assoc. reflexivity.
Qed.

Lemma block_source_length b : (6 <= length (block_source b))%nat.
Proof.
  unfold block_source, marker_line. rewrite !length_app. cbn. lia.
Qed.

(** The loop, entered at the marker of the first of the blocks [bs]
    that make up the rest of the input. *)
Lemma PreProcess_loop_blocks asserts bs :
  Forall block_ok bs ->
  last_block_has_text bs ->
  forall before m fuel,
    bs <> [] ->
    str.fits (before ++ blocks_source bs) ->
    (length bs <= fuel)%nat ->
    PreProcess_loop fuel asserts (before ++ blocks_source bs) (str.size before) m =
      Returns (blocks_map bs m).
Proof.
  induction 1 as [|b rest Hb Hrest IH]; intros Hlast before m fuel Hne Hfits Hfuel;
    [congruence|].
  destruct fuel as [|fuel]; [cbn in Hfuel; lia|].
  rewrite blocks_source_cons in *.
  rewrite PreProcess_loop_turn.
  2: { apply fits_lt in Hfits. rewrite length_app in Hfits.
       rewrite npos_value. unfold str.size. lia. }
  rewrite PreProcess_step_block; [| exact Hb | | exact Hfits].
  2: { destruct rest as [|b' rest'].
       - left. split; [reflexivity|]. apply Hlast. reflexivity.
       - right. destruct (blocks_source_marker (b' :: rest')) as [E|E]; [|exact E].
         rewrite blocks_source_cons in E. apply (f_equal length) in E.
         pose proof (block_source_length b'). rewrite length_app in E. cbn in E. lia. }
  obind. cbn [fst snd blocks_map foldl].
  destruct rest as [|b' rest'].
  - cbn [blocks_source fmap list_fmap concat]. apply PreProcess_loop_done.
  - replace (match blocks_source (b' :: rest') with
             | [] => str.npos
             | _ => str.size (before ++ block_source b)
             end) with (str.size (before ++ block_source b)).
    2: { destruct (blocks_source (b' :: rest')) eqn:E; [|reflexivity].
         rewrite blocks_source_cons in E. apply (f_equal length) in E.
         pose proof (block_source_length b'). rewrite length_app in E. cbn in E. lia. }
    rewrite (app_assoc before). apply IH.
    + intros b0 Hb0. apply Hlast. exact Hb0.
    + discriminate.
    + rewrite <- app_assoc. exact Hfits.
    + cbn [length] in Hfuel |- *. lia.
Qed.

Lemma PreProcess_blocks_map asserts pre bs :
  marker_free pre ->
  bs <> [] ->
  Forall block_ok bs ->
  last_block_has_text bs ->
  str.fits (pre ++ blocks_source bs) ->
  PreProcess asserts (pre ++ blocks_source bs) = Returns (blocks_map bs ∅).
Proof.
  intros Hpre Hne Hok Hlast Hfits. unfold PreProcess.
  destruct (blocks_source_marker bs) as [E|[rest E]].
  { destruct bs as [|b bs']; [congruence|].
    rewrite blocks_source_cons in E. apply (f_equal length) in E.
    pose proof (block_source_length b). rewrite length_app in E. cbn in E. lia. }
  replace (str.find typeToken 0 (pre ++ blocks_source bs)) with (str.size pre)
    by (rewrite E; symmetry; apply find_first_marker, Hpre).
  apply PreProcess_loop_blocks; try assumption.
  rewrite length_app. 
  assert (length bs <= length (blocks_source bs))%nat; [|lia].
  clear. induction bs as [|b bs IH]; [cbn; lia|].
  rewrite blocks_source_cons, length_app. pose proof (block_source_length b).
  cbn [length]. lia.
Qed.

Lemma blocks_map_size bs : (size (blocks_map bs ∅) <= 2)%nat.
Proof.
  assert (Hdom : forall m0 : gmap Z std_string,
             dom (blocks_map bs m0) ⊆ dom m0 ∪ {[GL_VERTEX_SHADER; GL_FRAGMENT_SHADER]}).
  { induction bs as [|b bs' IH]; intros m0; cbn; [set_solver|].
    etransitivity; [apply IH|]. rewrite dom_insert.
    destruct (stage_kind_cases (stage_name b)) as [-> | ->]; set_solver. }
  specialize (Hdom ∅). rewrite dom_empty_L, (left_id_L ∅ (∪)) in Hdom.
  rewrite <- size_dom. etransitivity; [apply subseteq_size, Hdom|].
  rewrite size_union by set_solver. rewrite !size_singleton. lia.
Qed.

(** X2: A file of any number of well-formed stage blocks after a preamble
    without marker: every block's text is entered under its stage kind,
    in the order of the file, so that of several blocks of one kind the
    last one stays. *)
Theorem PreProcess_blocks asserts pre bs :
  marker_free pre ->
  bs <> [] ->
  Forall block_ok bs ->
  last_block_has_text bs ->
  str.fits (pre ++ blocks_source bs) ->
  exists m : gmap Z std_string,
    PreProcess asserts (pre ++ blocks_source bs) = Returns m /\
    m = blocks_map bs ∅ /\
    (forall b, last bs = Some b -> m !! stage_kind (stage_name b) = Some (text b)) /\
    (size m <= 2)%nat.
Proof.
  intros Hpre Hne Hok Hlast Hfits.
  exists (blocks_map bs ∅). split; [apply PreProcess_blocks_map; assumption|].
  split; [reflexivity|]. split.
  - intros b Hb. apply last_Some in Hb as [bs' ->].
    unfold blocks_map. rewrite foldl_app. cbn. apply lookup_insert_eq.
  - apply blocks_map_size.
Qed.

(** *** What every run of the splitter keeps *)

(** The entry a completed turn adds: the key of the name it read, and the
    input from the first character after the line breaks up to the next
    marker or the end. *)
Lemma PreProcess_step_entry asserts source pos m pos' m' :
  str.fits source -> 0 <= pos ->
  PreProcess_step asserts source pos m = Returns (pos', m') ->
  let next := str.find_first_not_of line_breaks
                (str.find_first_of line_breaks pos source) source in
  exists type key,
    ShaderTypeFromString asserts type = Returns key /\
    m' = <[key := take (Z.to_nat ((if pos' =? str.npos then str.size source else pos')
                                  - next))
                    (drop (Z.to_nat next) source)]> m.
Proof.
  intros Hfits Hpos Hstep. cbv zeta.
  destruct (PreProcess_step_returns _ _ _ _ _ _ Hfits Hpos Hstep)
    as (Heol & Hnext & H1 & H2 & H3 & -> & _).
  unfold PreProcess_step in Hstep.
  set (eol := str.find_first_of line_breaks pos source) in *.
  set (next := str.find_first_not_of line_breaks eol source) in *.
  destruct (HZ_CORE_ASSERT asserts _ _) as [[]|h0]; [|discriminate].
  obind_in Hstep.
  destruct (str.substr source (str.add _ _) _) as [type|h1]; [|discriminate].
  obind_in Hstep.
  destruct (Z.eqb_spec next str.npos) as [|_]; [contradiction|].
  unfold str.substr in Hstep.
  destruct (Z.ltb_spec (str.size source) next) as [|_]; [lia|].
  obind_in Hstep.
  destruct (ShaderTypeFromString asserts type) as [key|h3] eqn:E3; [|discriminate].
  obind_in Hstep. injection Hstep as <-.
  exists type, key. split; [exact E3|]. do 3 f_equal.
  pose proof (fits_lt _ Hfits) as Hlt. fold (str.size source) in Hlt.
  destruct (find_range source next Hfits ltac:(lia)) as [Hnone|[Hr _]].
  - rewrite Hnone, Z.eqb_refl.
    rewrite sub_small by (rewrite npos_value; lia). rewrite npos_value. lia.
  - destruct (Z.eqb_spec (str.find typeToken next source) str.npos) as [E|_].
    + rewrite E, npos_value in Hr. lia.
    + rewrite sub_small by lia. lia.
Qed.

Lemma HZ_CORE_ASSERT_release c msg :
  HZ_CORE_ASSERT true c msg = Returns tt -> HZ_CORE_ASSERT false c msg = Returns tt.
Proof. destruct c; reflexivity. Qed.

Lemma ShaderTypeFromString_release type key :
  ShaderTypeFromString true type = Returns key ->
  ShaderTypeFromString false type = Returns key.
Proof.
  unfold ShaderTypeFromString.
  destruct (std_string_eqb type (lit "vertex")); [auto|].
  destruct (_ || _); [auto|]. discriminate.
Qed.

Lemma PreProcess_step_release source pos m r :
  PreProcess_step true source pos m = Returns r ->
  PreProcess_step false source pos m = Returns r.
Proof.
  unfold PreProcess_step.
  destruct (HZ_CORE_ASSERT true _ _) as [[]|h0] eqn:Ea; [|discriminate].
  rewrite (HZ_CORE_ASSERT_release _ _ Ea). obind.
  destruct (str.substr source (str.add _ _) _) as [type|h1]; [|discriminate].
  obind.
  destruct (str.substr source (str.find_first_not_of _ _ _) _) as [text0|h2];
    [|discriminate].
  obind.
  destruct (ShaderTypeFromString true type) as [key|h3] eqn:E3; [|discriminate].
  rewrite (ShaderTypeFromString_release _ _ E3). obind. auto.
Qed.

(** X5: Whatever the splitter returns with assertions compiled in, it
    returns with assertions compiled out. *)
Theorem PreProcess_release_agrees source m :
  PreProcess true source = Returns m -> PreProcess false source = Returns m.
Proof.
  unfold PreProcess. generalize (S (length source)) as fuel.
  generalize (str.find typeToken 0 source) as pos.
  generalize (∅ : gmap Z std_string) as m0.
  intros m0 pos fuel. revert m0 pos.
  induction fuel as [|fuel IH]; intros m0 pos; cbn [PreProcess_loop].
  - destruct (pos =? str.npos); [auto | discriminate].
  - destruct (pos =? str.npos); [auto|].
    destruct (PreProcess_step true source pos m0) as [r|h] eqn:E; [|discriminate].
    rewrite (PreProcess_step_release _ _ _ _ E). obind. apply IH.
Qed.

Lemma ShaderTypeFromString_key asserts type key :
  ShaderTypeFromString asserts type = Returns key ->
  key = GL_VERTEX_SHADER \/ key = GL_FRAGMENT_SHADER \/ (asserts = false /\ key = 0).
Proof.
  unfold ShaderTypeFromString.
  destruct (std_string_eqb type (lit "vertex")); [intros [= <-]; auto|].
  destruct (_ || _); [intros [= <-]; auto|].
  destruct asserts; cbn; [discriminate|]. intros [= <-]. auto.
Qed.

(** A property that holds of every entry a turn adds holds of every entry
    of the map that is returned. *)
Lemma PreProcess_entries asserts source (Q : GLenum -> std_string -> Prop) :
  str.fits source ->
  (forall pos m pos' m' type key,
      0 <= pos <= str.size source ->
      PreProcess_step asserts source pos m = Returns (pos', m') ->
      ShaderTypeFromString asserts type = Returns key ->
      let next := str.find_first_not_of line_breaks
                    (str.find_first_of line_breaks pos source) source in
      Q key (take (Z.to_nat ((if pos' =? str.npos then str.size source else pos')
                             - next))
               (drop (Z.to_nat next) source))) ->
  forall m, PreProcess asserts source = Returns m ->
            forall key text, m !! key = Some text -> Q key text.
Proof.
  intros Hfits Hstep m. unfold PreProcess.
  assert (Hinit : forall key text,
             (∅ : gmap Z std_string) !! key = Some text -> Q key text).
  { intros key text H. rewrite lookup_empty in H. discriminate. }
  assert (Hpos0 : str.find typeToken 0 source = str.npos \/
                  0 <= str.find typeToken 0 source <= str.size source).
  { destruct (find_range source 0 Hfits ltac:(lia)) as [|[Hr _]];
      [left; assumption | right; lia]. }
  revert Hinit Hpos0.
  generalize (S (length source)) as fuel.
  generalize (str.find typeToken 0 source) as pos.
  generalize (∅ : gmap Z std_string) as m0.
  intros m0 pos fuel. revert m0 pos.
  induction fuel as [|fuel IH]; intros m0 pos Hm0 Hpos; cbn [PreProcess_loop].
  - destruct (pos =? str.npos); [intros [= <-]; exact Hm0 | discriminate].
  - destruct (Z.eqb_spec pos str.npos) as [|Hne]; [intros [= <-]; exact Hm0|].
    destruct Hpos as [|Hpos]; [contradiction|].
    destruct (PreProcess_step asserts source pos m0) as [[pos' m']|h] eqn:E;
      [|discriminate].
    obind. cbn [fst snd].
    destruct (PreProcess_step_entry _ _ _ _ _ _ Hfits (proj1 Hpos) E)
      as (type & key & Hkey & Hm').
    destruct (PreProcess_step_returns _ _ _ _ _ _ Hfits (proj1 Hpos) E)
      as (_ & _ & H1 & H2 & H3 & Hp' & _).
    apply IH.
    + intros key' text' Hlook. rewrite Hm' in Hlook.
      destruct (decide (key = key')) as [->|Hk].
      * rewrite lookup_insert_eq in Hlook. injection Hlook as <-.
        eapply Hstep; eassumption.
      * apply Hm0. rewrite lookup_insert_ne in Hlook by exact Hk. exact Hlook.
    + rewrite Hp'.
      destruct (find_range source
                  (str.find_first_not_of line_breaks
                     (str.find_first_of line_breaks pos source) source)
                  Hfits ltac:(lia)) as [|[Hr _]]; [left; assumption | right; lia].
Qed.

(** X3: With assertions compiled in, the map the splitter returns has no
    other keys than the two stage kinds, hence at most two entries: the
    assertion on the number of stages in [Compile] holds for it.  With
    assertions compiled out an unknown name adds the key 0. *)
Theorem PreProcess_keys asserts source m :
  str.fits source ->
  PreProcess asserts source = Returns m ->
  dom m ⊆ (if asserts then {[GL_VERTEX_SHADER; GL_FRAGMENT_SHADER]}
           else {[GL_VERTEX_SHADER; GL_FRAGMENT_SHADER; 0]}) /\
  (asserts = true -> (Z.of_nat (size m) <=? 2) = true).
Proof.
  intros Hfits Hret.
  assert (Hdom : dom m ⊆ (if asserts then {[GL_VERTEX_SHADER; GL_FRAGMENT_SHADER]}
                          else {[GL_VERTEX_SHADER; GL_FRAGMENT_SHADER; 0]})).
  { intros key Hkey. apply elem_of_dom in Hkey as [text Hkey].
    revert key text Hkey.
    apply (PreProcess_entries asserts source
             (fun key _ => key ∈ (if asserts
                                  then ({[GL_VERTEX_SHADER; GL_FRAGMENT_SHADER]} : gset Z)
                                  else {[GL_VERTEX_SHADER; GL_FRAGMENT_SHADER; 0]}))
             Hfits); [|exact Hret].
    intros pos m0 pos' m' type key _ _ Hkey _.
    apply ShaderTypeFromString_key in Hkey as [->|[->|[-> ->]]];
      try destruct asserts; set_solver. }
  split; [exact Hdom|].
  intros ->. apply Z.leb_le.
  rewrite <- size_dom. apply subseteq_size in Hdom.
  rewrite size_union in Hdom by set_solver. rewrite !size_singleton in Hdom. lia.
Qed.

Lemma starts_with_take tok k s :
  str.starts_with tok (take k s) = true ->
  str.starts_with tok s = true /\ (length tok <= k)%nat.
Proof.
  revert k s. induction tok as [|c tok IH]; intros k s H; [cbn; split; [reflexivity|lia]|].
  destruct k as [|k]; [destruct s; discriminate|].
  destruct s as [|c' s]; [discriminate|].
  cbn in H |- *. apply andb_true_iff in H as [Hc H].
  destruct (IH _ _ H) as [H1 H2]. rewrite Hc, H1. split; [reflexivity|lia].
Qed.

Lemma head_in_take chars k s :
  str.head_in chars (take k s) = true -> str.head_in chars s = true.
Proof. destruct k, s; cbn; auto; discriminate. Qed.

(** X4: Every stage text in the map the splitter returns is a contiguous
    piece of the input, contains no marker, and does not begin with a
    line break. *)
Theorem PreProcess_texts asserts source m key text :
  str.fits source ->
  PreProcess asserts source = Returns m ->
  m !! key = Some text ->
  piece_of text source /\ marker_free text /\
  str.head_in line_breaks text = false.
Proof.
  intros Hfits Hret. revert key text.
  apply (PreProcess_entries asserts source
           (fun _ text => piece_of text source /\ marker_free text /\
                          str.head_in line_breaks text = false) Hfits);
    [|exact Hret].
  intros pos m0 pos' m' type key Hpos Hstep _ next.
  destruct (PreProcess_step_returns _ _ _ _ _ _ Hfits (proj1 Hpos) Hstep)
    as (Heol & Hnext & H1 & H2 & H3 & Hp' & _).
  fold next in Hnext, H2, H3, Hp'.
  assert (Heol_pos : 0 <= str.find_first_of line_breaks pos source) by lia.
  destruct (search_from_found (str.head_not_in line_breaks)
              (str.find_first_of line_breaks pos source) source Hfits Heol_pos Hnext)
    as (_ & Hnlb & _).
  fold (str.find_first_not_of line_breaks
          (str.find_first_of line_breaks pos source) source) in Hnlb.
  fold next in Hnlb.
  set (k := Z.to_nat next) in *.
  set (n := Z.to_nat ((if pos' =? str.npos then str.size source else pos') - next)).
  split; [|split].
  - exists (take k source), (drop n (drop k source)).
    rewrite take_drop, take_drop. reflexivity.
  - intros i.
    destruct (str.starts_with typeToken (drop i (take n (drop k source)))) eqn:E;
      [exfalso|reflexivity].
    rewrite skipn_firstn_comm in E. apply starts_with_take in E as [E Hlen].
    rewrite drop_drop in E. cbn [length typeToken lit list_ascii_of_string] in Hlen.
    pose proof (marker_at_length source (k + i) E) as Hin.
    destruct (Z.eqb_spec pos' str.npos) as [Hnone|Hsome].
    + rewrite Hp' in Hnone.
      pose proof (search_from_missing _ next source ltac:(lia) Hnone Hfits
                    (Z.of_nat (k + i)) ltac:(unfold str.size; lia)) as Hmiss.
      rewrite Nat2Z.id in Hmiss. congruence.
    + rewrite Hp' in Hsome.
      destruct (search_from_found _ next source Hfits ltac:(lia) Hsome)
        as (Hr & _ & Hmin).
      fold (str.find typeToken next source) in Hr, Hmin. rewrite <- Hp' in Hr, Hmin.
      specialize (Hmin (Z.of_nat (k + i)) ltac:(lia)).
      rewrite Nat2Z.id in Hmin. congruence.
  - destruct (str.head_in line_breaks (take n (drop k source))) eqn:E; [|reflexivity].
    apply head_in_take in E. exfalso. eapply head_in_not_in; eassumption.
Qed.

(** X6: Every completed turn of the loop moves on to a later marker or to the
    end, so the loop ends: the splitter returns a map or stops on a failed
    assertion or an exception. *)
Theorem PreProcess_advances asserts source :
  str.fits source ->
  (forall pos m pos' m',
      0 <= pos ->
      PreProcess_step asserts source pos m = Returns (pos', m') ->
      pos' = str.npos \/
      (pos < pos' <= str.size source /\ marker_at source (Z.to_nat pos'))) /\
  ((exists m, PreProcess asserts source = Returns m) \/
   (exists h, PreProcess asserts source = Halts h /\ is_failure h = true)).
Proof.
  intros Hfits. split.
  - intros pos m pos' m' Hpos Hstep.
    destruct (PreProcess_step_returns _ _ _ _ _ _ Hfits Hpos Hstep)
      as (_ & _ & H1 & H2 & H3 & -> & _).
    destruct (find_range source
                (str.find_first_not_of line_breaks
                   (str.find_first_of line_breaks pos source) source)
                Hfits ltac:(lia)) as [|[Hr Hm]]; [left; assumption|right].
    split; [lia | exact Hm].
  - pose proof (PreProcess_total asserts source Hfits) as H.
    destruct (PreProcess asserts source) as [m|h]; [left|right]; eauto.
Qed.
End SplitterMore.

(** ** More on compiling and linking *)

Section CompileMore.
Variable pf : Platform.

(** The stage loop never touches the shader object and issues no call
    that concerns the program other than attaching stages to it. *)
Lemma Compile_stages_frame program entries :
  forall attached ids idx self tr,
  exists new,
    object_of (Compile_stages pf program entries attached ids idx self tr) = self /\
    events_of (Compile_stages pf program entries attached ids idx self tr) = tr ++ new /\
    Forall (fun e => is_program_call e = false) new.
Proof.
  induction entries as [|[ty text] rest IH]; intros attached ids idx self tr.
  - exists []. cbn. rewrite app_nil_r. auto.
  - cbn [Compile_stages]. run.
    destruct (_ =? GL_FALSE).
    + run. destruct (HZ_ENABLE_ASSERTS pf); run;
        eexists; rewrite <- !app_assoc; cbn [app];
        (split; [reflexivity|]); (split; [reflexivity|]); repeat constructor.
    + run.
      destruct (idx =? 0); [|destruct (idx =? 1)]; run;
        try (match goal with
             | |- context [Compile_stages pf program rest ?a ?i ?n ?s ?t] =>
                 destruct (IH a i n s t) as (new & Ho & He & Hq);
                 unfold object_of, events_of in Ho, He; rewrite Ho, He
             end);
        eexists; rewrite <- !app_assoc; cbn [app];
        (split; [reflexivity|]); (split; [reflexivity|]);
        repeat constructor; try exact Hq.
Qed.

Lemma Compile_object (shaderSources : gmap Z std_string)
    (self : Shader) (tr : list event) :
  let program := gen_name pf tr in
  let r := Compile pf shaderSources self tr in
  m_Name (object_of r) = m_Name self /\
  (object_of r = self \/
   (result_of r = Returns tt /\
    object_of r = {| m_RendererID := program; m_Name := m_Name self |} /\
    last (events_of r) = Some (glUseProgram program) /\
    exists status, status <> GL_FALSE /\
                   glGetProgramiv program GL_LINK_STATUS status ∈ events_of r)) /\
  (HZ_ENABLE_ASSERTS pf = true -> result_of r = Returns tt ->
   object_of r = {| m_RendererID := program; m_Name := m_Name self |}).
Proof.
  intros program r. subst r. unfold Compile. run. fold program.
  destruct (HZ_ENABLE_ASSERTS pf) eqn:Hasserts;
    destruct (Z.of_nat (size shaderSources) <=? 2); run;
    try (split; [reflexivity|]; split; [left; reflexivity | discriminate]).
  all: match goal with
       | |- context [Compile_stages pf ?p ?e ?a ?i ?n ?s ?t] =>
           destruct (Compile_stages_frame p e a i n s t) as (new & Ho & He & _);
           unfold object_of, events_of in Ho, He;
           destruct (Compile_stages pf p e a i n s t)
             as [[[[attached ids]|h] self'] tr'];
           cbn [fst snd] in Ho, He; subst self' tr'
       end; run;
    try (split; [reflexivity|]; split; [left; reflexivity | discriminate]).
  all: match goal with
       | |- context [glGetProgramiv_ret pf ?a GL_LINK_STATUS =? GL_FALSE] =>
           destruct (Z.eqb_spec (glGetProgramiv_ret pf a GL_LINK_STATUS) GL_FALSE)
             as [Hl|Hl]
       end; run;
    try (split; [reflexivity|]; split; [left; reflexivity | discriminate]).
  all: split; [reflexivity|]; split; [|reflexivity]; right;
    split; [reflexivity|]; split; [reflexivity|]; split; [apply last_snoc|];
    eexists; split; [exact Hl|]; rewrite <- !app_assoc; cbn [app]; find_in.
Qed.

(** X9: In whatever way [Compile] ends, the name of the shader is kept, and
    the handle is either kept or is the new program; the latter only
    when [Compile] returns after the driver reported a successful link,
    and then the program is also made the active one.  With assertions
    compiled in, [Compile] returns only in that case. *)
Theorem Compile_handle (shaderSources : gmap Z std_string)
    (self : Shader) (tr : list event) :
  let program := gen_name pf tr in
  let r := Compile pf shaderSources self tr in
  m_Name (object_of r) = m_Name self /\
  (object_of r = self \/
   (result_of r = Returns tt /\
    object_of r = {| m_RendererID := program; m_Name := m_Name self |} /\
    last (events_of r) = Some (glUseProgram program) /\
    exists status, status <> GL_FALSE /\
                   glGetProgramiv program GL_LINK_STATUS status ∈ events_of r)) /\
  (HZ_ENABLE_ASSERTS pf = true -> result_of r = Returns tt ->
   object_of r = {| m_RendererID := program; m_Name := m_Name self |}).
Proof.
  intros program r.
  destruct (Compile_object shaderSources self tr) as (Hname & Hcases & Hdebug).
  split; [exact Hname|]. split; [|exact Hdebug].
  destruct Hcases as [Hkept | Hnew]; [left; exact Hkept | right; exact Hnew].
Qed.

Hypothesis Horder : visits_each_entry_once pf.



(** The stage loop with more stages than the array has slots. *)
Lemma Compile_stages_overrun program entries :
  Forall (fun e => (glGetShaderiv_ret pf e.1 e.2 GL_COMPILE_STATUS =? GL_FALSE) = false)
    entries ->
  forall attached ids idx self tr,
    0 <= idx <= 2 -> 2 < idx + Z.of_nat (length entries) ->
    result_of (Compile_stages pf program entries attached ids idx self tr)
    = Halts Undefined.
Proof.
  induction 1 as [|[ty text] rest Hok _ IH]; intros attached ids idx self tr Hidx Hlen.
  - cbn [length] in Hlen. lia.
  - cbn in Hok. cbn [Compile_stages]. run. rewrite Hok. run.
    destruct (Z.eqb_spec idx 0) as [->|H0]; [|destruct (Z.eqb_spec idx 1) as [->|H1]];
      run.
    + apply IH; cbn [length] in Hlen; lia.
    + apply IH; cbn [length] in Hlen; lia.
    + reflexivity.
Qed.

(** X12: More than two stages: with assertions compiled in, [Compile] stops
    right after creating the program object, which it does not delete;
    with assertions compiled out and every stage compiling, the third
    shader is stored past the end of [glShaderIDs]. *)
Theorem Compile_too_many_stages (shaderSources : gmap Z std_string)
    (self : Shader) (tr : list event) :
  (2 < size shaderSources)%nat ->
  let program := gen_name pf tr in
  let r := Compile pf shaderSources self tr in
  (HZ_ENABLE_ASSERTS pf = true ->
   r = (Halts (AssertionFailed "We only support 2 shaders for the moment"),
        self, tr ++ [glCreateProgram program])) /\
  (HZ_ENABLE_ASSERTS pf = false -> all_stages_compile pf shaderSources ->
   result_of r = Halts Undefined /\ object_of r = self).
Proof.
  intros Hsize program r.
  assert (Hassert : (Z.of_nat (size shaderSources) <=? 2) = false) by (apply Z.leb_gt; lia).
  subst r. unfold Compile. run. fold program. rewrite Hassert. split.
  - intros ->. reflexivity.
  - intros -> Hall. run.
    pose proof (Compile_stages_overrun program (iteration_order pf shaderSources)
                  (all_stages_compile_order pf Horder _ Hall) [] (indeterminate pf) 0
                  self (tr ++ [glCreateProgram program]) ltac:(lia)) as Hover.
    rewrite (iteration_order_length pf Horder) in Hover. specialize (Hover ltac:(lia)).
    destruct (Compile_stages_frame program (iteration_order pf shaderSources) []
                (indeterminate pf) 0 self (tr ++ [glCreateProgram program]))
      as (new & Ho & _).
    unfold result_of, object_of in Hover, Ho.
    destruct (Compile_stages pf program _ _ _ _ _ _) as [[[x|h] self'] tr'];
      cbn [fst snd] in Hover, Ho; [discriminate|].
    injection Hover as ->. subst self'. run. auto.
Qed.
End CompileMore.

(** ** Building a shader: a run of [Compile], and the constructors *)

Section BuildMore.
Lemma stage_built_app program ty text a b :
  stage_built program ty text b -> stage_built program ty text (a ++ b).
Proof.
  intros (id & H1 & H2 & H3 & H4). exists id.
  repeat split; apply elem_of_app; right; assumption.
Qed.

Lemma stage_built_app_l program ty text a b :
  stage_built program ty text a -> stage_built program ty text (a ++ b).
Proof.
  intros (id & H1 & H2 & H3 & H4). exists id.
  repeat split; apply elem_of_app; left; assumption.
Qed.

Lemma setup_is_quiet st e :
  Forall (fun e => is_stage_setup e = true) st -> e ∈ st ->
  is_diagnostic e = false /\ (forall id, e <> glDeleteShader id) /\
  (forall p, e <> glDeleteProgram p) /\ (forall p, e <> glUseProgram p).
Proof.
  intros Hst Hin. rewrite Forall_forall in Hst. specialize (Hst e Hin).
  destruct e; cbn in Hst; try discriminate; repeat split; discriminate.
Qed.

Lemma two_sources_size v f : (size (two_sources v f) <= 2)%nat.
Proof.
  unfold two_sources. rewrite <- size_dom, !dom_insert_L, dom_empty_L.
  rewrite (right_id_L ∅ (∪)). rewrite size_union by set_solver.
  rewrite !size_singleton. lia.
Qed.

Lemma two_sources_lookup v f ty text :
  two_sources v f !! ty = Some text <->
  (ty = GL_VERTEX_SHADER /\ text = v) \/ (ty = GL_FRAGMENT_SHADER /\ text = f).
Proof.
  unfold two_sources. rewrite lookup_insert_Some, lookup_insert_Some, lookup_empty.
  unfold GL_VERTEX_SHADER, GL_FRAGMENT_SHADER. split.
  - intros [[<- <-]|[? [[<- <-]|[_ ?]]]]; [right|left|discriminate]; auto.
  - intros [[-> ->]|[-> ->]]; [right; split; [lia|left; auto]|left; auto].
Qed.

Variable pf : Platform.
Hypothesis Horder : visits_each_entry_once pf.

(** The stage loop over stages that all compile. *)
Lemma Compile_stages_built program entries self tr :
  (length entries <= 2)%nat ->
  Forall (fun e => (glGetShaderiv_ret pf e.1 e.2 GL_COMPILE_STATUS =? GL_FALSE) = false)
    entries ->
  exists new ids,
    Compile_stages pf program entries [] (indeterminate pf) 0 self tr =
      (Returns (entries, ids), self, tr ++ new) /\
    (forall ty text, (ty, text) ∈ entries -> stage_built program ty text new) /\
    Forall (fun e => is_stage_setup e = true) new.
Proof.
  intros Hlen Hall.
  destruct entries as [|[ty1 s1] [|[ty2 s2] [|]]]; cbn [length] in Hlen; [| | |lia].
  - exists [], (indeterminate pf). cbn. rewrite app_nil_r.
    split; [reflexivity|]. split; [|constructor].
    intros ty text H. split_in H.
  - apply Forall_cons in Hall as [H1 _]. cbn in H1.
    eexists _, _. split; [|split].
    + run. rewrite H1. run. rewrite <- !app_assoc. cbn [app]. reflexivity.
    + intros ty text H. split_in H. inversion H; subst.
      eexists. repeat split; find_in.
    + repeat constructor.
  - apply Forall_cons in Hall as [H1 Hall]. apply Forall_cons in Hall as [H2 _].
    cbn in H1, H2.
    eexists _, _. split; [|split].
    + run. rewrite H1. run. rewrite H2. run. rewrite <- !app_assoc. cbn [app]. reflexivity.
    + intros ty text H. split_in H; inversion H; subst;
        eexists; repeat split; find_in.
    + repeat constructor.
Qed.

(** A run of [Compile] in which every stage compiles and the program
    links: what the driver is told, from first to last. *)
Lemma Compile_run (shaderSources : gmap Z std_string) (self : Shader) (tr : list event) :
  (size shaderSources <= 2)%nat ->
  all_stages_compile pf shaderSources ->
  glGetProgramiv_ret pf (iteration_order pf shaderSources) GL_LINK_STATUS <> GL_FALSE ->
  let program := gen_name pf tr in
  exists mid,
    Compile pf shaderSources self tr =
      (Returns tt, {| m_RendererID := program; m_Name := m_Name self |},
       tr ++ glCreateProgram program :: mid ++ [glUseProgram program]) /\
    (forall ty text, shaderSources !! ty = Some text ->
                     stage_built program ty text mid) /\
    glLinkProgram program ∈ mid /\
    Forall (fun e => is_diagnostic e = false) mid /\
    (forall id, glDeleteShader id ∉ mid) /\
    (forall p, glDeleteProgram p ∉ mid) /\
    (forall p, glUseProgram p ∉ mid).
Proof.
  intros Hsize Hok Hlink program.
  pose proof (all_stages_compile_order pf Horder _ Hok) as Hall.
  pose proof (iteration_order_length pf Horder shaderSources) as Hlen.
  apply Z.eqb_neq in Hlink.
  assert (Hassert : (Z.of_nat (size shaderSources) <=? 2) = true) by (apply Z.leb_le; lia).
  destruct (Compile_stages_built program (iteration_order pf shaderSources) self
              (tr ++ [glCreateProgram program]))
    as (st & ids & Hst & Hbuilt & Hquiet); [lia | exact Hall |].
  exists (st ++ [glLinkProgram program;
                 glGetProgramiv program GL_LINK_STATUS
                   (glGetProgramiv_ret pf (iteration_order pf shaderSources)
                      GL_LINK_STATUS);
                 glDetachShader program ids.1; glDetachShader program ids.2]).
  split; [|split; [|split; [|split; [|split; [|split]]]]].
  - unfold Compile. run. rewrite Hassert. fold program. rewrite Hst.
    run. rewrite Hlink. run. rewrite <- !app_assoc. cbn [app]. reflexivity.
  - intros ty text Hin. apply stage_built_app_l, Hbuilt.
    apply (iteration_order_lookup pf Horder), Hin.
  - find_in.
  - apply Forall_app. split; [|repeat constructor].
    apply Forall_forall. intros e He. apply (setup_is_quiet st e Hquiet He).
  - intros id H. split_in H; try discriminate.
    destruct (setup_is_quiet st _ Hquiet H) as (_ & Hd & _). exact (Hd id eq_refl).
  - intros p H. split_in H; try discriminate.
    destruct (setup_is_quiet st _ Hquiet H) as (_ & _ & Hd & _). exact (Hd p eq_refl).
  - intros p H. split_in H; try discriminate.
    destruct (setup_is_quiet st _ Hquiet H) as (_ & _ & _ & Hd). exact (Hd p eq_refl).
Qed.

(** X13: The constructor from two sources, where both compile and the
    program links: the shader object gets the given name and the new
    program as its handle; the vertex text was compiled as a vertex
    shader and the fragment text as a fragment shader; nothing is
    written to the error log; the program is the active one at the end. *)
Theorem OpenGLShader_sources_builds (name vertexSrc fragmentSrc : std_string)
    (self : Shader) (tr : list event) :
  glGetShaderiv_ret pf GL_VERTEX_SHADER vertexSrc GL_COMPILE_STATUS <> GL_FALSE ->
  glGetShaderiv_ret pf GL_FRAGMENT_SHADER fragmentSrc GL_COMPILE_STATUS <> GL_FALSE ->
  glGetProgramiv_ret pf (iteration_order pf (two_sources vertexSrc fragmentSrc))
    GL_LINK_STATUS <> GL_FALSE ->
  let program := gen_name pf tr in
  let r := OpenGLShader_sources pf name vertexSrc fragmentSrc self tr in
  result_of r = Returns tt /\
  object_of r = {| m_RendererID := program; m_Name := name |} /\
  exists new,
    events_of r = tr ++ new /\
    stage_built program GL_VERTEX_SHADER vertexSrc new /\
    stage_built program GL_FRAGMENT_SHADER fragmentSrc new /\
    Forall (fun e => is_diagnostic e = false) new /\
    active_program (events_of r) = Some program.
Proof.
  intros Hv Hf Hlink program r.
  destruct (Compile_run (two_sources vertexSrc fragmentSrc)
              {| m_RendererID := m_RendererID self; m_Name := name |} tr
              (two_sources_size _ _))
    as (mid & Hrun & Hbuilt & _ & Hquiet & _); [|exact Hlink|].
  { intros ty text [[-> ->]|[-> ->]]%two_sources_lookup; assumption. }
  subst r. unfold OpenGLShader_sources. step.
  change (<[GL_FRAGMENT_SHADER:=fragmentSrc]> (<[GL_VERTEX_SHADER:=vertexSrc]> ∅))
    with (two_sources vertexSrc fragmentSrc).
  rewrite Hrun. cbn [fst snd m_Name]. fold program.
  split; [reflexivity|]. split; [reflexivity|].
  eexists. split; [reflexivity|].
  split; [|split; [|split]].
  - apply (stage_built_app _ _ _ [_]), stage_built_app_l, Hbuilt, two_sources_lookup. auto.
  - apply (stage_built_app _ _ _ [_]), stage_built_app_l, Hbuilt, two_sources_lookup. auto.
  - constructor; [reflexivity|]. apply Forall_app. split; [exact Hquiet|].
    repeat constructor.
  - unfold active_program. rewrite app_comm_cons, !app_assoc, foldl_app. reflexivity.
Qed.

(** X14: Whatever the driver answers, the constructor from sources leaves the
    object with the given name, and with either the handle it had or the
    program [Compile] created. *)
Theorem OpenGLShader_sources_name (name vertexSrc fragmentSrc : std_string)
    (self : Shader) (tr : list event) :
  let r := OpenGLShader_sources pf name vertexSrc fragmentSrc self tr in
  m_Name (object_of r) = name /\
  (m_RendererID (object_of r) = m_RendererID self \/
   m_RendererID (object_of r) = gen_name pf tr /\ result_of r = Returns tt).
Proof.
  intros r.
  pose proof (Compile_object pf (two_sources vertexSrc fragmentSrc)
                {| m_RendererID := m_RendererID self; m_Name := name |} tr) as H.
  cbv zeta in H. destruct H as (Hname & Hobj & _).
  assert (Hr : r = Compile pf (two_sources vertexSrc fragmentSrc)
                 {| m_RendererID := m_RendererID self; m_Name := name |} tr)
    by reflexivity.
  rewrite Hr. split; [exact Hname|].
  destruct Hobj as [-> | (Hres & -> & _)]; [left; reflexivity | right; auto].
Qed.

(** X15: A shader built from two sources and then destroyed: the destructor
    deletes the program the constructor created; the two shader objects
    created on the way are never deleted. *)
Theorem OpenGLShader_lifetime (name vertexSrc fragmentSrc : std_string)
    (self : Shader) (tr : list event) :
  glGetShaderiv_ret pf GL_VERTEX_SHADER vertexSrc GL_COMPILE_STATUS <> GL_FALSE ->
  glGetShaderiv_ret pf GL_FRAGMENT_SHADER fragmentSrc GL_COMPILE_STATUS <> GL_FALSE ->
  glGetProgramiv_ret pf (iteration_order pf (two_sources vertexSrc fragmentSrc))
    GL_LINK_STATUS <> GL_FALSE ->
  let program := gen_name pf tr in
  let r := (OpenGLShader_sources pf name vertexSrc fragmentSrc;;
            OpenGLShader_destructor) self tr in
  result_of r = Returns tt /\
  exists new,
    events_of r = tr ++ glCreateProgram program :: new ++ [glDeleteProgram program] /\
    (forall p, glDeleteProgram p ∉ new) /\
    (exists id, glCreateShader GL_VERTEX_SHADER id ∈ new) /\
    (exists id, glCreateShader GL_FRAGMENT_SHADER id ∈ new) /\
    (forall id, glDeleteShader id ∉ new).
Proof.
  intros Hv Hf Hlink program r.
  destruct (Compile_run (two_sources vertexSrc fragmentSrc)
              {| m_RendererID := m_RendererID self; m_Name := name |} tr
              (two_sources_size _ _))
    as (mid & Hrun & Hbuilt & _ & _ & Hshader & Hprog & _); [|exact Hlink|].
  { intros ty text [[-> ->]|[-> ->]]%two_sources_lookup; assumption. }
  assert (Hctor : OpenGLShader_sources pf name vertexSrc fragmentSrc self tr =
                  Compile pf (two_sources vertexSrc fragmentSrc)
                    {| m_RendererID := m_RendererID self; m_Name := name |} tr)
    by reflexivity.
  assert (Hr : r = (Returns tt, {| m_RendererID := program; m_Name := name |},
                    (tr ++ glCreateProgram program :: mid ++ [glUseProgram program])
                      ++ [glDeleteProgram program])).
  { subst r. unfold mbind, M_bind. rewrite Hctor, Hrun. reflexivity. }
  rewrite Hr. cbn [result_of events_of fst snd].
  split; [reflexivity|].
  exists (mid ++ [glUseProgram program]).
  split; [rewrite <- ?app_assoc; cbn [app]; rewrite <- ?app_assoc; reflexivity|].
  split; [|split; [|split]].
  - intros p H. split_in H; [exact (Hprog p H)|discriminate].
  - destruct (Hbuilt GL_VERTEX_SHADER vertexSrc) as (id & H & _).
    { apply two_sources_lookup. auto. }
    exists id. apply elem_of_app. left. exact H.
  - destruct (Hbuilt GL_FRAGMENT_SHADER fragmentSrc) as (id & H & _).
    { apply two_sources_lookup. auto. }
    exists id. apply elem_of_app. left. exact H.
  - intros id H. split_in H; [exact (Hshader id H)|discriminate].
Qed.

(** X16: The constructor from a file that holds well-formed stage blocks, all
    of which compile and link: it returns with the new program as handle
    and the stem of the path as name; each stage's text, as the splitter
    cut it out, was compiled as a shader of its kind; nothing is written
    to the error log. *)
Theorem OpenGLShader_filepath_builds (filepath pre : std_string) (bs : list block)
    (self : Shader) (tr : list event) :
  file_contents pf filepath = Some (pre ++ blocks_source bs) ->
  marker_free pre ->
  bs <> [] ->
  Forall block_ok bs ->
  last_block_has_text bs ->
  str.fits (pre ++ blocks_source bs) ->
  str.fits filepath ->
  all_stages_compile pf (blocks_map bs ∅) ->
  glGetProgramiv_ret pf (iteration_order pf (blocks_map bs ∅)) GL_LINK_STATUS
    <> GL_FALSE ->
  let program := gen_name pf tr in
  let r := OpenGLShader_filepath pf filepath self tr in
  result_of r = Returns tt /\
  object_of r = {| m_RendererID := program; m_Name := file_stem filepath |} /\
  exists new,
    events_of r = tr ++ new /\
    (forall ty text, blocks_map bs ∅ !! ty = Some text ->
                     stage_built program ty text new) /\
    Forall (fun e => is_diagnostic e = false) new /\
    active_program (events_of r) = Some program.
Proof.
  intros Hfile Hpre Hne Hok Hlast Hfits Hpath Hcompile Hlink program r.
  pose proof (PreProcess_blocks_map (HZ_ENABLE_ASSERTS pf) pre bs Hpre Hne Hok Hlast Hfits)
    as Hsplit.
  destruct (Compile_run (blocks_map bs ∅) self tr (blocks_map_size bs) Hcompile Hlink)
    as (mid & Hrun & Hbuilt & _ & Hquiet & _).
  subst r. unfold OpenGLShader_filepath, ReadFile. rewrite Hfile. step.
  rewrite Hsplit. step. rewrite Hrun. step.
  rewrite (name_of_filepath_stem filepath Hpath). step. fold program.
  split; [reflexivity|]. split; [reflexivity|].
  eexists. split; [reflexivity|].
  split; [|split].
  - intros ty text Hin.
    apply (stage_built_app _ _ _ [_]), stage_built_app_l, Hbuilt, Hin.
  - constructor; [reflexivity|]. apply Forall_app. split; [exact Hquiet|].
    repeat constructor.
  - unfold active_program. rewrite app_comm_cons, !app_assoc, foldl_app. reflexivity.
Qed.
End BuildMore.

(** ** Uploads and the active program *)

Section UploadMore.
Variable pf : Platform.

Lemma active_program_app tr new :
  active_program (tr ++ new) =
  foldl (fun cur e => match e with glUseProgram p => Some p | _ => cur end)
    (active_program tr) new.
Proof. unfold active_program. apply foldl_app. Qed.


(** X18: [Unbind] followed by a setter: the lookup still asks the shader's
    own program, and the value is passed on while program 0 is the
    active one. *)
Theorem upload_after_Unbind (name : std_string) (u : upload)
    (self : Shader) (tr : list event) :
  let r := (Unbind;; call_upload pf name u) self tr in
  result_of r = Returns tt /\
  active_program (events_of r) = Some 0 /\
  exists location push,
    events_of r = tr ++ [glUseProgram 0;
                         glGetUniformLocation (m_RendererID self) name location;
                         push] /\
    uniform_push_location push = Some location.
Proof.
  intros r. subst r.
  destruct u; cbn [call_upload]; run;
    (split; [reflexivity|]);
    rewrite <- !app_assoc; cbn [app];
    (split; [rewrite active_program_app; reflexivity|]);
    eexists _, _; (split; [reflexivity | reflexivity]).
Qed.

Hypothesis Horder : visits_each_entry_once pf.

(** X19: A shader built from two sources and then given a uniform: the name
    is looked up in the program the constructor created, and the value
    is passed on while that program is the active one. *)
Theorem upload_after_construction (name vertexSrc fragmentSrc uniform : std_string)
    (u : upload) (self : Shader) (tr : list event) :
  glGetShaderiv_ret pf GL_VERTEX_SHADER vertexSrc GL_COMPILE_STATUS <> GL_FALSE ->
  glGetShaderiv_ret pf GL_FRAGMENT_SHADER fragmentSrc GL_COMPILE_STATUS <> GL_FALSE ->
  glGetProgramiv_ret pf (iteration_order pf (two_sources vertexSrc fragmentSrc))
    GL_LINK_STATUS <> GL_FALSE ->
  let program := gen_name pf tr in
  let location := glGetUniformLocation_ret pf program uniform in
  let r := (OpenGLShader_sources pf name vertexSrc fragmentSrc;;
            call_upload pf uniform u) self tr in
  result_of r = Returns tt /\
  object_of r = {| m_RendererID := program; m_Name := name |} /\
  exists before push,
    events_of r = before ++ [glGetUniformLocation program uniform location; push] /\
    active_program before = Some program /\
    uniform_push_location push = Some location.
Proof.
  intros Hv Hf Hlink program location r.
  destruct (Compile_run pf Horder (two_sources vertexSrc fragmentSrc)
              {| m_RendererID := m_RendererID self; m_Name := name |} tr
              (two_sources_size _ _))
    as (mid & Hrun & _); [|exact Hlink|].
  { intros ty text [[-> ->]|[-> ->]]%two_sources_lookup; assumption. }
  assert (Hctor : OpenGLShader_sources pf name vertexSrc fragmentSrc self tr =
                  Compile pf (two_sources vertexSrc fragmentSrc)
                    {| m_RendererID := m_RendererID self; m_Name := name |} tr)
    by reflexivity.
  set (built := {| m_RendererID := program; m_Name := name |}).
  set (before := tr ++ glCreateProgram program :: mid ++ [glUseProgram program]).
  assert (Hr : r = call_upload pf uniform u built before).
  { subst r. unfold mbind, M_bind. rewrite Hctor, Hrun. reflexivity. }
  assert (Hactive : active_program before = Some program).
  { subst before. unfold active_program.
    rewrite app_comm_cons, !app_assoc, foldl_app. reflexivity. }
  rewrite Hr. clearbody before. clear Hr r.
  subst built location.
  destruct u; cbn [call_upload]; run;
    (split; [reflexivity | split; [reflexivity |]]);
    rewrite <- app_assoc; cbn [app];
    eexists _, _; (split; [reflexivity | split; [exact Hactive | reflexivity]]).
Qed.
End UploadMore.

(** ** The vertex-array binder, without the assumption that the counter
    does not overflow and that the layout is accepted *)

Section VertexArrayMore.
Variable pf : Platform.

Lemma base_type_release t : exists g, ShaderDataTypeToOpenGLBaseType false t = Returns g.
Proof. destruct t; eexists; reflexivity. Qed.

Lemma base_type_known asserts t :
  t <> None_ ->
  ShaderDataTypeToOpenGLBaseType asserts t = ShaderDataTypeToOpenGLBaseType false t.
Proof. destruct t; intros H; [congruence | reflexivity ..]. Qed.

Lemma uint32_range a : 0 <= uint32 a < 2 ^ 32.
Proof. unfold uint32. apply Z.mod_pos_bound. reflexivity. Qed.

Lemma uint32_succ c i : uint32 (uint32 (c + 1) + i) = uint32 (c + (1 + i)).
Proof. unfold uint32. rewrite Zplus_mod_idemp_l. f_equal. lia. Qed.

Lemma passes_base_type e :
  passes (HZ_ENABLE_ASSERTS pf) e ->
  exists ty, ShaderDataTypeToOpenGLBaseType false (Type_ e) = Returns ty /\
             ShaderDataTypeToOpenGLBaseType (HZ_ENABLE_ASSERTS pf) (Type_ e) = Returns ty.
Proof.
  intros H. destruct (base_type_release (Type_ e)) as [ty Hty]. exists ty.
  split; [exact Hty|].
  destruct H as [-> | H]; [exact Hty | rewrite base_type_known; auto].
Qed.

Lemma AddVertexBuffer_element_step layout e self tr :
  passes (HZ_ENABLE_ASSERTS pf) e ->
  exists ty,
    ShaderDataTypeToOpenGLBaseType false (Type_ e) = Returns ty /\
    AddVertexBuffer_element pf layout e self tr =
      (Returns tt,
       {| va_RendererID := va_RendererID self;
          m_VertexBufferIndex := uint32 (m_VertexBufferIndex self + 1);
          m_VertexBuffers := m_VertexBuffers self |},
       tr ++ [glEnableVertexAttribArray (m_VertexBufferIndex self);
              glVertexAttribPointer (m_VertexBufferIndex self)
                (GetComponentCount e) ty
                (if Normalized e then GL_TRUE else GL_FALSE)
                (GetStride layout) (Offset e)]).
Proof.
  intros H. destruct (passes_base_type e H) as (ty & Hty & Ety).
  exists ty. split; [exact Hty|].
  run. rewrite Ety. cbn. rewrite <- app_assoc. reflexivity.
Qed.

(** The element loop, slot by slot, with the counter reduced modulo
    [2 ^ 32] at each step. *)
Lemma AddVertexBuffer_elements_trace layout elements :
  Forall (passes (HZ_ENABLE_ASSERTS pf)) elements ->
  forall self tr,
    0 <= m_VertexBufferIndex self < 2 ^ 32 ->
    exists new,
      AddVertexBuffer_elements pf layout elements self tr =
        (Returns tt,
         {| va_RendererID := va_RendererID self;
            m_VertexBufferIndex :=
              uint32 (m_VertexBufferIndex self + Z.of_nat (length elements));
            m_VertexBuffers := m_VertexBuffers self |},
         tr ++ new) /\
      slots new = (fun i => uint32 (m_VertexBufferIndex self + i))
                    <$> seqZ 0 (Z.of_nat (length elements)) /\
      Forall (fun e => is_attribute_call e = true) new /\
      (forall (i : nat) e, elements !! i = Some e ->
         exists ty,
           ShaderDataTypeToOpenGLBaseType false (Type_ e) = Returns ty /\
           glEnableVertexAttribArray (uint32 (m_VertexBufferIndex self + Z.of_nat i))
             ∈ new /\
           glVertexAttribPointer (uint32 (m_VertexBufferIndex self + Z.of_nat i))
             (GetComponentCount e) ty (if Normalized e then GL_TRUE else GL_FALSE)
             (GetStride layout) (Offset e) ∈ new).
Proof.
  induction 1 as [|e rest He Hrest IH]; intros self tr Hc.
  - exists []. cbn [length AddVertexBuffer_elements]. rewrite Z.add_0_r, uint32_small by exact Hc.
    split; [|split; [|split]].
    + cbn. rewrite app_nil_r. destruct self; reflexivity.
    + reflexivity.
    + constructor.
    + intros i e H. rewrite lookup_nil in H. discriminate.
  - destruct (AddVertexBuffer_element_step layout e self tr He) as (ty & Hty & Hstep).
    set (c := m_VertexBufferIndex self) in *.
    set (self1 := {| va_RendererID := va_RendererID self;
                     m_VertexBufferIndex := uint32 (c + 1);
                     m_VertexBuffers := m_VertexBuffers self |}) in *.
    set (two := [glEnableVertexAttribArray c;
                 glVertexAttribPointer c (GetComponentCount e) ty
                   (if Normalized e then GL_TRUE else GL_FALSE)
                   (GetStride layout) (Offset e)]) in *.
    destruct (IH self1 (tr ++ two) (uint32_range _)) as (new & Hrun & Hslots & Hcalls & Hat).
    cbn [m_VertexBufferIndex va_RendererID m_VertexBuffers self1] in Hrun, Hslots, Hat.
    exists (two ++ new).
    split; [|split; [|split]].
    + cbn [AddVertexBuffer_elements]. unfold mbind, M_bind. rewrite Hstep, Hrun.
      rewrite <- app_assoc. do 2 f_equal. f_equal.
      rewrite uint32_succ. f_equal. cbn [length]. lia.
    + rewrite slots_app, Hslots. cbn [length].
      rewrite (seqZ_cons 0 (Z.of_nat (S (length rest)))) by lia. rewrite fmap_cons.
      rewrite Z.add_0_r, (uint32_small c) by exact Hc.
      change (slots two) with [c]. cbn [app]. f_equal.
      replace (Z.pred (Z.of_nat (S (length rest)))) with (Z.of_nat (length rest)) by lia.
      change (Z.succ 0) with (1 + 0).
      rewrite <- (fmap_add_seqZ 1 0), <- list_fmap_compose.
      apply list_fmap_ext. intros _ i _. cbn. apply uint32_succ.
    + apply Forall_app. split; [repeat constructor | exact Hcalls].
    + intros [|i] e' Hi.
      * cbn in Hi. injection Hi as <-. exists ty.
        change (Z.of_nat 0) with 0. rewrite Z.add_0_r, (uint32_small c) by exact Hc.
        split; [exact Hty|]. split; apply elem_of_app; left; subst two; find_in.
      * cbn in Hi. destruct (Hat i e' Hi) as (ty' & Hty' & H1 & H2).
        exists ty'. rewrite uint32_succ in H1, H2.
        replace (c + Z.of_nat (S i)) with (c + (1 + Z.of_nat i)) by lia.
        split; [exact Hty'|]. split; apply elem_of_app; right; assumption.
Qed.

(** The whole call, for a layout whose elements all get past the type
    switch. *)
Lemma AddVertexBuffer_trace vb self tr :
  (HZ_ENABLE_ASSERTS pf = false \/ GetElements (GetLayout vb) <> []) ->
  Forall (passes (HZ_ENABLE_ASSERTS pf)) (GetElements (GetLayout vb)) ->
  0 <= m_VertexBufferIndex self < 2 ^ 32 ->
  exists new,
    AddVertexBuffer pf vb self tr =
      (Returns tt,
       {| va_RendererID := va_RendererID self;
          m_VertexBufferIndex := uint32 (m_VertexBufferIndex self + layout_size vb);
          m_VertexBuffers := m_VertexBuffers self ++ [vb] |},
       tr ++ glBindVertexArray (va_RendererID self)
          :: VertexBuffer_Bind (vb_RendererID vb) :: new) /\
    slots new = (fun i => uint32 (m_VertexBufferIndex self + i))
                  <$> seqZ 0 (layout_size vb) /\
    Forall (fun e => is_attribute_call e = true) new /\
    (forall (i : nat) e, GetElements (GetLayout vb) !! i = Some e ->
       exists ty,
         ShaderDataTypeToOpenGLBaseType false (Type_ e) = Returns ty /\
         glEnableVertexAttribArray (uint32 (m_VertexBufferIndex self + Z.of_nat i))
           ∈ new /\
         glVertexAttribPointer (uint32 (m_VertexBufferIndex self + Z.of_nat i))
           (GetComponentCount e) ty (if Normalized e then GL_TRUE else GL_FALSE)
           (GetStride (GetLayout vb)) (Offset e) ∈ new).
Proof.
  intros Hassert Hpass Hc. unfold layout_size.
  destruct (AddVertexBuffer_elements_trace (GetLayout vb) _ Hpass self
              (tr ++ [glBindVertexArray (va_RendererID self);
                      VertexBuffer_Bind (vb_RendererID vb)]) Hc)
    as (new & Hrun & Hrest).
  exists new. split; [|exact Hrest].
  assert (Hcheck : HZ_CORE_ASSERT (HZ_ENABLE_ASSERTS pf)
                     (negb (Z.of_nat (length (GetElements (GetLayout vb))) =? 0))
                     "Vertex Buffer has not layout!" = Returns tt).
  { unfold HZ_CORE_ASSERT. destruct Hassert as [-> | Hne]; [destruct (negb _); reflexivity|].
    destruct (GetElements (GetLayout vb)); [congruence|].
    destruct (HZ_ENABLE_ASSERTS pf); reflexivity. }
  unfold AddVertexBuffer. rewrite Hcheck.
  run. rewrite <- app_assoc in Hrun. cbn [app] in Hrun.
  rewrite <- !app_assoc. cbn [app].
  rewrite Hrun. cbn. reflexivity.
Qed.

Lemma layout_ok_passes vb :
  layout_ok vb ->
  (HZ_ENABLE_ASSERTS pf = false \/ GetElements (GetLayout vb) <> []) /\
  Forall (passes (HZ_ENABLE_ASSERTS pf)) (GetElements (GetLayout vb)).
Proof.
  intros [Hne Hty]. split; [right; exact Hne|].
  eapply Forall_impl; [exact Hty|]. intros e He. right. exact He.
Qed.

(** X20: The counter is a 32-bit one.  A call on an accepted layout of [n]
    elements binds the slots [c], [c + 1], ... reduced modulo [2 ^ 32]
    and leaves the counter at [(c + n) mod 2 ^ 32]; when the counter
    passes the last 32-bit value, slot 0 is bound again. *)
Theorem AddVertexBuffer_counter_wraps (vb : VertexBuffer) (self : VertexArray)
    (tr : list event) :
  layout_ok vb ->
  0 <= m_VertexBufferIndex self < 2 ^ 32 ->
  let c := m_VertexBufferIndex self in
  let n := layout_size vb in
  let r := AddVertexBuffer pf vb self tr in
  let bound := slots (drop (length tr) (events_of r)) in
  result_of r = Returns tt /\
  bound = (fun i => (c + i) mod 2 ^ 32) <$> seqZ 0 n /\
  m_VertexBufferIndex (object_of r) = (c + n) mod 2 ^ 32 /\
  (2 ^ 32 - c < n -> 0 ∈ bound).
Proof.
  intros Hok Hc c n r bound.
  destruct (layout_ok_passes vb Hok) as [Hassert Hpass].
  destruct (AddVertexBuffer_trace vb self tr Hassert Hpass Hc)
    as (new & Hrun & Hslots & _).
  assert (Hbound : bound = (fun i => (c + i) mod 2 ^ 32) <$> seqZ 0 n).
  { subst bound r. rewrite Hrun. cbn [events_of snd]. rewrite drop_app_length.
    exact Hslots. }
  subst r. rewrite Hrun. cbn [result_of object_of fst snd m_VertexBufferIndex].
  split; [reflexivity|]. split; [exact Hbound|]. split; [reflexivity|].
  intros Hover.
  rewrite Hbound. apply list_elem_of_fmap. exists (2 ^ 32 - c). split.
  - replace (c + (2 ^ 32 - c)) with (2 ^ 32) by lia. reflexivity.
  - apply elem_of_seqZ. fold c in Hc. lia.
Qed.
(** X21: A call on an accepted layout first binds the array itself and the
    buffer, and then makes only attribute calls: each element of the
    layout has its slot enabled and described with the element's own
    component count, base type, normalisation flag and offset, and with
    the stride of the whole layout. *)
Theorem AddVertexBuffer_attributes (vb : VertexBuffer) (self : VertexArray)
    (tr : list event) :
  layout_ok vb ->
  0 <= m_VertexBufferIndex self < 2 ^ 32 ->
  let c := m_VertexBufferIndex self in
  let r := AddVertexBuffer pf vb self tr in
  exists new,
    events_of r = tr ++ glBindVertexArray (va_RendererID self)
                     :: VertexBuffer_Bind (vb_RendererID vb) :: new /\
    Forall (fun e => is_attribute_call e = true) new /\
    (forall (i : nat) e, GetElements (GetLayout vb) !! i = Some e ->
       exists ty,
         ShaderDataTypeToOpenGLBaseType (HZ_ENABLE_ASSERTS pf) (Type_ e) = Returns ty /\
         glEnableVertexAttribArray ((c + Z.of_nat i) mod 2 ^ 32) ∈ new /\
         glVertexAttribPointer ((c + Z.of_nat i) mod 2 ^ 32)
           (GetComponentCount e) ty (if Normalized e then GL_TRUE else GL_FALSE)
           (GetStride (GetLayout vb)) (Offset e) ∈ new).
Proof.
  intros Hok Hc c r.
  destruct (layout_ok_passes vb Hok) as [Hassert Hpass].
  destruct (AddVertexBuffer_trace vb self tr Hassert Hpass Hc)
    as (new & Hrun & _ & Hcalls & Hat).
  exists new. subst r. rewrite Hrun. cbn [events_of snd].
  split; [reflexivity|]. split; [exact Hcalls|].
  intros i e Hi. destruct (Hat i e Hi) as (ty & Hty & H1 & H2).
  exists ty. split; [|split; assumption].
  rewrite base_type_known; [exact Hty|].
  destruct Hok as [_ Hknown]. rewrite Forall_forall in Hknown.
  apply Hknown. eapply list_elem_of_lookup_2. exact Hi.
Qed.

(** X22: With assertions compiled out, [AddVertexBuffer] refuses nothing: a
    buffer without layout is recorded without any slot, and an element
    of unknown type has its slot described with base type 0. *)
Theorem AddVertexBuffer_release (vb : VertexBuffer) (self : VertexArray)
    (tr : list event) :
  HZ_ENABLE_ASSERTS pf = false ->
  0 <= m_VertexBufferIndex self < 2 ^ 32 ->
  let c := m_VertexBufferIndex self in
  let r := AddVertexBuffer pf vb self tr in
  result_of r = Returns tt /\
  m_VertexBuffers (object_of r) = m_VertexBuffers self ++ [vb] /\
  m_VertexBufferIndex (object_of r) = (c + layout_size vb) mod 2 ^ 32 /\
  (GetElements (GetLayout vb) = [] ->
   events_of r = tr ++ [glBindVertexArray (va_RendererID self);
                        VertexBuffer_Bind (vb_RendererID vb)]) /\
  (forall (i : nat) e,
      GetElements (GetLayout vb) !! i = Some e -> Type_ e = None_ ->
      glVertexAttribPointer ((c + Z.of_nat i) mod 2 ^ 32)
        (GetComponentCount e) 0 (if Normalized e then GL_TRUE else GL_FALSE)
        (GetStride (GetLayout vb)) (Offset e) ∈ events_of r).
Proof.
  intros Hasserts Hc c r.
  destruct (AddVertexBuffer_trace vb self tr (or_introl Hasserts)) as
    (new & Hrun & Hslots & _ & Hat); [|exact Hc|].
  { apply Forall_forall. intros e _. left. exact Hasserts. }
  subst r. rewrite Hrun.
  cbn [result_of object_of events_of fst snd m_VertexBuffers m_VertexBufferIndex].
  split; [reflexivity|]. split; [reflexivity|]. split; [reflexivity|]. split.
  - intros Hempty. unfold layout_size in Hslots. rewrite Hempty in Hslots.
    cbn in Hslots. destruct new as [|e new']; [reflexivity|].
    exfalso. clear -Hempty Hasserts Hrun.
    unfold AddVertexBuffer in Hrun. rewrite Hempty, Hasserts in Hrun.
    revert Hrun. run. intros Hrun. injection Hrun as _ Hrun.
    rewrite <- !app_assoc in Hrun. apply app_inv_head in Hrun. discriminate Hrun.
  - intros i e Hi Hnone. destruct (Hat i e Hi) as (ty & Hty & _ & H2).
    rewrite Hnone in Hty. cbn in Hty. injection Hty as <-.
    apply elem_of_app. right. do 2 apply list_elem_of_further. exact H2.
Qed.

(** X23: A buffer without layout, with assertions compiled in: the call
    stops before any driver call, and the array is as it was. *)
Theorem AddVertexBuffer_without_layout (vb : VertexBuffer) (self : VertexArray)
    (tr : list event) :
  HZ_ENABLE_ASSERTS pf = true ->
  GetElements (GetLayout vb) = [] ->
  AddVertexBuffer pf vb self tr =
    (Halts (AssertionFailed "Vertex Buffer has not layout!"), self, tr).
Proof.
  intros Hasserts Hempty. unfold AddVertexBuffer.
  rewrite Hempty, Hasserts. reflexivity.
Qed.

Lemma AddVertexBuffer_elements_app layout a b self tr :
  AddVertexBuffer_elements pf layout (a ++ b) self tr =
  (AddVertexBuffer_elements pf layout a;; AddVertexBuffer_elements pf layout b) self tr.
Proof.
  revert self tr. induction a as [|e a IH]; intros self tr.
  - reflexivity.
  - cbn [app AddVertexBuffer_elements]. unfold mbind, M_bind in *.
    destruct (AddVertexBuffer_element pf layout e self tr) as [[[[]|h] self1] tr1].
    + apply IH.
    + reflexivity.
Qed.

(** X24: An element of unknown type, with assertions compiled in: the
    elements before it are bound as usual, the slot of the unknown one
    is enabled but not described, and the call stops there; the counter
    stands at that slot, and the buffer is not recorded. *)
Theorem AddVertexBuffer_unknown_type (vb : VertexBuffer) (self : VertexArray)
    (tr : list event) (good rest : list BufferElement) (bad : BufferElement) :
  HZ_ENABLE_ASSERTS pf = true ->
  GetElements (GetLayout vb) = good ++ bad :: rest ->
  Forall (fun e => Type_ e <> None_) good ->
  Type_ bad = None_ ->
  0 <= m_VertexBufferIndex self < 2 ^ 32 ->
  let c := m_VertexBufferIndex self in
  let k := Z.of_nat (length good) in
  let r := AddVertexBuffer pf vb self tr in
  result_of r = Halts (AssertionFailed "Unknown ShaderDataType!") /\
  object_of r = {| va_RendererID := va_RendererID self;
                   m_VertexBufferIndex := (c + k) mod 2 ^ 32;
                   m_VertexBuffers := m_VertexBuffers self |} /\
  last (events_of r) = Some (glEnableVertexAttribArray ((c + k) mod 2 ^ 32)) /\
  slots (drop (length tr) (events_of r)) = (fun i => (c + i) mod 2 ^ 32) <$> seqZ 0 k.
Proof.
  intros Hasserts Hsplit Hgood Hbad Hc c k r.
  set (tr0 := tr ++ [glBindVertexArray (va_RendererID self);
                     VertexBuffer_Bind (vb_RendererID vb)]).
  destruct (AddVertexBuffer_elements_trace (GetLayout vb) good) with (self := self)
    (tr := tr0) as (new & Hrun & Hslots & _).
  { eapply Forall_impl; [exact Hgood|]. intros e He. right. exact He. }
  { exact Hc. }
  fold c k in Hrun, Hslots.
  set (self1 := {| va_RendererID := va_RendererID self;
                   m_VertexBufferIndex := uint32 (c + k);
                   m_VertexBuffers := m_VertexBuffers self |}) in *.
  assert (Hloop : AddVertexBuffer_elements pf (GetLayout vb) (good ++ bad :: rest)
                    self tr0 =
                  (Halts (AssertionFailed "Unknown ShaderDataType!"), self1,
                   (tr0 ++ new) ++ [glEnableVertexAttribArray (uint32 (c + k))])).
  { rewrite AddVertexBuffer_elements_app. unfold mbind at 1, M_bind at 1.
    rewrite Hrun. cbn [AddVertexBuffer_elements]. unfold AddVertexBuffer_element.
    run. rewrite Hbad, Hasserts. reflexivity. }
  assert (Hr : r = (Halts (AssertionFailed "Unknown ShaderDataType!"), self1,
                    (tr0 ++ new) ++ [glEnableVertexAttribArray (uint32 (c + k))])).
  { subst r. unfold AddVertexBuffer. rewrite Hsplit.
    replace (negb (Z.of_nat (length (good ++ bad :: rest)) =? 0)) with true.
    2:{ symmetry. apply negb_true_iff, Z.eqb_neq. rewrite length_app. cbn. lia. }
    unfold HZ_CORE_ASSERT. step. rewrite <- (app_assoc tr). cbn [app]. fold tr0.
    rewrite Hloop. reflexivity. }
  rewrite Hr. cbn [result_of object_of events_of fst snd].
  split; [reflexivity|]. split; [reflexivity|]. split; [apply last_snoc|].
  subst tr0. rewrite <- !app_assoc, drop_app_length, !slots_app.
  change (slots [glEnableVertexAttribArray (uint32 (c + k))]) with (@nil Z).
  change (slots [glBindVertexArray (va_RendererID self);
                 VertexBuffer_Bind (vb_RendererID vb)]) with (@nil Z).
  rewrite app_nil_r. exact Hslots.
Qed.
End VertexArrayMore.

(** ** The name taken from a path, put together from its parts *)

Section NamesMore.

Lemma last_where_app_here P a c b :
  P c = true -> Forall (fun x => P x = false) b ->
  str.last_where P (a ++ c :: b) = Some (length a).
Proof.
  intros Hc Hb.
  assert (Hnone : str.last_where P b = None).
  { induction Hb as [|x b Hx _ IH]; [reflexivity|]. cbn. rewrite IH, Hx. reflexivity. }
  induction a as [|x a IH]; cbn.
  - rewrite Hnone, Hc. reflexivity.
  - rewrite IH. reflexivity.
Qed.

Lemma name_after_separator dir sep rest :
  is_separator sep = true ->
  Forall (fun c => is_separator c = false) rest ->
  after_last_separator (dir ++ sep :: rest) = S (length dir).
Proof.
  intros Hsep Hrest. unfold after_last_separator.
  rewrite (last_where_app_here (str.is_one_of (lit "/\")) dir sep rest Hsep Hrest).
  reflexivity.
Qed.

(** X25: Putting a path together from a directory, a separator, a name and
    an extension, and taking the name out again with the constructor's
    code, gives the name back; the name may itself contain dots. *)
Theorem name_of_filepath_round_trip (dir name ext : std_string) (sep : ascii) :
  is_separator sep = true ->
  Forall (fun c => is_separator c = false) name ->
  Forall (fun c => is_separator c = false /\ is_dot c = false) ext ->
  str.fits (dir ++ sep :: name ++ "."%char :: ext) ->
  name_of_filepath (dir ++ sep :: name ++ "."%char :: ext) = Returns name.
Proof.
  intros Hsep Hname Hext Hfits.
  rewrite (name_of_filepath_stem _ Hfits). f_equal. unfold file_stem.
  rewrite (name_after_separator dir sep (name ++ "."%char :: ext) Hsep).
  2:{ apply Forall_app. split; [exact Hname|]. constructor; [reflexivity|].
      eapply Forall_impl; [exact Hext|]. intros c [H _]. exact H. }
  replace (dir ++ sep :: name ++ "."%char :: ext)
    with ((dir ++ sep :: name) ++ "."%char :: ext)
    by (rewrite <- app_assoc; reflexivity).
  rewrite (last_where_app_here (Ascii.eqb ".") (dir ++ sep :: name) "."%char ext).
  2:{ reflexivity. }
  2:{ eapply Forall_impl; [exact Hext|]. intros c [_ H]. exact H. }
  rewrite length_app. cbn [length].
  destruct (Nat.leb_spec (S (length dir)) (length dir + S (length name))) as [_|]; [|lia].
  rewrite <- app_assoc. cbn [app].
  change (sep :: name ++ "."%char :: ext) with ([sep] ++ name ++ "."%char :: ext).
  rewrite (app_assoc dir).
  rewrite (drop_app_length' (dir ++ [sep])) by (rewrite length_app; cbn; lia).
  replace (length dir + S (length name) - S (length dir))%nat with (length name) by lia.
  apply take_app_length.
Qed.

(** X26: A path without extension: the name is what follows the last
    separator, also when the directory part contains a dot, where the
    count computed from the two positions wraps around. *)
Theorem name_of_filepath_without_extension (dir name : std_string) (sep : ascii) :
  is_separator sep = true ->
  Forall (fun c => is_separator c = false /\ is_dot c = false) name ->
  str.fits (dir ++ sep :: name) ->
  name_of_filepath (dir ++ sep :: name) = Returns name.
Proof.
  intros Hsep Hname Hfits.
  rewrite (name_of_filepath_stem _ Hfits). f_equal. unfold file_stem.
  rewrite (name_after_separator dir sep name Hsep).
  2:{ eapply Forall_impl; [exact Hname|]. intros c [H _]. exact H. }
  assert (Hdrop : drop (S (length dir)) (dir ++ sep :: name) = name).
  { change (sep :: name) with ([sep] ++ name). rewrite app_assoc.
    apply drop_app_length'. rewrite length_app. cbn. lia. }
  assert (Hlen : length (dir ++ sep :: name) = (S (length dir) + length name)%nat).
  { rewrite length_app. cbn. lia. }
  rewrite Hdrop.
  destruct (str.last_where (Ascii.eqb ".") (dir ++ sep :: name)) as [d|] eqn:Ed.
  - destruct (Nat.leb_spec (S (length dir)) d) as [Hle|Hlt].
    + exfalso. apply last_where_Some in Ed as (c & Hc & Hdot & _).
      assert (Hin : c ∈ name).
      { rewrite <- Hdrop. apply list_elem_of_lookup. exists (d - S (length dir))%nat.
        rewrite lookup_drop. rewrite <- Hc. f_equal. lia. }
      rewrite Forall_forall in Hname. destruct (Hname c Hin) as [_ Hno].
      unfold is_dot in Hno. congruence.
    + rewrite Hlen. replace (S (length dir) + length name - S (length dir))%nat
        with (length name) by lia.
      apply firstn_all.
  - rewrite Hlen. replace (S (length dir) + length name - S (length dir))%nat
      with (length name) by lia.
    apply firstn_all.
Qed.

(** X27: Whatever the path, the name the constructor takes from it is a
    piece of the path and contains no separator. *)
Theorem name_of_filepath_no_separator (filepath name : std_string) :
  str.fits filepath ->
  name_of_filepath filepath = Returns name ->
  piece_of name filepath /\ Forall (fun c => is_separator c = false) name.
Proof.
  intros Hfits Hname. rewrite (name_of_filepath_stem _ Hfits) in Hname.
  injection Hname as <-. unfold file_stem.
  set (start := after_last_separator filepath).
  set (stop := match str.last_where (Ascii.eqb ".") filepath with
               | Some d => if (start <=? d)%nat then d else length filepath
               | None => length filepath
               end).
  split.
  - exists (take start filepath), (drop (stop - start) (drop start filepath)).
    rewrite take_drop, take_drop. reflexivity.
  - apply Forall_take. subst start. unfold after_last_separator.
    destruct (str.last_where (str.is_one_of (lit "/\")) filepath) as [k|] eqn:Ek.
    + apply last_where_Some in Ek as (_ & _ & _ & H). exact H.
    + rewrite drop_0. apply last_where_None in Ek. exact Ek.
Qed.
End NamesMore.

(** ** The properties above at example inputs *)

Lemma PreProcess_no_marker_witness :
  PreProcess true (lit "void main(){}") = Returns ∅.
Proof.
  apply (PreProcess_no_marker true (lit "void main(){}")).
  apply marker_free_by_search. reflexivity.
Defined.

Lemma example_block_ok name breaks text :
  recognized name -> breaks <> [] ->
  forallb is_line_break breaks = true ->
  str.head_in line_breaks text = false ->
  str.first_where (str.starts_with typeToken) text = None ->
  block_ok {| stage_name := name; breaks := breaks; text := text |}.
Proof.
  intros Hname Hne Hbreaks Hhead Hfree.
  split; [exact Hname|]. split; [exact Hne|].
  split; [apply Forall_forall; intros c Hc;
          rewrite forallb_forall in Hbreaks; apply Hbreaks, list_elem_of_In, Hc|].
  split; [exact Hhead|]. apply marker_free_by_search, Hfree.
Qed.

Lemma example_blocks_ok : Forall block_ok example_blocks.
Proof.
  repeat (apply Forall_cons_2; [|]); [| | |apply Forall_nil_2].
  - apply example_block_ok; [left; reflexivity | discriminate | reflexivity ..].
  - apply example_block_ok; [right; left; reflexivity | discriminate | reflexivity ..].
  - apply example_block_ok; [left; reflexivity | discriminate | reflexivity ..].
Qed.

Lemma PreProcess_blocks_witness :
  exists m : gmap Z std_string,
    PreProcess true ([] ++ blocks_source example_blocks) = Returns m /\
    m = blocks_map example_blocks ∅ /\
    (forall b, last example_blocks = Some b ->
               m !! stage_kind (stage_name b) = Some (text b)) /\
    (size m <= 2)%nat.
Proof.
  apply (PreProcess_blocks true [] example_blocks).
  - apply marker_free_by_search. reflexivity.
  - discriminate.
  - exact example_blocks_ok.
  - intros b [= <-]. discriminate.
  - vm_compute. reflexivity.
Defined.

Lemma PreProcess_release_agrees_witness :
  PreProcess false example_source =
    Returns (blocks_map [example_vertex_block; example_fragment_block] ∅).
Proof.
  apply (PreProcess_release_agrees example_source).
  vm_compute. reflexivity.
Defined.

Lemma PreProcess_keys_witness :
  let m := blocks_map [example_vertex_block; example_fragment_block] ∅ in
  dom m ⊆ {[GL_VERTEX_SHADER; GL_FRAGMENT_SHADER]} /\
  (true = true -> (Z.of_nat (size m) <=? 2) = true).
Proof.
  intros m.
  apply (PreProcess_keys true example_source m).
  - vm_compute. reflexivity.
  - vm_compute. reflexivity.
Defined.

Lemma PreProcess_texts_witness :
  let text := lit "void main(){}" ++ [LF] in
  piece_of text example_source /\ marker_free text /\
  str.head_in line_breaks text = false.
Proof.
  intros text.
  apply (PreProcess_texts true example_source
           (blocks_map [example_vertex_block; example_fragment_block] ∅)
           GL_VERTEX_SHADER text).
  - vm_compute. reflexivity.
  - vm_compute. reflexivity.
  - vm_compute. reflexivity.
Defined.

Lemma PreProcess_advances_witness :
  (forall pos m pos' m',
      0 <= pos ->
      PreProcess_step true example_source pos m = Returns (pos', m') ->
      pos' = str.npos \/
      (pos < pos' <= str.size example_source /\
       marker_at example_source (Z.to_nat pos'))) /\
  ((exists m, PreProcess true example_source = Returns m) \/
   (exists h, PreProcess true example_source = Halts h /\ is_failure h = true)).
Proof.
  apply (PreProcess_advances true example_source).
  vm_compute. reflexivity.
Defined.

Lemma Compile_stage_failure_witness :
  let pf := example_driver true [lit "bad"] in
  let r := Compile pf example_bad_fragment fresh_shader [] in
  let new := drop 0 (events_of r) in
  result_of r = Halts (AssertionFailed "Shader compilation failure!") /\
  object_of r = fresh_shader /\
  events_of r = [] ++ new /\
  (exists ty text id,
      example_bad_fragment !! ty = Some text /\
      glGetShaderiv_ret pf ty text GL_COMPILE_STATUS = GL_FALSE /\
      glCreateShader ty id ∈ new /\
      glDeleteShader id ∈ new /\
      HZ_CORE_ERROR (glGetShaderInfoLog_ret pf ty text) ∈ new /\
      (forall id', glDeleteShader id' ∈ new -> id' = id)) /\
  (forall p, glDeleteProgram p ∉ new) /\
  (forall p, glLinkProgram p ∉ new) /\
  (forall p, glUseProgram p ∉ new).
Proof.
  intros pf.
  apply (Compile_stage_failure pf (example_platform_order _ _ _ _ _)
           example_bad_fragment fresh_shader []).
  - reflexivity.
  - vm_compute. lia.
  - exists GL_FRAGMENT_SHADER, (lit "bad"). split; reflexivity.
Defined.


Lemma Compile_too_many_stages_witness :
  let pf := example_driver true [] in
  let program := gen_name pf [] in
  let r := Compile pf example_three_stages fresh_shader [] in
  (HZ_ENABLE_ASSERTS pf = true ->
   r = (Halts (AssertionFailed "We only support 2 shaders for the moment"),
        fresh_shader, [] ++ [glCreateProgram program])) /\
  (HZ_ENABLE_ASSERTS pf = false -> all_stages_compile pf example_three_stages ->
   result_of r = Halts Undefined /\ object_of r = fresh_shader).
Proof.
  intros pf.
  apply (Compile_too_many_stages pf (example_platform_order _ _ _ _ _)
           example_three_stages fresh_shader []).
  vm_compute. lia.
Defined.

Lemma OpenGLShader_sources_builds_witness :
  let pf := example_driver true [] in
  let program := gen_name pf [] in
  let r := OpenGLShader_sources pf (lit "Flat") (lit "vert") (lit "frag") fresh_shader [] in
  result_of r = Returns tt /\
  object_of r = {| m_RendererID := program; m_Name := lit "Flat" |} /\
  exists new,
    events_of r = [] ++ new /\
    stage_built program GL_VERTEX_SHADER (lit "vert") new /\
    stage_built program GL_FRAGMENT_SHADER (lit "frag") new /\
    Forall (fun e => is_diagnostic e = false) new /\
    active_program (events_of r) = Some program.
Proof.
  intros pf.
  apply (OpenGLShader_sources_builds pf (example_platform_order _ _ _ _ _)
           (lit "Flat") (lit "vert") (lit "frag") fresh_shader []).
  - cbn. discriminate.
  - cbn. discriminate.
  - cbn. discriminate.
Defined.

Lemma OpenGLShader_lifetime_witness :
  let pf := example_driver true [] in
  let program := gen_name pf [] in
  let r := (OpenGLShader_sources pf (lit "Flat") (lit "vert") (lit "frag");;
            OpenGLShader_destructor) fresh_shader [] in
  result_of r = Returns tt /\
  exists new,
    events_of r = [] ++ glCreateProgram program :: new ++ [glDeleteProgram program] /\
    (forall p, glDeleteProgram p ∉ new) /\
    (exists id, glCreateShader GL_VERTEX_SHADER id ∈ new) /\
    (exists id, glCreateShader GL_FRAGMENT_SHADER id ∈ new) /\
    (forall id, glDeleteShader id ∉ new).
Proof.
  intros pf.
  apply (OpenGLShader_lifetime pf (example_platform_order _ _ _ _ _)
           (lit "Flat") (lit "vert") (lit "frag") fresh_shader []).
  - cbn. discriminate.
  - cbn. discriminate.
  - cbn. discriminate.
Defined.

Lemma OpenGLShader_filepath_builds_witness :
  let pf := example_driver true [] in
  let filepath := lit "assets/Texture.glsl" in
  let bs := [example_vertex_block; example_fragment_block] in
  let program := gen_name pf [] in
  let r := OpenGLShader_filepath pf filepath fresh_shader [] in
  result_of r = Returns tt /\
  object_of r = {| m_RendererID := program; m_Name := file_stem filepath |} /\
  exists new,
    events_of r = [] ++ new /\
    (forall ty text, blocks_map bs ∅ !! ty = Some text ->
                     stage_built program ty text new) /\
    Forall (fun e => is_diagnostic e = false) new /\
    active_program (events_of r) = Some program.
Proof.
  intros pf filepath bs.
  apply (OpenGLShader_filepath_builds pf (example_platform_order _ _ _ _ _)
           filepath [] bs fresh_shader []).
  - reflexivity.
  - apply marker_free_by_search. reflexivity.
  - discriminate.
  - apply Forall_cons_2; [|apply Forall_cons_2; [|apply Forall_nil_2]].
    + apply example_block_ok; [left; reflexivity | discriminate | reflexivity ..].
    + apply example_block_ok; [right; left; reflexivity | discriminate | reflexivity ..].
  - intros b [= <-]. discriminate.
  - vm_compute. reflexivity.
  - vm_compute. reflexivity.
  - intros ty text _. cbn. discriminate.
  - cbn. discriminate.
Defined.

Lemma upload_after_construction_witness :
  let pf := example_driver true [] in
  let program := gen_name pf [] in
  let location := glGetUniformLocation_ret pf program (lit "u_Color") in
  let r := (OpenGLShader_sources pf (lit "Flat") (lit "vert") (lit "frag");;
            call_upload pf (lit "u_Color") (CallSetFloat 1)) fresh_shader [] in
  result_of r = Returns tt /\
  object_of r = {| m_RendererID := program; m_Name := lit "Flat" |} /\
  exists before push,
    events_of r = before ++ [glGetUniformLocation program (lit "u_Color") location; push] /\
    active_program before = Some program /\
    uniform_push_location push = Some location.
Proof.
  intros pf.
  apply (upload_after_construction pf (example_platform_order _ _ _ _ _)
           (lit "Flat") (lit "vert") (lit "frag") (lit "u_Color") (CallSetFloat 1)
           fresh_shader []).
  - cbn. discriminate.
  - cbn. discriminate.
  - cbn. discriminate.
Defined.

Lemma AddVertexBuffer_counter_wraps_witness :
  let pf := example_driver true [] in
  let c := 2 ^ 32 - 1 in
  let n := 2 in
  let r := AddVertexBuffer pf example_buffer_2 example_full_vertex_array [] in
  let bound := slots (drop 0 (events_of r)) in
  result_of r = Returns tt /\
  bound = (fun i => (c + i) mod 2 ^ 32) <$> seqZ 0 n /\
  m_VertexBufferIndex (object_of r) = (c + n) mod 2 ^ 32 /\
  (2 ^ 32 - c < n -> 0 ∈ bound).
Proof.
  intros pf.
  apply (AddVertexBuffer_counter_wraps pf example_buffer_2 example_full_vertex_array []).
  - split; [discriminate|]. repeat constructor; discriminate.
  - split; [discriminate | reflexivity].
Defined.

Lemma AddVertexBuffer_attributes_witness :
  let pf := example_driver true [] in
  let vb := example_buffer_3 in
  let r := AddVertexBuffer pf vb fresh_vertex_array [] in
  exists new,
    events_of r = [] ++ glBindVertexArray 1 :: VertexBuffer_Bind 2 :: new /\
    Forall (fun e => is_attribute_call e = true) new /\
    (forall (i : nat) e, GetElements (GetLayout vb) !! i = Some e ->
       exists ty,
         ShaderDataTypeToOpenGLBaseType true (Type_ e) = Returns ty /\
         glEnableVertexAttribArray ((0 + Z.of_nat i) mod 2 ^ 32) ∈ new /\
         glVertexAttribPointer ((0 + Z.of_nat i) mod 2 ^ 32)
           (GetComponentCount e) ty (if Normalized e then GL_TRUE else GL_FALSE)
           (GetStride (GetLayout vb)) (Offset e) ∈ new).
Proof.
  intros pf vb.
  apply (AddVertexBuffer_attributes pf vb fresh_vertex_array []).
  - split; [discriminate|]. repeat constructor; discriminate.
  - split; [discriminate | reflexivity].
Defined.

Lemma AddVertexBuffer_release_witness :
  let pf := example_driver false [] in
  let vb := example_buffer_unknown in
  let r := AddVertexBuffer pf vb fresh_vertex_array [] in
  result_of r = Returns tt /\
  m_VertexBuffers (object_of r) = [] ++ [vb] /\
  m_VertexBufferIndex (object_of r) = (0 + layout_size vb) mod 2 ^ 32 /\
  (GetElements (GetLayout vb) = [] ->
   events_of r = [] ++ [glBindVertexArray 1; VertexBuffer_Bind 4]) /\
  (forall (i : nat) e,
      GetElements (GetLayout vb) !! i = Some e -> Type_ e = None_ ->
      glVertexAttribPointer ((0 + Z.of_nat i) mod 2 ^ 32)
        (GetComponentCount e) 0 (if Normalized e then GL_TRUE else GL_FALSE)
        (GetStride (GetLayout vb)) (Offset e) ∈ events_of r).
Proof.
  intros pf vb.
  apply (AddVertexBuffer_release pf vb fresh_vertex_array []).
  - reflexivity.
  - split; [discriminate | reflexivity].
Defined.

Lemma AddVertexBuffer_without_layout_witness :
  AddVertexBuffer (example_driver true []) example_buffer_0 fresh_vertex_array [] =
    (Halts (AssertionFailed "Vertex Buffer has not layout!"), fresh_vertex_array, []).
Proof.
  apply (AddVertexBuffer_without_layout (example_driver true []) example_buffer_0
           fresh_vertex_array []).
  - reflexivity.
  - reflexivity.
Defined.

Lemma AddVertexBuffer_unknown_type_witness :
  let pf := example_driver true [] in
  let r := AddVertexBuffer pf example_buffer_unknown fresh_vertex_array [] in
  result_of r = Halts (AssertionFailed "Unknown ShaderDataType!") /\
  object_of r = {| va_RendererID := 1;
                   m_VertexBufferIndex := (0 + 1) mod 2 ^ 32;
                   m_VertexBuffers := [] |} /\
  last (events_of r) = Some (glEnableVertexAttribArray ((0 + 1) mod 2 ^ 32)) /\
  slots (drop 0 (events_of r)) = (fun i => (0 + i) mod 2 ^ 32) <$> seqZ 0 1.
Proof.
  intros pf.
  apply (AddVertexBuffer_unknown_type pf example_buffer_unknown fresh_vertex_array []
           [example_element Float3 3 0] [example_element Float2 2 12]
           (example_element None_ 0 12)).
  - reflexivity.
  - reflexivity.
  - repeat constructor. discriminate.
  - reflexivity.
  - split; [discriminate | reflexivity].
Defined.

Lemma name_of_filepath_round_trip_witness :
  name_of_filepath (lit "assets/shaders" ++ "/"%char :: lit "Texture.v2" ++
                    "."%char :: lit "glsl")
  = Returns (lit "Texture.v2").
Proof.
  apply (name_of_filepath_round_trip (lit "assets/shaders") (lit "Texture.v2")
           (lit "glsl") "/"%char).
  - reflexivity.
  - repeat constructor.
  - repeat constructor.
  - vm_compute. reflexivity.
Defined.

Lemma name_of_filepath_without_extension_witness :
  name_of_filepath (lit "assets.d" ++ "\"%char :: lit "Texture") = Returns (lit "Texture").
Proof.
  apply (name_of_filepath_without_extension (lit "assets.d") (lit "Texture") "\"%char).
  - reflexivity.
  - repeat constructor.
  - vm_compute. reflexivity.
Defined.

Lemma name_of_filepath_no_separator_witness :
  piece_of (lit "Texture") (lit "assets/Texture.glsl") /\
  Forall (fun c => is_separator c = false) (lit "Texture").
Proof.
  apply (name_of_filepath_no_separator (lit "assets/Texture.glsl") (lit "Texture")).
  - vm_compute. reflexivity.
  - vm_compute. reflexivity.
Defined.
